(** * Antigravity agent runtime: lifecycle controller, context manager,
      tool registry and decision loop.

    A shallow embedding of the orchestration core
    ([src/agent/lifecycle.ts], [src/mcp/context-manager.ts],
    [src/mcp/tool-registry.ts], [src/agent/decision-loop.ts]) and the
    properties its specification states about it.

    Conventions of the embedding.
    - A JavaScript [number] that the code only uses as a counter, a
      version or a millisecond timestamp is a [Z]; the running average of
      the registry, which is divided, is an exact rational ([Qc]).
    - Classes are records of their private fields; a method is a
      computation in the monad [M St] below, which threads the object [St]
      and the outside [World] (clock, uuid source, calls made to
      functions supplied by the client, store of context objects) and may end in a thrown value.  A thrown value keeps the
      mutations made before the [throw], as in JavaScript.
    - An [EventEmitter] is modelled by the log of what it emitted, in
      emission order; listeners are observers and do not call back into
      the emitting object.
    - A [Promise] is modelled by its outcome, and a timer by the delay
      that Node arms it with; the code below is the sequential run of
      one session (no concurrent [stop]/[suspend]). *)

From stdpp Require Import base strings list gmap pretty.
From Stdlib Require Import ZArith QArith Qcanon.

Open Scope string_scope.
Open Scope list_scope.
Open Scope Z_scope.

(** ** Core vocabulary ([src/types/core.types.ts]) *)

Definition UniqueId := string.
Definition Timestamp := Z.

(** Opaque payloads ([unknown], [Record<string, unknown>]). *)
#[local] Set Warnings "-register-all".
Inductive Json :=
| JNull
| JBool (b : bool)
| JNum (n : Z)
| JStr (s : string)
| JArr (l : list Json)
| JObj (fields : list (string * Json)).

Definition JsRecord := list (string * Json).

Inductive AgentPhase :=
| IDLE | PLANNING | ACTING | OBSERVING | REFLECTING
| COMPLETE | FAILED | SUSPENDED.

#[global] Instance AgentPhase_eq_dec : EqDecision AgentPhase.
Proof. solve_decision. Defined.

(** The enum's members are their own names as strings. *)
Definition AgentPhase_value (p : AgentPhase) : string :=
  match p with
  | IDLE => "IDLE" | PLANNING => "PLANNING" | ACTING => "ACTING"
  | OBSERVING => "OBSERVING" | REFLECTING => "REFLECTING"
  | COMPLETE => "COMPLETE" | FAILED => "FAILED" | SUSPENDED => "SUSPENDED"
  end.

Inductive ActionOutcome :=
| SUCCESS | PARTIAL | FAILURE | TIMEOUT | SKIPPED.

Record ToolError := {
  te_code : string;
  te_message : string;
  te_recoverable : bool;
  te_suggestions : list string;
}.

Record ToolResult := {
  tr_id : UniqueId;
  tr_toolId : string;
  tr_success : bool;
  tr_data : option Json;
  tr_error : option ToolError;
  tr_durationMs : Z;
  tr_completedAt : Timestamp;
}.

Record ToolInvocation := {
  ti_toolId : string;
  ti_parameters : JsRecord;
  ti_rationale : string;
}.

Record AgentStep := {
  as_id : UniqueId;
  as_stepNumber : Z;
  as_phase : AgentPhase;
  as_description : string;
  as_reasoning : option string;
  as_toolInvocation : option ToolInvocation;
  as_result : option ToolResult;
  as_outcome : ActionOutcome;
  as_durationMs : Z;
  as_startedAt : Timestamp;
  as_completedAt : Timestamp;
}.

Record TextRange := {
  startLine : Z; startColumn : Z; endLine : Z; endColumn : Z;
}.

Record UserIntent := {
  ui_rawInput : string;
  ui_action : string;
  ui_target : option string;
  ui_constraints : list string;
  ui_confidence : Qc;
  ui_capturedAt : Timestamp;
}.

Record WorkspaceMetadata := {
  rootPath : string;
  projectType : option string;
  frameworks : list string;
  activeFile : option string;
  selection : option TextRange;
  gitBranch : option string;
  hasUncommittedChanges : bool;
  scannedAt : Timestamp;
}.

(** ** MCP vocabulary ([src/types/mcp.types.ts]) *)

Inductive MemoryType := EPISODIC | SEMANTIC | PROCEDURAL.

Record MemoryReference := {
  memoryId : UniqueId;
  memoryType : MemoryType;
  summary : string;
  relevance : Qc;
  mr_createdAt : Timestamp;
}.

Inductive FactCategory :=
| CODE_STRUCTURE | DEPENDENCY | USER_PREFERENCE | SYSTEM_STATE
| ERROR_PATTERN | DISCOVERY | VALIDATION.

Record ContextFact := {
  cf_id : UniqueId;
  category : FactCategory;
  statement : string;
  confidence : Qc;
  source : string;
  discoveredAt : Timestamp;
}.

Inductive ConstraintType :=
| FILE_PROTECTION | STYLE_REQUIREMENT | TIME_BOUND | RESOURCE_LIMIT
| COMPATIBILITY.

Inductive ConstraintSource := by_user | by_system | by_inferred.

Record ExecutionConstraint := {
  ec_id : UniqueId;
  ec_type : ConstraintType;
  ec_description : string;
  mandatory : bool;
  ec_source : ConstraintSource;
}.

Inductive Priority := CRITICAL | HIGH | NORMAL | LOW | BACKGROUND.

Inductive PlannedActionStatus :=
| PENDING | IN_PROGRESS | COMPLETED | STATUS_SKIPPED | STATUS_FAILED.

#[global] Instance PlannedActionStatus_eq_dec : EqDecision PlannedActionStatus.
Proof. solve_decision. Defined.

Record PlannedAction := {
  pa_id : UniqueId;
  pa_index : Z;
  pa_toolId : string;
  pa_description : string;
  expectedParameters : JsRecord;
  dependsOn : list UniqueId;
  priority : Priority;
  status : PlannedActionStatus;
}.

Record ExecutionPlan := {
  ep_id : UniqueId;
  ep_description : string;
  actions : list PlannedAction;
  currentIndex : Z;
  ep_confidence : Qc;
  ep_createdAt : Timestamp;
  revision : Z;
}.

Record MCPContext := {
  id : UniqueId;
  ctx_sessionId : UniqueId;
  version : Z;
  intent : UserIntent;
  workspace : WorkspaceMetadata;
  memoryRefs : list MemoryReference;
  recentResults : list ToolResult;
  activePlan : option ExecutionPlan;
  facts : list ContextFact;
  constraints : list ExecutionConstraint;
  createdAt : Timestamp;
  updatedAt : Timestamp;
}.

(** A reference to a context object: its address in the store of
    [World]. *)
Definition ContextRef := nat.

(** ** The outside world and the method monad *)

(** What a [throw] carries: an [Error] object with its message, or any
    other value. *)
Inductive Thrown :=
| ErrorObj (message : string)
| NonError (v : Json).

(** [error instanceof Error ? error.message : 'Unknown error'] *)
Definition error_message (e : Thrown) : string :=
  match e with
  | ErrorObj m => m
  | NonError _ => "Unknown error"
  end.

(** The clock and the uuid source are oracles read in order: the k-th
    call of [Date.now()] returns [clock k], the k-th call of [uuidv4()]
    returns [uuids k].  [calls] records, latest first, every call made
    to a function supplied from outside the core; the result of such a
    function may depend on its arguments and on the world at the time of
    the call, which covers closures with a state of their own and tools
    that read the file system.  [heap] is the store of the context
    objects allocated so far: a context is passed around by reference,
    and the reference is its position. *)
Inductive ExternalCall :=
| call_execute (toolId : string) (input : Json)
| call_validate (toolId : string) (input : Json)
| call_planner (context : ContextRef)
| call_reflector (context : ContextRef) (steps : list AgentStep).

Record World := {
  clock : nat -> Timestamp;
  ticks : nat;
  uuids : nat -> UniqueId;
  draws : nat;
  calls : list ExternalCall;
  heap : list MCPContext;
}.

Inductive Result (A : Type) :=
| Ok (a : A)
| Throw (e : Thrown).
Arguments Ok {A} a.
Arguments Throw {A} e.

Definition M (St A : Type) : Type := St -> World -> Result A * St * World.

Definition ret {St A} (a : A) : M St A := fun s w => (Ok a, s, w).

Definition bind {St A B} (m : M St A) (k : A -> M St B) : M St B :=
  fun s w =>
    match m s w with
    | (Ok a, s', w') => k a s' w'
    | (Throw e, s', w') => (Throw e, s', w')
    end.

Definition throw {St A} (e : Thrown) : M St A := fun s w => (Throw e, s, w).

(** [try { m } catch (error) { h error }] *)
Definition try_catch {St A} (m : M St A) (h : Thrown -> M St A) : M St A :=
  fun s w =>
    match m s w with
    | (Ok a, s', w') => (Ok a, s', w')
    | (Throw e, s', w') => h e s' w'
    end.

Definition gets {St A} (f : St -> A) : M St A := fun s w => (Ok (f s), s, w).
Definition modify {St} (f : St -> St) : M St unit := fun s w => (Ok tt, f s, w).

(** Runs a method of a member object held in a field of [T]. *)
Definition zoom {St T A} (get : T -> St) (set : St -> T -> T) (m : M St A)
  : M T A :=
  fun t w =>
    match m (get t) w with
    | (r, s', w') => (r, set s' t, w')
    end.

Declare Scope method_scope.
Delimit Scope method_scope with method.
Notation "'let*' x ':=' m 'in' k" := (bind m (fun x => k))
  (at level 10, x name, m at level 100, k at level 200) : method_scope.
Notation "m ';;;' k" := (bind m (fun _ => k))
  (at level 100, k at level 200, right associativity) : method_scope.
Open Scope method_scope.

(** Reading the clock: the value read and the world after the reading. *)
Definition tick (w : World) : Timestamp * World :=
  (clock w (ticks w),
   {| clock := clock w; ticks := S (ticks w); uuids := uuids w;
      draws := draws w; calls := calls w; heap := heap w |}).

(** Drawing a uuid. *)
Definition draw (w : World) : string * World :=
  (uuids w (draws w),
   {| clock := clock w; ticks := ticks w; uuids := uuids w;
      draws := S (draws w); calls := calls w; heap := heap w |}).

(** A computation that only involves the world, inside a method. *)
Definition lift {St A} (f : World -> A * World) : M St A :=
  fun s w => (Ok (f w).1, s, (f w).2).

(** [Date.now()] *)
Definition Date_now {St} : M St Timestamp := lift tick.

(** [createTimestamp(value?)]: [value ?? Date.now()] *)
Definition createTimestamp {St} (value : option Timestamp) : M St Timestamp :=
  match value with
  | Some v => ret v
  | None => Date_now
  end.

(** [uuidv4()] *)
Definition uuidv4 {St} : M St string := lift draw.

(** An object literal of type [MCPContext]: allocates it and returns the
    reference. *)
Definition new_context {St} (c : MCPContext) : M St ContextRef :=
  fun s w =>
    (Ok (length (heap w)), s,
     {| clock := clock w; ticks := ticks w; uuids := uuids w;
        draws := draws w; calls := calls w;
        heap := heap w ++ [c] |}).

(** Reading through a reference.  A reference held by the program always
    points to an allocated object; the [Throw] branch is for addresses
    that no allocation returned. *)
Definition deref {St} (l : ContextRef) : M St MCPContext :=
  fun s w =>
    match heap w !! l with
    | Some c => (Ok c, s, w)
    | None => (Throw (NonError JNull), s, w)
    end.

(** Calling a function supplied from outside: [f] is applied to the
    world as it is at the call, and the call is recorded. *)
Definition external {St A} (k : ExternalCall) (f : World -> A) : M St A :=
  fun s w =>
    (Ok (f w), s,
     {| clock := clock w; ticks := ticks w; uuids := uuids w;
        draws := draws w; calls := k :: calls w; heap := heap w |}).

(** [try { m } finally { f }] *)
Definition try_finally {St A} (m : M St A) (f : M St unit) : M St A :=
  fun s w =>
    match m s w with
    | (r, s', w') =>
        match f s' w' with
        | (Ok _, s'', w'') => (r, s'', w'')
        | (Throw e, s'', w'') => (Throw e, s'', w'')
        end
    end.

(** [await p] for a promise [p] given by its outcome. *)
Definition await {St A} (p : Result A) : M St A :=
  match p with
  | Ok a => ret a
  | Throw e => throw e
  end.

(** [a ?? b] *)
Definition nullish {A} (a : option A) (b : A) : A :=
  match a with
  | Some v => v
  | None => b
  end.

(** ** Insertion-ordered maps (the JavaScript [Map]) *)

Module JsMap.
Section JsMap.
Context {K V : Type} `{EqDecision K}.

(** Entries in insertion order, keys pairwise distinct. *)
Definition t := list (K * V).

Definition empty : t := [].

(** [m.set(k, v)]: an existing key keeps its position and takes the new
    value; a new key goes last. *)
Fixpoint set (m : t) (k : K) (v : V) : t :=
  match m with
  | [] => [(k, v)]
  | (k', v') :: rest =>
      if decide (k' = k) then (k', v) :: rest
      else (k', v') :: set rest k v
  end.

(** [m.get(k)] *)
Fixpoint get (m : t) (k : K) : option V :=
  match m with
  | [] => None
  | (k', v') :: rest => if decide (k' = k) then Some v' else get rest k
  end.

(** [new Map(entries)] *)
Definition from_entries (entries : list (K * V)) : t :=
  foldl (fun m e => set m e.1 e.2) empty entries.

(** [Array.from(m.values())] *)
Definition values (m : t) : list V := m.*2.

Definition keys (m : t) : list K := m.*1.
End JsMap.
Arguments t : clear implicits.

Section Keyed.
Context {K V : Type} `{EqDecision K} (key : V → K).
Implicit Types (m : t K V) (k : K) (v : V) (l : list V).

(** The loop [for (const x of l) m.set(key(x), x)]. *)
Definition set_all m l : t K V :=
  foldl (fun m x => set m (key x) x) m l.

(** The last element of [l] filed under [k], if any. *)
Fixpoint latest l k : option V :=
  match l with
  | [] => None
  | x :: rest =>
      match latest rest k with
      | Some y => Some y
      | None => if decide (key x = k) then Some x else None
      end
  end.

(** Every value is filed under its own key. *)
Definition keyed m : Prop := Forall (fun e => key e.2 = e.1) m.
End Keyed.
End JsMap.

(** [createUniqueId(value)] is the identity (a type-level brand). *)
Definition createUniqueId (value : string) : UniqueId := value.

(** ** Lifecycle controller ([src/agent/lifecycle.ts]) *)

Module Lifecycle.

Record PhaseMetadata := {
  pm_enteredAt : Timestamp;
  pm_stepNumber : Z;
  pm_reason : string;
  pm_data : JsRecord;
}.

Record LifecycleError := {
  le_code : string;
  le_message : string;
  le_phase : AgentPhase;
  le_attemptedTransition : option AgentPhase;
}.

Record PhaseHistoryEntry := {
  phase : AgentPhase;
  entryStepNumber : Z;
  enteredAt : Timestamp;
  exitedAt : option Timestamp;
  reason : string;
}.

(** The events of [LifecycleEvents], with their arguments. *)
Inductive LifecycleEvent :=
| phase_enter (p : AgentPhase) (metadata : PhaseMetadata)
| phase_exit (p : AgentPhase) (metadata : PhaseMetadata)
| transition_ev (from to : AgentPhase) (reason : string)
| error_ev (error : LifecycleError).

(** The private fields of [LifecycleController]; [emitted] is the log of
    the emitter it extends, latest event first. *)
Record LifecycleController := {
  sessionId : UniqueId;
  currentPhase : AgentPhase;
  previousPhase : option AgentPhase;
  stepNumber : Z;
  phaseHistory : list PhaseHistoryEntry;
  startedAt : Timestamp;
  lastTransitionAt : Timestamp;
  currentPhaseEntry : option PhaseHistoryEntry;
  emitted : list LifecycleEvent;
}.

Record LifecycleState := {
  ls_sessionId : UniqueId;
  ls_currentPhase : AgentPhase;
  ls_previousPhase : option AgentPhase;
  ls_stepNumber : Z;
  ls_phaseHistory : list PhaseHistoryEntry;
  ls_startedAt : Timestamp;
  ls_lastTransitionAt : Timestamp;
  ls_isTerminal : bool;
}.

(** Field updates ([this.f = v]). *)
Definition set_currentPhase v (c : LifecycleController) :=
  {| sessionId := sessionId c; currentPhase := v;
     previousPhase := previousPhase c; stepNumber := stepNumber c;
     phaseHistory := phaseHistory c; startedAt := startedAt c;
     lastTransitionAt := lastTransitionAt c;
     currentPhaseEntry := currentPhaseEntry c; emitted := emitted c |}.
Definition set_previousPhase v (c : LifecycleController) :=
  {| sessionId := sessionId c; currentPhase := currentPhase c;
     previousPhase := v; stepNumber := stepNumber c;
     phaseHistory := phaseHistory c; startedAt := startedAt c;
     lastTransitionAt := lastTransitionAt c;
     currentPhaseEntry := currentPhaseEntry c; emitted := emitted c |}.
Definition set_stepNumber v (c : LifecycleController) :=
  {| sessionId := sessionId c; currentPhase := currentPhase c;
     previousPhase := previousPhase c; stepNumber := v;
     phaseHistory := phaseHistory c; startedAt := startedAt c;
     lastTransitionAt := lastTransitionAt c;
     currentPhaseEntry := currentPhaseEntry c; emitted := emitted c |}.
Definition set_phaseHistory v (c : LifecycleController) :=
  {| sessionId := sessionId c; currentPhase := currentPhase c;
     previousPhase := previousPhase c; stepNumber := stepNumber c;
     phaseHistory := v; startedAt := startedAt c;
     lastTransitionAt := lastTransitionAt c;
     currentPhaseEntry := currentPhaseEntry c; emitted := emitted c |}.
Definition set_lastTransitionAt v (c : LifecycleController) :=
  {| sessionId := sessionId c; currentPhase := currentPhase c;
     previousPhase := previousPhase c; stepNumber := stepNumber c;
     phaseHistory := phaseHistory c; startedAt := startedAt c;
     lastTransitionAt := v;
     currentPhaseEntry := currentPhaseEntry c; emitted := emitted c |}.
Definition set_currentPhaseEntry v (c : LifecycleController) :=
  {| sessionId := sessionId c; currentPhase := currentPhase c;
     previousPhase := previousPhase c; stepNumber := stepNumber c;
     phaseHistory := phaseHistory c; startedAt := startedAt c;
     lastTransitionAt := lastTransitionAt c;
     currentPhaseEntry := v; emitted := emitted c |}.

(** [this.emit(...)] *)
Definition emit (e : LifecycleEvent) : M LifecycleController unit :=
  modify (fun c =>
    {| sessionId := sessionId c; currentPhase := currentPhase c;
       previousPhase := previousPhase c; stepNumber := stepNumber c;
       phaseHistory := phaseHistory c; startedAt := startedAt c;
       lastTransitionAt := lastTransitionAt c;
       currentPhaseEntry := currentPhaseEntry c;
       emitted := e :: emitted c |}).

(** The map literal [VALID_TRANSITIONS], entry by entry. *)
Definition VALID_TRANSITIONS : JsMap.t AgentPhase (list AgentPhase) :=
  JsMap.from_entries
  [ (IDLE, [PLANNING; SUSPENDED]);
    (PLANNING, [ACTING; REFLECTING; FAILED; SUSPENDED]);
    (ACTING, [OBSERVING; FAILED; SUSPENDED]);
    (OBSERVING, [REFLECTING; FAILED; SUSPENDED]);
    (REFLECTING, [PLANNING; COMPLETE; FAILED; SUSPENDED]);
    (SUSPENDED, [PLANNING; FAILED]);
    (COMPLETE, []);
    (FAILED, []) ].

(** [Array.prototype.includes] on phases. *)
Definition includes (l : list AgentPhase) (p : AgentPhase) : bool :=
  bool_decide (p ∈ l).

(** The [Set] literal [TERMINAL_PHASES]; [has] is membership. *)
Definition TERMINAL_PHASES : list AgentPhase := [COMPLETE; FAILED].

Definition isTerminal (c : LifecycleController) : bool :=
  includes TERMINAL_PHASES (currentPhase c).

Definition getCurrentPhase (c : LifecycleController) : AgentPhase :=
  currentPhase c.

Definition getStepNumber (c : LifecycleController) : Z := stepNumber c.

Definition getState (c : LifecycleController) : LifecycleState :=
  {| ls_sessionId := sessionId c;
     ls_currentPhase := currentPhase c;
     ls_previousPhase := previousPhase c;
     ls_stepNumber := stepNumber c;
     ls_phaseHistory := phaseHistory c;
     ls_startedAt := startedAt c;
     ls_lastTransitionAt := lastTransitionAt c;
     ls_isTerminal := isTerminal c |}.

Definition canTransition (c : LifecycleController) (targetPhase : AgentPhase)
  : bool :=
  match JsMap.get VALID_TRANSITIONS (currentPhase c) with
  | Some validTargets => includes validTargets targetPhase
  | None => false
  end.

Definition enterPhase (p : AgentPhase) (why : string) (data : JsRecord)
  : M LifecycleController unit :=
  let* now := createTimestamp None in
  let* step := gets stepNumber in
  modify (set_currentPhaseEntry (Some
    {| phase := p; entryStepNumber := step; enteredAt := now;
       exitedAt := None; reason := why |})) ;;;
  let metadata :=
    {| pm_enteredAt := now; pm_stepNumber := step; pm_reason := why;
       pm_data := data |} in
  emit (phase_enter p metadata).

Definition exitPhase : M LifecycleController unit :=
  let* entry := gets currentPhaseEntry in
  match entry with
  | Some entry =>
      let* now := createTimestamp None in
      let completedEntry :=
        {| phase := phase entry; entryStepNumber := entryStepNumber entry;
           enteredAt := enteredAt entry; exitedAt := Some now;
           reason := reason entry |} in
      modify (fun c => set_phaseHistory (phaseHistory c ++ [completedEntry]) c) ;;;
      let metadata :=
        {| pm_enteredAt := enteredAt entry;
           pm_stepNumber := entryStepNumber entry;
           pm_reason := reason entry; pm_data := [] |} in
      let* cur := gets currentPhase in
      emit (phase_exit cur metadata) ;;;
      modify (set_currentPhaseEntry None)
  | None => ret tt
  end.

(** [new LifecycleController(sessionId?)]: the controller built and the
    world after the construction. *)
Definition new_LifecycleController (sid : option UniqueId) (w : World)
  : LifecycleController * World :=
  let '(sessionId, w) := match sid with
                         | Some i => (i, w)
                         | None => (createUniqueId (draw w).1, (draw w).2)
                         end in
  let '(startedAt, w) := tick w in
  let this :=
    {| sessionId := sessionId; currentPhase := IDLE;
       previousPhase := None; stepNumber := 0; phaseHistory := [];
       startedAt := startedAt; lastTransitionAt := startedAt;
       currentPhaseEntry := None; emitted := [] |} in
  let '(_, this, w) := enterPhase IDLE "Session initialized" [] this w in
  (this, w).

Definition createLifecycle (sid : option UniqueId) (w : World)
  : LifecycleController * World :=
  new_LifecycleController sid w.

Definition transition (targetPhase : AgentPhase) (why : string)
    (data : JsRecord) : M LifecycleController unit :=
  let* terminal := gets isTerminal in
  if terminal then
    let* cur := gets currentPhase in
    let error :=
      {| le_code := "TERMINAL_STATE";
         le_message := "Cannot transition from terminal state '"
                       +:+ AgentPhase_value cur +:+ "'";
         le_phase := cur;
         le_attemptedTransition := Some targetPhase |} in
    emit (error_ev error) ;;;
    throw (ErrorObj (le_message error))
  else
  let* can := gets (fun c => canTransition c targetPhase) in
  if negb can then
    let* cur := gets currentPhase in
    let error :=
      {| le_code := "INVALID_TRANSITION";
         le_message := "Invalid transition: '" +:+ AgentPhase_value cur
                       +:+ "' → '" +:+ AgentPhase_value targetPhase +:+ "'";
         le_phase := cur;
         le_attemptedTransition := Some targetPhase |} in
    emit (error_ev error) ;;;
    throw (ErrorObj (le_message error))
  else
  exitPhase ;;;
  modify (fun c => set_previousPhase (Some (currentPhase c)) c) ;;;
  modify (set_currentPhase targetPhase) ;;;
  let* now := createTimestamp None in
  modify (set_lastTransitionAt now) ;;;
  (if decide (targetPhase ≠ SUSPENDED)
   then modify (fun c => set_stepNumber (stepNumber c + 1) c)
   else ret tt) ;;;
  let* prev := gets previousPhase in
  let* cur := gets currentPhase in
  emit (transition_ev (default cur prev) cur why) ;;;
  enterPhase targetPhase why data.

Definition fail (why : string) : M LifecycleController unit :=
  let* terminal := gets isTerminal in
  if terminal then ret tt
  else
  exitPhase ;;;
  modify (fun c => set_previousPhase (Some (currentPhase c)) c) ;;;
  modify (set_currentPhase FAILED) ;;;
  let* now := createTimestamp None in
  modify (set_lastTransitionAt now) ;;;
  let* prev := gets previousPhase in
  let* cur := gets currentPhase in
  emit (transition_ev (default cur prev) FAILED why) ;;;
  enterPhase FAILED why [("forced", JBool true)].

Definition complete (why : string) : M LifecycleController unit :=
  let* can := gets (fun c => canTransition c COMPLETE) in
  if negb can then
    let* cur := gets currentPhase in
    throw (ErrorObj ("Cannot complete from phase '"
                     +:+ AgentPhase_value cur +:+ "'"))
  else transition COMPLETE why [].

Definition suspend (why : string) : M LifecycleController unit :=
  let* can := gets (fun c => canTransition c SUSPENDED) in
  if negb can then
    let* cur := gets currentPhase in
    throw (ErrorObj ("Cannot suspend from phase '"
                     +:+ AgentPhase_value cur +:+ "'"))
  else transition SUSPENDED why [].

Definition resume (why : string) : M LifecycleController unit :=
  let* cur := gets currentPhase in
  if decide (cur ≠ SUSPENDED) then
    throw (ErrorObj "Can only resume from SUSPENDED state")
  else transition PLANNING why [].

(** The public mutating API, as calls a client can make in any order. *)
Inductive Call :=
| call_transition (targetPhase : AgentPhase) (why : string) (data : JsRecord)
| call_fail (why : string)
| call_complete (why : string)
| call_suspend (why : string)
| call_resume (why : string).

Definition perform (k : Call) : M LifecycleController unit :=
  match k with
  | call_transition t r d => transition t r d
  | call_fail r => fail r
  | call_complete r => complete r
  | call_suspend r => suspend r
  | call_resume r => resume r
  end.

(** A client running a list of calls, carrying on after a thrown error. *)
Fixpoint perform_all (ks : list Call) (c : LifecycleController) (w : World)
  : LifecycleController * World :=
  match ks with
  | [] => (c, w)
  | k :: rest =>
      match perform k c w with
      | (_, c', w') => perform_all rest c' w'
      end
  end.

(** The states a controller can be in: built by the constructor, then
    driven through its public methods. *)
Definition reachable (c : LifecycleController) : Prop :=
  ∃ sid w ks,
    c = (perform_all ks (new_LifecycleController sid w).1
                        (new_LifecycleController sid w).2).1.

(** The table of section 4.1 of the specification, row by row:
    the phases that may follow each phase. *)
Definition spec_allowed (p : AgentPhase) : list AgentPhase :=
  match p with
  | IDLE => [PLANNING; SUSPENDED]
  | PLANNING => [ACTING; REFLECTING; FAILED; SUSPENDED]
  | ACTING => [OBSERVING; FAILED; SUSPENDED]
  | OBSERVING => [REFLECTING; FAILED; SUSPENDED]
  | REFLECTING => [PLANNING; COMPLETE; FAILED; SUSPENDED]
  | SUSPENDED => [PLANNING; FAILED]
  | COMPLETE => []
  | FAILED => []
  end.

End Lifecycle.

(** ** Context manager ([src/mcp/context-manager.ts]) *)

Module ContextManager.

Record CreateContextOptions := {
  co_sessionId : UniqueId;
  co_intent : UserIntent;
  co_workspace : WorkspaceMetadata;
  co_memoryRefs : option (list MemoryReference);
  co_constraints : option (list ExecutionConstraint);
}.

(** [Partial<WorkspaceMetadata>]: every field may be missing; a field
    whose type admits [null] may also be given as [null] (the inner
    [None]). *)
Record PartialWorkspace := {
  p_rootPath : option string;
  p_projectType : option (option string);
  p_frameworks : option (list string);
  p_activeFile : option (option string);
  p_selection : option (option TextRange);
  p_gitBranch : option (option string);
  p_hasUncommittedChanges : option bool;
  p_scannedAt : option Timestamp;
}.

(** [plan?: ExecutionPlan | null]: [None] is [undefined], [Some None] is
    [null]. *)
Record UpdateContextOptions := {
  u_memoryRefs : option (list MemoryReference);
  addResults : option (list ToolResult);
  addFacts : option (list ContextFact);
  addConstraints : option (list ExecutionConstraint);
  plan : option (option ExecutionPlan);
  u_workspace : option PartialWorkspace;
}.

(** The update [{}]. *)
Definition no_updates : UpdateContextOptions :=
  {| u_memoryRefs := None; addResults := None; addFacts := None;
     addConstraints := None; plan := None; u_workspace := None |}.

(** The private fields of [ContextManager].  A history array holds
    references to the contexts, oldest first. *)
Record ContextManager := {
  maxRecentResults : Z;
  history : gmap UniqueId (list ContextRef);
}.

(** [new ContextManager(options = {})] *)
Definition new_ContextManager (opt_maxRecentResults : option Z)
  : ContextManager :=
  {| maxRecentResults := nullish opt_maxRecentResults 10;
     history := ∅ |}.

Definition set_history (h : gmap UniqueId (list ContextRef))
    (m : ContextManager) : ContextManager :=
  {| maxRecentResults := maxRecentResults m; history := h |}.

(** [Array.prototype.slice(start)] for an integer [start]: a negative
    [start] counts from the end, and the result runs to the end of the
    array. *)
Definition Array_slice {A} (l : list A) (start : Z) : list A :=
  let len := Z.of_nat (length l) in
  let k := if start <? 0 then Z.max (len + start) 0 else Z.min start len in
  drop (Z.to_nat k) l.

Definition mergeResults (this : ContextManager)
    (existing additions : list ToolResult) : list ToolResult :=
  let combined := existing ++ additions in
  if Z.of_nat (length combined) >? maxRecentResults this
  then Array_slice combined (- maxRecentResults this)
  else combined.

Definition mergeFacts (existing additions : list ContextFact)
  : list ContextFact :=
  let factMap : JsMap.t string ContextFact := JsMap.empty in
  let factMap := JsMap.set_all statement factMap existing in
  let factMap := JsMap.set_all statement factMap additions in
  JsMap.values factMap.

Definition mergeConstraints (existing additions : list ExecutionConstraint)
  : list ExecutionConstraint :=
  let constraintMap : JsMap.t UniqueId ExecutionConstraint := JsMap.empty in
  let constraintMap := JsMap.set_all ec_id constraintMap existing in
  let constraintMap := JsMap.set_all ec_id constraintMap additions in
  JsMap.values constraintMap.

(** [u ?? e] where the field itself may hold [null]: a [null] update
    falls through to the existing value like a missing one. *)
Definition nullish_field {A} (u : option (option A)) (e : option A)
  : option A :=
  match u with
  | Some (Some v) => Some v
  | _ => e
  end.

Definition mergeWorkspace (existing : WorkspaceMetadata)
    (updates : PartialWorkspace) : WorkspaceMetadata :=
  {| rootPath := nullish (p_rootPath updates) (rootPath existing);
     projectType := nullish_field (p_projectType updates) (projectType existing);
     frameworks := nullish (p_frameworks updates) (frameworks existing);
     activeFile := nullish_field (p_activeFile updates) (activeFile existing);
     selection := nullish_field (p_selection updates) (selection existing);
     gitBranch := nullish_field (p_gitBranch updates) (gitBranch existing);
     hasUncommittedChanges :=
       nullish (p_hasUncommittedChanges updates)
               (hasUncommittedChanges existing);
     scannedAt := nullish (p_scannedAt updates) (scannedAt existing) |}.

Definition initializeHistory (sessionId : UniqueId) (context : ContextRef)
  : M ContextManager unit :=
  modify (fun m => set_history (<[sessionId := [context]]> (history m)) m).

Definition recordHistory (sessionId : UniqueId) (context : ContextRef)
  : M ContextManager unit :=
  let* sessionHistory := gets (fun m => history m !! sessionId) in
  match sessionHistory with
  | Some sessionHistory =>
      modify (fun m =>
        set_history (<[sessionId := sessionHistory ++ [context]]> (history m)) m)
  | None =>
      modify (fun m => set_history (<[sessionId := [context]]> (history m)) m)
  end.

Definition create (options : CreateContextOptions)
  : M ContextManager ContextRef :=
  let* now := createTimestamp None in
  let* u := uuidv4 in
  let contextId := createUniqueId u in
  let* context := new_context
    {| id := contextId;
       ctx_sessionId := co_sessionId options;
       version := 1;
       intent := co_intent options;
       workspace := co_workspace options;
       memoryRefs := nullish (co_memoryRefs options) [];
       recentResults := [];
       activePlan := None;
       facts := [];
       constraints := nullish (co_constraints options) [];
       createdAt := now;
       updatedAt := now |} in
  initializeHistory (co_sessionId options) context ;;;
  ret context.

Definition update (current_ref : ContextRef) (updates : UpdateContextOptions)
  : M ContextManager ContextRef :=
  let* current := deref current_ref in
  let* now := createTimestamp None in
  let* u := uuidv4 in
  let newContextId := createUniqueId u in
  let* this := gets (fun m => m) in
  let mergedResults :=
    mergeResults this (recentResults current) (nullish (addResults updates) []) in
  let mergedFacts :=
    mergeFacts (facts current) (nullish (addFacts updates) []) in
  let mergedConstraints :=
    mergeConstraints (constraints current)
                     (nullish (addConstraints updates) []) in
  let updatedWorkspace :=
    match u_workspace updates with
    | Some ws => mergeWorkspace (workspace current) ws
    | None => workspace current
    end in
  let* updated := new_context
    {| id := newContextId;
       ctx_sessionId := ctx_sessionId current;
       version := version current + 1;
       intent := intent current;
       workspace := updatedWorkspace;
       memoryRefs := nullish (u_memoryRefs updates) (memoryRefs current);
       recentResults := mergedResults;
       activePlan := match plan updates with
                     | Some p => p
                     | None => activePlan current
                     end;
       facts := mergedFacts;
       constraints := mergedConstraints;
       createdAt := createdAt current;
       updatedAt := now |} in
  recordHistory (ctx_sessionId current) updated ;;;
  ret updated.

Definition getHistory (this : ContextManager) (sessionId : UniqueId)
  : list ContextRef :=
  nullish (history this !! sessionId) [].

(** The uuid source will not hand out [i] again: no future draw
    returns it. *)
Definition uuid_fresh (w : World) (i : UniqueId) : Prop :=
  ∀ k : nat, (draws w ≤ k)%nat → uuids w k ≠ i.

(** [getVersion(sessionId, version)]: the first context of the session's
    history with that version number. *)
Definition getVersion (this : ContextManager) (w : World)
    (sessionId : UniqueId) (v : Z) : option ContextRef :=
  match history this !! sessionId with
  | None => None
  | Some sessionHistory =>
      List.find (fun ctx => match heap w !! ctx with
                            | Some c => bool_decide (version c = v)
                            | None => false
                            end)
                sessionHistory
  end.

Definition clearHistory (sessionId : UniqueId) : M ContextManager unit :=
  modify (fun m => set_history (delete sessionId (history m)) m).

Definition FactCategory_value (c : FactCategory) : string :=
  match c with
  | CODE_STRUCTURE => "CODE_STRUCTURE" | DEPENDENCY => "DEPENDENCY"
  | USER_PREFERENCE => "USER_PREFERENCE" | SYSTEM_STATE => "SYSTEM_STATE"
  | ERROR_PATTERN => "ERROR_PATTERN" | DISCOVERY => "DISCOVERY"
  | VALIDATION => "VALIDATION"
  end.

#[global] Instance FactCategory_eq_dec : EqDecision FactCategory.
Proof. solve_decision. Defined.

(** [queryFacts(context, category?)] *)
Definition queryFacts (context : MCPContext) (category_filter : option string)
  : list ContextFact :=
  match category_filter with
  | None => facts context
  | Some wanted =>
      filter (fun fact => FactCategory_value (category fact) = wanted)
             (facts context)
  end.

(** [findApplicableConstraints(context, _operationType)] *)
Definition findApplicableConstraints (context : MCPContext)
    (_operationType : string) : list ExecutionConstraint :=
  filter (fun c => mandatory c = true) (constraints context).

End ContextManager.

(** ** Tool registry ([src/mcp/tool-registry.ts], [src/types/tools.types.ts]) *)

Module ToolRegistry.

Inductive ToolCategory :=
| FILESYSTEM | EXECUTION | ANALYSIS | VERSION_CONTROL | SEARCH
| EXTERNAL | MEMORY | UTILITY.

#[global] Instance ToolCategory_eq_dec : EqDecision ToolCategory.
Proof. solve_decision. Defined.

Definition ToolCategory_value (c : ToolCategory) : string :=
  match c with
  | FILESYSTEM => "FILESYSTEM" | EXECUTION => "EXECUTION"
  | ANALYSIS => "ANALYSIS" | VERSION_CONTROL => "VERSION_CONTROL"
  | SEARCH => "SEARCH" | EXTERNAL => "EXTERNAL" | MEMORY => "MEMORY"
  | UTILITY => "UTILITY"
  end.

Inductive ToolPermission :=
| FILE_READ | FILE_WRITE | FILE_DELETE | SHELL_EXECUTE | NETWORK_ACCESS
| GIT_WRITE | ENV_ACCESS.

#[global] Instance ToolPermission_eq_dec : EqDecision ToolPermission.
Proof. solve_decision. Defined.

Definition ToolPermission_value (p : ToolPermission) : string :=
  match p with
  | FILE_READ => "FILE_READ" | FILE_WRITE => "FILE_WRITE"
  | FILE_DELETE => "FILE_DELETE" | SHELL_EXECUTE => "SHELL_EXECUTE"
  | NETWORK_ACCESS => "NETWORK_ACCESS" | GIT_WRITE => "GIT_WRITE"
  | ENV_ACCESS => "ENV_ACCESS"
  end.

Record ValidationError := {
  ve_field : string;
  ve_message : string;
  ve_code : string;
}.

Record ValidationWarning := {
  vw_field : string;
  vw_message : string;
  vw_suggestion : string;
}.

Record ValidationResult := {
  vr_valid : bool;
  errors : list ValidationError;
  warnings : list ValidationWarning;
}.

Definition validationSuccess : ValidationResult :=
  {| vr_valid := true; errors := []; warnings := [] |}.

Record MCPSchema := {
  sc_id : string;
  sc_version : string;
  schema : JsRecord;
  sc_description : string;
  examples : list Json;
}.

(** The abort signal and the logger of the source are objects the
    registry only hands over; they are left out. *)
Record ToolExecutionContext := {
  mcpContext : ContextRef;
  executionId : UniqueId;
  workspaceRoot : string;
  allowedPaths : list string;
  dryRun : bool;
}.

(** What becomes of a call of [execute]: the promise it returns is
    fulfilled or rejected [after] milliseconds ([0] when it settles
    without waiting), or never settles, or the call itself throws. *)
Inductive Settlement :=
| resolves (after : Z) (result : ToolResult)
| rejects (after : Z) (error : Thrown)
| throws (error : Thrown)
| never_settles.

Record ToolDefinition := {
  td_id : string;
  name : string;
  td_description : string;
  td_category : ToolCategory;
  inputSchema : MCPSchema;
  outputSchema : MCPSchema;
  permissions : list ToolPermission;
  hasSideEffects : bool;
  idempotent : bool;
  estimatedDurationMs : Z;
  execute : Json -> ToolExecutionContext -> World -> Settlement;
  validate : option (Json -> ContextRef -> World -> Result ValidationResult);
  td_version : string;
}.

Record ToolRegistryEntry := {
  definition : ToolDefinition;
  registeredAt : Timestamp;
  enabled : bool;
  invocationCount : Z;
  lastInvokedAt : option Timestamp;
  averageDurationMs : Qc;
}.

Record ToolInvocationRequest := {
  toolId : string;
  input : Json;
  context : ContextRef;
  timeoutMs : option Z;
  skipValidation : option bool;
}.

Record ToolRegistryConfig := {
  defaultTimeoutMs : Z;
  strictValidation : bool;
  allowedCategories : list ToolCategory;
  grantedPermissions : list ToolPermission;
}.

Definition DEFAULT_REGISTRY_CONFIG : ToolRegistryConfig :=
  {| defaultTimeoutMs := 30000;
     strictValidation := true;
     allowedCategories := [];
     grantedPermissions := [] |}.

Inductive ToolRegistryEvent :=
| tool_registered (entry : ToolRegistryEntry)
| tool_unregistered (toolId : string)
| tool_invoked (toolId : string) (executionId : UniqueId)
| tool_completed (toolId : string) (executionId : UniqueId)
    (result : ToolResult)
| tool_failed (toolId : string) (executionId : UniqueId)
    (error : option ToolError).

(** The private fields of [ToolRegistry], and the log of the emitter it
    extends (latest event first). *)
Record ToolRegistry := {
  tools : gmap string ToolRegistryEntry;
  config : ToolRegistryConfig;
  emitted : list ToolRegistryEvent;
}.

(** [new ToolRegistry(config)] with a complete configuration. *)
Definition new_ToolRegistry (config : ToolRegistryConfig) : ToolRegistry :=
  {| tools := ∅; config := config; emitted := [] |}.

Definition set_tools (t : gmap string ToolRegistryEntry) (r : ToolRegistry)
  : ToolRegistry :=
  {| tools := t; config := config r; emitted := emitted r |}.

Definition emit (e : ToolRegistryEvent) : M ToolRegistry unit :=
  modify (fun r =>
    {| tools := tools r; config := config r; emitted := e :: emitted r |}).

(** [Array.prototype.join(sep)] on strings. *)
Fixpoint join (sep : string) (l : list string) : string :=
  match l with
  | [] => ""
  | [x] => x
  | x :: rest => x +:+ sep +:+ join sep rest
  end.

Definition register (definition : ToolDefinition) : M ToolRegistry unit :=
  let* present := gets (fun r => bool_decide (is_Some (tools r !! td_id definition))) in
  if present then
    throw (ErrorObj ("Tool with ID '" +:+ td_id definition
                     +:+ "' is already registered"))
  else
  let* allowed := gets (fun r => allowedCategories (config r)) in
  if (0 <? Z.of_nat (length allowed))
     && negb (bool_decide (td_category definition ∈ allowed)) then
    throw (ErrorObj ("Tool category '"
                     +:+ ToolCategory_value (td_category definition)
                     +:+ "' is not allowed. " +:+ "Allowed categories: "
                     +:+ join ", " (ToolCategory_value <$> allowed)))
  else
  let* now := createTimestamp None in
  let entry :=
    {| definition := definition; registeredAt := now; enabled := true;
       invocationCount := 0; lastInvokedAt := None;
       averageDurationMs := 0%Qc |} in
  modify (fun r => set_tools (<[td_id definition := entry]> (tools r)) r) ;;;
  emit (tool_registered entry).

Definition unregister (toolId : string) : M ToolRegistry bool :=
  let* existed := gets (fun r => bool_decide (is_Some (tools r !! toolId))) in
  modify (fun r => set_tools (delete toolId (tools r)) r) ;;;
  (if existed then emit (tool_unregistered toolId) else ret tt) ;;;
  ret existed.

Definition has (this : ToolRegistry) (toolId : string) : bool :=
  match tools this !! toolId with
  | Some entry => enabled entry
  | None => false
  end.

Definition setEnabled (toolId : string) (value : bool) : M ToolRegistry unit :=
  let* entry := gets (fun r => tools r !! toolId) in
  match entry with
  | Some entry =>
      modify (fun r => set_tools (<[toolId :=
        {| definition := definition entry;
           registeredAt := registeredAt entry;
           enabled := value;
           invocationCount := invocationCount entry;
           lastInvokedAt := lastInvokedAt entry;
           averageDurationMs := averageDurationMs entry |}]> (tools r)) r)
  | None => ret tt
  end.

Definition getMetrics (this : ToolRegistry) (toolId : string)
  : option ToolRegistryEntry :=
  tools this !! toolId.

Record PermissionCheck := {
  pc_valid : bool;
  missing : list ToolPermission;
}.

Definition checkPermissions (this : ToolRegistry)
    (required : list ToolPermission) : PermissionCheck :=
  let missing :=
    foldl (fun missing permission =>
             if negb (bool_decide (permission ∈ grantedPermissions (config this)))
             then missing ++ [permission]
             else missing)
          [] required in
  {| pc_valid := bool_decide (length missing = 0%nat); missing := missing |}.

Definition validateInput (definition : ToolDefinition) (input : Json)
    (context : ContextRef) : M ToolRegistry ValidationResult :=
  match validate definition with
  | Some validator =>
      let* r := external (call_validate (td_id definition) input)
                         (validator input context) in
      await r
  | None => ret validationSuccess
  end.

Definition createExecutionContext (executionId : UniqueId)
    (mcpContext : ContextRef) : M ToolRegistry ToolExecutionContext :=
  let* c := deref mcpContext in
  ret {| mcpContext := mcpContext;
         executionId := executionId;
         workspaceRoot := rootPath (workspace c);
         allowedPaths := [rootPath (workspace c)];
         dryRun := false |}.

(** The largest delay of a timer of Node, [2^31 - 1] milliseconds. *)
Definition TIMEOUT_MAX : Z := 2147483647.

(** [setTimeout(callback, delay)] of Node, by the delay the timer is
    armed with: a delay below 1 or above [TIMEOUT_MAX] is set to 1. *)
Definition setTimeout (delay : Z) : Z :=
  if (1 <=? delay) && (delay <=? TIMEOUT_MAX) then delay else 1.

#[global] Arguments setTimeout : simpl never.

(** The race between the promise of [execute] and the timer, which is
    armed first: the tool wins when it settles without waiting or before
    the delay of the timer has elapsed; at equal times the timer fires
    first. *)
Definition executeWithTimeout (definition : ToolDefinition) (input : Json)
    (context : ToolExecutionContext) (timeoutMs : Z)
  : M ToolRegistry ToolResult :=
  let timed_out :=
    ErrorObj ("Tool execution timed out after " +:+ pretty timeoutMs +:+ "ms") in
  let timer := setTimeout timeoutMs in
  let* outcome := external (call_execute (td_id definition) input)
                           (execute definition input context) in
  match outcome with
  | resolves after result =>
      if (after <=? 0) || (after <? timer) then ret result
      else throw timed_out
  | rejects after error =>
      if (after <=? 0) || (after <? timer) then throw error
      else throw timed_out
  | throws error => throw error
  | never_settles => throw timed_out
  end.

Definition createErrorResult (executionId : UniqueId) (toolId code message : string)
    (recoverable : bool) (durationMs : Z) : M ToolRegistry ToolResult :=
  let* completedAt := createTimestamp None in
  ret {| tr_id := executionId;
         tr_toolId := toolId;
         tr_success := false;
         tr_data := None;
         tr_error := Some {| te_code := code; te_message := message;
                             te_recoverable := recoverable;
                             te_suggestions := [] |};
         tr_durationMs := durationMs;
         tr_completedAt := completedAt |}.

Definition updateMetrics (entry : ToolRegistryEntry) (durationMs : Z)
  : M ToolRegistry unit :=
  let newCount := invocationCount entry + 1 in
  let newAverage :=
    ((averageDurationMs entry * Q2Qc (inject_Z (invocationCount entry))
      + Q2Qc (inject_Z durationMs)) / Q2Qc (inject_Z newCount))%Qc in
  let* now := createTimestamp None in
  modify (fun r => set_tools (<[td_id (definition entry) :=
    {| definition := definition entry;
       registeredAt := registeredAt entry;
       enabled := enabled entry;
       invocationCount := newCount;
       lastInvokedAt := Some now;
       averageDurationMs := newAverage |}]> (tools r)) r).

Definition invoke (request : ToolInvocationRequest)
  : M ToolRegistry ToolResult :=
  let* u := uuidv4 in
  let executionId := createUniqueId u in
  let* startTime := Date_now in
  let* entry := gets (fun r => tools r !! toolId request) in
  match entry with
  | None =>
      let* t := Date_now in
      createErrorResult executionId (toolId request) "TOOL_NOT_FOUND"
        ("Tool '" +:+ toolId request +:+ "' is not registered")
        false (t - startTime)
  | Some entry =>
  if negb (enabled entry) then
    let* t := Date_now in
    createErrorResult executionId (toolId request) "TOOL_DISABLED"
      ("Tool '" +:+ toolId request +:+ "' is currently disabled")
      true (t - startTime)
  else
  let definition := definition entry in
  let* this := gets (fun r => r) in
  let permissionCheck := checkPermissions this (permissions definition) in
  if negb (pc_valid permissionCheck) then
    let* t := Date_now in
    createErrorResult executionId (toolId request) "PERMISSION_DENIED"
      ("Missing permissions: "
       +:+ join ", " (ToolPermission_value <$> missing permissionCheck))
      false (t - startTime)
  else
  let* rejected :=
    (if bool_decide (skipValidation request ≠ Some true) then
       let* validation :=
         validateInput definition (input request) (context request) in
       if negb (vr_valid validation) then
         let* t := Date_now in
         let* r := createErrorResult executionId (toolId request)
                     "VALIDATION_FAILED"
                     ("Input validation failed: "
                      +:+ join ", " (ve_message <$> errors validation))
                     true (t - startTime) in
         ret (Some r)
       else ret None
     else ret None) in
  match rejected with
  | Some r => ret r
  | None =>
  let* execContext := createExecutionContext executionId (context request) in
  emit (tool_invoked (toolId request) executionId) ;;;
  let* defaultTimeout := gets (fun r => defaultTimeoutMs (config r)) in
  let timeoutMs := nullish (timeoutMs request) defaultTimeout in
  try_catch
    (let* result :=
       executeWithTimeout definition (input request) execContext timeoutMs in
     let* t := Date_now in
     updateMetrics entry (t - startTime) ;;;
     emit (tool_completed (toolId request) executionId result) ;;;
     ret result)
    (fun error =>
       let* t := Date_now in
       let duration := t - startTime in
       let* errorResult :=
         createErrorResult executionId (toolId request) "EXECUTION_ERROR"
           (error_message error) true duration in
       emit (tool_failed (toolId request) executionId (tr_error errorResult)) ;;;
       ret errorResult)
  end
  end.

(** [get(toolId)]: [entry?.definition ?? null] *)
Definition get (this : ToolRegistry) (toolId : string)
  : option ToolDefinition :=
  definition <$> tools this !! toolId.

End ToolRegistry.

(** ** Decision loop ([src/agent/decision-loop.ts]) *)

Module DecisionLoop.
Import Lifecycle ContextManager ToolRegistry.

Inductive AdjustmentType :=
| add_constraint | modify_plan | retry_action | skip_action.

Record ReflectionAdjustment := {
  ra_type : AdjustmentType;
  ra_description : string;
  ra_data : JsRecord;
}.

Record ReflectionResult := {
  shouldContinue : bool;
  isSuccess : bool;
  rr_reason : string;
  adjustments : list ReflectionAdjustment;
}.

(** The strategies are asynchronous functions supplied by the client:
    given their arguments and the world at the call, the promise they
    return is fulfilled or rejected. *)
Definition Planner := ContextRef -> World -> Result ExecutionPlan.
Definition Reflector :=
  ContextRef -> list AgentStep -> World -> Result ReflectionResult.

(** [DecisionLoopConfig extends AgentConfig] *)
Record DecisionLoopConfig := {
  maxSteps : Z;
  toolTimeoutMs : Z;
  sessionTimeoutMs : Z;
  verbose : bool;
  cfg_dryRun : bool;
  allowedToolCategories : list string;
  forbiddenPaths : list string;
  planner : Planner;
  reflector : Reflector;
}.

Record LoopResult := {
  lr_sessionId : UniqueId;
  success : bool;
  lr_steps : list AgentStep;
  finalContext : option ContextRef;
  duration : Z;
  lr_reason : string;
}.

Inductive DecisionLoopEvent :=
| loop_start (sessionId : UniqueId) (intent : UserIntent)
| loop_step (step : AgentStep)
| loop_complete (sessionId : UniqueId) (steps : list AgentStep)
| loop_failed (sessionId : UniqueId) (why : string) (steps : list AgentStep)
| loop_suspended (sessionId : UniqueId)
| planning_start (stepNumber : Z)
| planning_complete (plan : ExecutionPlan)
| action_start (action : PlannedAction)
| action_complete (action : PlannedAction) (result : ToolResult)
| reflection_start (stepNumber : Z)
| reflection_complete (shouldContinue : bool) (why : string).

(** The private fields of [DecisionLoop] and the log of its emitter.
    The registry handed to the constructor is held in [toolRegistry]. *)
Record DecisionLoop := {
  config : DecisionLoopConfig;
  toolRegistry : ToolRegistry;
  contextManager : ContextManager;
  lifecycle : option LifecycleController;
  context : option ContextRef;
  steps : list AgentStep;
  isRunning : bool;
  emitted : list DecisionLoopEvent;
}.

(** [new DecisionLoop(config, toolRegistry)] *)
Definition new_DecisionLoop (config : DecisionLoopConfig)
    (toolRegistry : ToolRegistry) : DecisionLoop :=
  {| config := config; toolRegistry := toolRegistry;
     contextManager := new_ContextManager None;
     lifecycle := None; context := None; steps := []; isRunning := false;
     emitted := [] |}.

Definition set_toolRegistry v (d : DecisionLoop) :=
  {| config := config d; toolRegistry := v;
     contextManager := contextManager d; lifecycle := lifecycle d;
     context := context d; steps := steps d; isRunning := isRunning d;
     emitted := emitted d |}.
Definition set_contextManager v (d : DecisionLoop) :=
  {| config := config d; toolRegistry := toolRegistry d;
     contextManager := v; lifecycle := lifecycle d;
     context := context d; steps := steps d; isRunning := isRunning d;
     emitted := emitted d |}.
Definition set_lifecycle v (d : DecisionLoop) :=
  {| config := config d; toolRegistry := toolRegistry d;
     contextManager := contextManager d; lifecycle := v;
     context := context d; steps := steps d; isRunning := isRunning d;
     emitted := emitted d |}.
Definition set_context v (d : DecisionLoop) :=
  {| config := config d; toolRegistry := toolRegistry d;
     contextManager := contextManager d; lifecycle := lifecycle d;
     context := v; steps := steps d; isRunning := isRunning d;
     emitted := emitted d |}.
Definition set_steps v (d : DecisionLoop) :=
  {| config := config d; toolRegistry := toolRegistry d;
     contextManager := contextManager d; lifecycle := lifecycle d;
     context := context d; steps := v; isRunning := isRunning d;
     emitted := emitted d |}.
Definition set_isRunning v (d : DecisionLoop) :=
  {| config := config d; toolRegistry := toolRegistry d;
     contextManager := contextManager d; lifecycle := lifecycle d;
     context := context d; steps := steps d; isRunning := v;
     emitted := emitted d |}.

Definition emit (e : DecisionLoopEvent) : M DecisionLoop unit :=
  modify (fun d =>
    {| config := config d; toolRegistry := toolRegistry d;
       contextManager := contextManager d; lifecycle := lifecycle d;
       context := context d; steps := steps d; isRunning := isRunning d;
       emitted := e :: emitted d |}).

(** A method call on [this.lifecycle]; on [null] the call is a
    [TypeError]. *)
Definition on_lifecycle {A} (m : M LifecycleController A) : M DecisionLoop A :=
  fun d w =>
    match lifecycle d with
    | Some lc =>
        match m lc w with
        | (r, lc', w') => (r, set_lifecycle (Some lc') d, w')
        end
    | None =>
        (Throw (ErrorObj "Cannot read properties of null"), d, w)
    end.

(** [this.lifecycle?.m(...)] *)
Definition on_lifecycle_if_any (m : M LifecycleController unit)
  : M DecisionLoop unit :=
  fun d w =>
    match lifecycle d with
    | Some lc =>
        match m lc w with
        | (r, lc', w') => (r, set_lifecycle (Some lc') d, w')
        end
    | None => (Ok tt, d, w)
    end.

Definition on_contextManager {A} (m : M ContextManager A) : M DecisionLoop A :=
  zoom contextManager set_contextManager m.

Definition on_toolRegistry {A} (m : M ToolRegistry A) : M DecisionLoop A :=
  zoom toolRegistry set_toolRegistry m.

Definition setupLifecycleEvents : M DecisionLoop unit := ret tt.

Definition createStep (stepNumber : Z) (phase : AgentPhase)
    (description : string) (reasoning : option string)
    (toolInvocation : option ToolInvocation) (result : option ToolResult)
    (outcome : ActionOutcome) (startedAt : Timestamp)
  : M DecisionLoop AgentStep :=
  let* completedAt := createTimestamp None in
  let* u := uuidv4 in
  ret {| as_id := createUniqueId u;
         as_stepNumber := stepNumber;
         as_phase := phase;
         as_description := description;
         as_reasoning := reasoning;
         as_toolInvocation := toolInvocation;
         as_result := result;
         as_outcome := outcome;
         as_durationMs := completedAt - startedAt;
         as_startedAt := startedAt;
         as_completedAt := completedAt |}.

Definition createResult (sessionId : UniqueId) (success : bool)
    (why : string) (startTime : Z) : M DecisionLoop LoopResult :=
  let* steps := gets steps in
  let* context := gets context in
  let* t := Date_now in
  ret {| lr_sessionId := sessionId;
         success := success;
         lr_steps := steps;
         finalContext := context;
         duration := t - startTime;
         lr_reason := why |}.

Definition push_step (step : AgentStep) : M DecisionLoop unit :=
  modify (fun d => set_steps (steps d ++ [step]) d).

Definition executePlanningPhase : M DecisionLoop unit :=
  let* context := gets context in
  let* lifecycle := gets lifecycle in
  match context, lifecycle with
  | Some context, Some _ =>
      let* stepNumber := on_lifecycle (gets getStepNumber) in
      emit (planning_start stepNumber) ;;;
      let* stepStart := createTimestamp None in
      let* planner := gets (fun d => planner (config d)) in
      let* promise := external (call_planner context) (planner context) in
      let* plan := await promise in
      let* updated := on_contextManager (update context
        {| u_memoryRefs := None; addResults := None; addFacts := None;
           addConstraints := None; plan := Some (Some plan);
           u_workspace := None |}) in
      modify (set_context (Some updated)) ;;;
      let* step := createStep stepNumber PLANNING
        ("Created plan with " +:+ pretty (length (actions plan)) +:+ " actions")
        (Some (ep_description plan)) None None SUCCESS stepStart in
      push_step step ;;;
      emit (loop_step step) ;;;
      emit (planning_complete plan) ;;;
      on_lifecycle (transition ACTING "Plan created, beginning execution" [])
  | _, _ => ret tt
  end.

Definition is_pending (a : PlannedAction) : bool :=
  bool_decide (status a = PENDING).

Definition executeActingPhase : M DecisionLoop unit :=
  let* context := gets context in
  let* lifecycle := gets lifecycle in
  match context, lifecycle with
  | Some context, Some _ =>
  let* current := deref context in
  match activePlan current with
  | None => on_lifecycle (fail "No active plan")
  | Some plan =>
  match List.find is_pending (actions plan) with
  | None =>
      on_lifecycle (transition OBSERVING "All planned actions executed" [])
  | Some nextAction =>
  emit (action_start nextAction) ;;;
  let* stepStart := createTimestamp None in
  let* stepNumber := on_lifecycle (gets getStepNumber) in
  let invocation :=
    {| ti_toolId := pa_toolId nextAction;
       ti_parameters := expectedParameters nextAction;
       ti_rationale := pa_description nextAction |} in
  let* toolTimeoutMs := gets (fun d => toolTimeoutMs (config d)) in
  let* ro :=
    try_catch
      (let* result := on_toolRegistry (invoke
         {| toolId := pa_toolId nextAction;
            input := JObj (expectedParameters nextAction);
            ToolRegistry.context := context;
            timeoutMs := Some toolTimeoutMs;
            skipValidation := None |}) in
       ret (result, if tr_success result then SUCCESS else FAILURE))
      (fun error =>
         let* u := uuidv4 in
         let* t := Date_now in
         let* completedAt := createTimestamp None in
         ret ({| tr_id := createUniqueId u;
                 tr_toolId := pa_toolId nextAction;
                 tr_success := false;
                 tr_data := None;
                 tr_error := Some {| te_code := "EXECUTION_ERROR";
                                     te_message := error_message error;
                                     te_recoverable := true;
                                     te_suggestions := [] |};
                 tr_durationMs := t - stepStart;
                 tr_completedAt := completedAt |}, FAILURE)) in
  let result := ro.1 in
  let outcome := ro.2 in
  let* updated := on_contextManager (update context
    {| u_memoryRefs := None; addResults := Some [result]; addFacts := None;
       addConstraints := None; plan := None; u_workspace := None |}) in
  modify (set_context (Some updated)) ;;;
  let updatedActions :=
    (fun a =>
       if decide (pa_id a = pa_id nextAction)
       then {| pa_id := pa_id a; pa_index := pa_index a;
               pa_toolId := pa_toolId a;
               pa_description := pa_description a;
               expectedParameters := expectedParameters a;
               dependsOn := dependsOn a; priority := priority a;
               status := if tr_success result then COMPLETED
                         else STATUS_FAILED |}
       else a) <$> actions plan in
  let updatedPlan :=
    {| ep_id := ep_id plan; ep_description := ep_description plan;
       actions := updatedActions;
       currentIndex := currentIndex plan + 1;
       ep_confidence := ep_confidence plan;
       ep_createdAt := ep_createdAt plan; revision := revision plan |} in
  let* updated := on_contextManager (update updated
    {| u_memoryRefs := None; addResults := None; addFacts := None;
       addConstraints := None; plan := Some (Some updatedPlan);
       u_workspace := None |}) in
  modify (set_context (Some updated)) ;;;
  let* step := createStep stepNumber ACTING
    ("Executed " +:+ pa_toolId nextAction)
    (Some (pa_description nextAction)) (Some invocation) (Some result)
    outcome stepStart in
  push_step step ;;;
  emit (loop_step step) ;;;
  emit (action_complete nextAction result) ;;;
  let remainingActions := filter (fun a => status a = PENDING) updatedActions in
  if bool_decide (length remainingActions = 0%nat) || negb (tr_success result)
  then on_lifecycle (transition OBSERVING "Proceeding to observation" [])
  else ret tt
  end
  end
  | _, _ => ret tt
  end.

Definition executeObservingPhase : M DecisionLoop unit :=
  let* context := gets context in
  let* lifecycle := gets lifecycle in
  match context, lifecycle with
  | Some context, Some _ =>
      let* stepNumber := on_lifecycle (gets getStepNumber) in
      let* stepStart := createTimestamp None in
      let* current := deref context in
      let recentResults := recentResults current in
      let successCount := length (filter (fun r => tr_success r = true) recentResults) in
      let totalCount := length recentResults in
      let* step := createStep stepNumber OBSERVING
        ("Observed " +:+ pretty successCount +:+ "/" +:+ pretty totalCount
         +:+ " successful results")
        None None None SUCCESS stepStart in
      push_step step ;;;
      emit (loop_step step) ;;;
      on_lifecycle (transition REFLECTING "Results observed, reflecting" [])
  | _, _ => ret tt
  end.

Definition executeReflectingPhase : M DecisionLoop unit :=
  let* context := gets context in
  let* lifecycle := gets lifecycle in
  match context, lifecycle with
  | Some context, Some _ =>
      let* stepNumber := on_lifecycle (gets getStepNumber) in
      emit (reflection_start stepNumber) ;;;
      let* stepStart := createTimestamp None in
      let* reflector := gets (fun d => reflector (config d)) in
      let* steps := gets steps in
      let* promise := external (call_reflector context steps)
                               (reflector context steps) in
      let* reflection := await promise in
      emit (reflection_complete (shouldContinue reflection)
                                (rr_reason reflection)) ;;;
      let* step := createStep stepNumber REFLECTING (rr_reason reflection)
        (Some (if shouldContinue reflection then "Continuing execution"
               else "Terminating"))
        None None SUCCESS stepStart in
      push_step step ;;;
      emit (loop_step step) ;;;
      if negb (shouldContinue reflection) then
        if isSuccess reflection
        then on_lifecycle (complete (rr_reason reflection))
        else on_lifecycle (fail (rr_reason reflection))
      else
        on_lifecycle (transition PLANNING "Continuing with next iteration" [])
  | _, _ => ret tt
  end.

(** How the [while] statement of [run] is left: its condition became
    false or a [break] ran; a [return] inside it ran; or the model ran
    out of fuel before either. *)
Inductive LoopExit :=
| loop_done
| loop_return (r : LoopResult)
| out_of_fuel.

(** The [while] statement of [run]; [fuel] bounds the iterations. *)
Fixpoint main_loop (fuel : nat) (sessionId : UniqueId) (startTime : Z)
  : M DecisionLoop LoopExit :=
  match fuel with
  | O => ret out_of_fuel
  | S fuel =>
      let* running := gets isRunning in
      let* terminal :=
        if running then on_lifecycle (gets Lifecycle.isTerminal)
        else ret false in
      if running && negb terminal then
        let* stepNumber := on_lifecycle (gets getStepNumber) in
        let* maxSteps := gets (fun d => maxSteps (config d)) in
        if stepNumber >=? maxSteps then
          on_lifecycle (fail ("Exceeded maximum steps ("
                              +:+ pretty maxSteps +:+ ")")) ;;;
          ret loop_done
        else
          let* phase := on_lifecycle (gets getCurrentPhase) in
          match phase with
          | PLANNING =>
              executePlanningPhase ;;; main_loop fuel sessionId startTime
          | ACTING =>
              executeActingPhase ;;; main_loop fuel sessionId startTime
          | OBSERVING =>
              executeObservingPhase ;;; main_loop fuel sessionId startTime
          | REFLECTING =>
              executeReflectingPhase ;;; main_loop fuel sessionId startTime
          | SUSPENDED =>
              emit (loop_suspended sessionId) ;;;
              let* r := createResult sessionId false "Suspended" startTime in
              ret (loop_return r)
          | _ => main_loop fuel sessionId startTime
          end
      else ret loop_done
  end.

(** [run(intent, workspace)]; the result is [None] only when [fuel] did
    not suffice for the [while] statement. *)
Definition run (fuel : nat) (intent : UserIntent)
    (workspace : WorkspaceMetadata) : M DecisionLoop (option LoopResult) :=
  let* startTime := Date_now in
  let* u := uuidv4 in
  let sessionId := createUniqueId u in
  let* lc := lift (createLifecycle (Some sessionId)) in
  modify (set_lifecycle (Some lc)) ;;;
  modify (set_steps []) ;;;
  modify (set_isRunning true) ;;;
  let* created := on_contextManager (create
    {| co_sessionId := sessionId; co_intent := intent;
       co_workspace := workspace; co_memoryRefs := None;
       co_constraints := None |}) in
  modify (set_context (Some created)) ;;;
  setupLifecycleEvents ;;;
  emit (loop_start sessionId intent) ;;;
  try_finally
    (try_catch
       (on_lifecycle (transition PLANNING "Beginning task execution" []) ;;;
        let* exit := main_loop fuel sessionId startTime in
        match exit with
        | loop_return r => ret (Some r)
        | out_of_fuel => ret None
        | loop_done =>
            let* phase := on_lifecycle (gets getCurrentPhase) in
            let success := bool_decide (phase = COMPLETE) in
            let why := if success then "Task completed successfully"
                       else "Task failed" in
            let* steps := gets steps in
            (if success then emit (loop_complete sessionId steps)
             else emit (loop_failed sessionId why steps)) ;;;
            let* r := createResult sessionId success why startTime in
            ret (Some r)
        end)
       (fun error =>
          let why := error_message error in
          on_lifecycle_if_any (fail why) ;;;
          let* steps := gets steps in
          emit (loop_failed sessionId why steps) ;;;
          let* r := createResult sessionId false why startTime in
          ret (Some r)))
    (modify (set_isRunning false)).

Definition stop (why : string) : M DecisionLoop unit :=
  let* running := gets isRunning in
  let* lifecycle := gets lifecycle in
  match running, lifecycle with
  | true, Some _ =>
      modify (set_isRunning false) ;;;
      on_lifecycle (fail why)
  | _, _ => ret tt
  end.

Definition suspend (why : string) : M DecisionLoop unit :=
  let* running := gets isRunning in
  let* lifecycle := gets lifecycle in
  match running, lifecycle with
  | true, Some _ => on_lifecycle (Lifecycle.suspend why)
  | _, _ => ret tt
  end.

(** [getState()] *)
Record LoopState := {
  st_isRunning : bool;
  st_phase : option AgentPhase;
  st_stepNumber : Z;
  st_steps : list AgentStep;
}.

Definition getState (this : DecisionLoop) : LoopState :=
  {| st_isRunning := isRunning this;
     st_phase := getCurrentPhase <$> lifecycle this;
     st_stepNumber := nullish (getStepNumber <$> lifecycle this) 0;
     st_steps := steps this |}.

End DecisionLoop.

(** * Vocabulary of the statements

    The terms in which the properties below are stated, and the sample
    objects on which they are exercised. *)

(** ** Lifecycle controller *)

Module LifecycleSpec.
Import Lifecycle.

(** [c] after emitting [e]. *)
Definition with_emitted (e : LifecycleEvent) (c : LifecycleController)
  : LifecycleController :=
  {| sessionId := sessionId c; currentPhase := currentPhase c;
     previousPhase := previousPhase c; stepNumber := stepNumber c;
     phaseHistory := phaseHistory c; startedAt := startedAt c;
     lastTransitionAt := lastTransitionAt c;
     currentPhaseEntry := currentPhaseEntry c;
     emitted := e :: emitted c |}.

(** The error that [transition] reports for a pair outside the table. *)
Definition invalid_transition (p t : AgentPhase) : LifecycleError :=
  {| le_code := "INVALID_TRANSITION";
     le_message := "Invalid transition: '" +:+ AgentPhase_value p
                   +:+ "' → '" +:+ AgentPhase_value t +:+ "'";
     le_phase := p;
     le_attemptedTransition := Some t |}.

(** The error that [transition] reports from a terminal phase. *)
Definition terminal_state (p t : AgentPhase) : LifecycleError :=
  {| le_code := "TERMINAL_STATE";
     le_message := "Cannot transition from terminal state '"
                   +:+ AgentPhase_value p +:+ "'";
     le_phase := p;
     le_attemptedTransition := Some t |}.

(** A world to run the samples in: the clock starts at 1000 and advances
    by one at each reading, the k-th uuid is ["uuid-k"]. *)
Definition sample_world : World :=
  {| clock := fun k => 1000 + Z.of_nat k; ticks := 0;
     uuids := fun k => "uuid-" +:+ pretty k; draws := 0;
     calls := []; heap := [] |}.

(** A controller driven to COMPLETE, and the world at that point. *)
Definition completed_controller : LifecycleController * World :=
  let '(c0, w0) := new_LifecycleController None sample_world in
  perform_all [call_transition PLANNING "plan" [];
               call_transition REFLECTING "reflect" [];
               call_complete "done"] c0 w0.

(** The phases from which [suspend] is accepted. *)
Definition suspendable : list AgentPhase :=
  [IDLE; PLANNING; ACTING; OBSERVING; REFLECTING].

(** The claim as the specification words it: [suspend] succeeds from
    every phase that is not terminal. *)
Definition suspend_from_every_non_terminal : Prop :=
  ∀ (c : LifecycleController) (w : World) (why : string),
    isTerminal c = false →
    ∃ c' w', suspend why c w = (Ok tt, c', w') ∧ currentPhase c' = SUSPENDED.

(** A controller that was constructed and then suspended once. *)
Definition suspended_controller : LifecycleController * World :=
  let '(c0, w0) := new_LifecycleController None sample_world in
  perform_all [call_suspend "pause"] c0 w0.


End LifecycleSpec.

(** ** Context manager *)

Module ContextManagerSpec.
Import ContextManager.

(** The world after one reading of the clock, one uuid and the
    allocation of [c']. *)
Definition after_update (w : World) (c' : MCPContext) : World :=
  {| clock := clock w; ticks := S (ticks w); uuids := uuids w;
     draws := S (draws w); calls := calls w; heap := heap w ++ [c'] |}.

(** The context that [update] builds from [c]. *)
Definition updated_from (m : ContextManager) (w : World) (c : MCPContext)
    (u : UpdateContextOptions) : MCPContext :=
  {| id := uuids w (draws w);
     ctx_sessionId := ctx_sessionId c;
     version := version c + 1;
     intent := intent c;
     workspace := match u_workspace u with
                  | Some ws => mergeWorkspace (workspace c) ws
                  | None => workspace c
                  end;
     memoryRefs := nullish (u_memoryRefs u) (memoryRefs c);
     recentResults :=
       mergeResults m (recentResults c) (nullish (addResults u) []);
     activePlan := match plan u with
                   | Some p => p
                   | None => activePlan c
                   end;
     facts := mergeFacts (facts c) (nullish (addFacts u) []);
     constraints :=
       mergeConstraints (constraints c) (nullish (addConstraints u) []);
     createdAt := createdAt c;
     updatedAt := clock w (ticks w) |}.

(** The manager after recording the new reference [l'] for session
    [sid]. *)
Definition recorded (m : ContextManager) (sid : UniqueId) (l' : ContextRef)
  : ContextManager :=
  set_history (<[sid := nullish (history m !! sid) [] ++ [l']]> (history m)) m.

(** The update that only adds the facts [l]. *)
Definition adding_facts (l : list ContextFact) : UpdateContextOptions :=
  {| u_memoryRefs := None; addResults := None; addFacts := Some l;
     addConstraints := None; plan := None; u_workspace := None |}.

(** A fact with the statement ["The project uses TypeScript"], from the
    given source and with the given confidence. *)
Definition sample_fact (origin : string) (sure : Qc) : ContextFact :=
  {| cf_id := "fact-" +:+ origin; category := DISCOVERY;
     statement := "The project uses TypeScript"; confidence := sure;
     source := origin; discoveredAt := 3 |}.

Definition sample_intent : UserIntent :=
  {| ui_rawInput := "read the file"; ui_action := "read";
     ui_target := Some "file.ts"; ui_constraints := [];
     ui_confidence := Q2Qc (95 # 100); ui_capturedAt := 1 |}.

Definition sample_workspace : WorkspaceMetadata :=
  {| rootPath := "/test/workspace"; projectType := Some "typescript";
     frameworks := ["node"]; activeFile := Some "src/index.ts";
     selection := None; gitBranch := Some "main";
     hasUncommittedChanges := false; scannedAt := 1 |}.

Definition sample_result (n : Z) : ToolResult :=
  {| tr_id := "result"; tr_toolId := "filesystem.read_file";
     tr_success := true; tr_data := Some (JNum n); tr_error := None;
     tr_durationMs := 50; tr_completedAt := 2 |}.

Definition sample_context : MCPContext :=
  {| id := "ctx-0"; ctx_sessionId := "session"; version := 1;
     intent := sample_intent; workspace := sample_workspace;
     memoryRefs := []; recentResults := []; activePlan := None;
     facts := []; constraints := []; createdAt := 1; updatedAt := 1 |}.

(** A world whose store holds [sample_context] at reference 0. *)
Definition sample_store : World :=
  {| clock := fun k => 1000 + Z.of_nat k; ticks := 0;
     uuids := fun k => "uuid-" +:+ pretty k; draws := 0;
     calls := []; heap := [sample_context] |}.

End ContextManagerSpec.

(** ** Tool registry *)

Module ToolRegistrySpec.
Import ToolRegistry.
Import ContextManagerSpec.

Definition sample_schema (name : string) : MCPSchema :=
  {| sc_id := name; sc_version := "1.0.0"; schema := [("type", JStr "object")];
     sc_description := name; examples := [] |}.

(** The two tools of the registry's test suite: an echo tool without
    permissions and a file writer that needs [FILE_WRITE]. *)
Definition echoTool : ToolDefinition :=
  {| td_id := "test.echo"; name := "Echo Tool";
     td_description := "Echoes back the input message";
     td_category := UTILITY;
     inputSchema := sample_schema "echo-input";
     outputSchema := sample_schema "echo-output";
     permissions := [];
     hasSideEffects := false; idempotent := true; estimatedDurationMs := 10;
     execute := fun input _ _ =>
       resolves 0 {| tr_id := "echo-result"; tr_toolId := "test.echo";
                     tr_success := true; tr_data := Some input;
                     tr_error := None; tr_durationMs := 1;
                     tr_completedAt := 0 |};
     validate := None;
     td_version := "1.0.0" |}.

Definition writeFileTool : ToolDefinition :=
  {| td_id := "test.write_file"; name := "Write File";
     td_description := "Writes content to a file";
     td_category := FILESYSTEM;
     inputSchema := sample_schema "write-file-input";
     outputSchema := sample_schema "write-file-output";
     permissions := [FILE_WRITE];
     hasSideEffects := true; idempotent := false; estimatedDurationMs := 100;
     execute := fun _ _ _ =>
       resolves 0 {| tr_id := "write-result"; tr_toolId := "test.write_file";
                     tr_success := true; tr_data := Some (JBool true);
                     tr_error := None; tr_durationMs := 1;
                     tr_completedAt := 0 |};
     validate := None;
     td_version := "1.0.0" |}.

(** A registry without granted permissions in which both tools have been
    registered, and the world after the registrations. *)
Definition sample_registry : ToolRegistry * World :=
  match (register echoTool ;;; register writeFileTool)
          (new_ToolRegistry DEFAULT_REGISTRY_CONFIG) sample_store with
  | (_, r, w) => (r, w)
  end.

Definition sample_request (toolId : string) : ToolInvocationRequest :=
  {| toolId := toolId; input := JStr "hello"; context := 0%nat;
     timeoutMs := None; skipValidation := None |}.

(** The declared permissions that the registry has not been granted, in
    the order of declaration. *)
Definition ungranted (r : ToolRegistry) (required : list ToolPermission)
  : list ToolPermission :=
  filter (fun p => p ∉ grantedPermissions (config r)) required.

(** The world after [invoke] has drawn the execution id and read the
    clock [n] times. *)
Definition after_invoke (w : World) (n : nat) : World :=
  {| clock := clock w; ticks := (n + ticks w)%nat; uuids := uuids w;
     draws := S (draws w); calls := calls w; heap := heap w |}.

(** The entry that [updateMetrics] stores for an invocation that took
    [durationMs] and ended at [now]. *)
Definition with_metrics (entry : ToolRegistryEntry) (durationMs : Z)
    (now : Timestamp) : ToolRegistryEntry :=
  {| definition := definition entry;
     registeredAt := registeredAt entry;
     enabled := enabled entry;
     invocationCount := invocationCount entry + 1;
     lastInvokedAt := Some now;
     averageDurationMs :=
       ((averageDurationMs entry * Q2Qc (inject_Z (invocationCount entry))
         + Q2Qc (inject_Z durationMs))
        / Q2Qc (inject_Z (invocationCount entry + 1)))%Qc |}.

(** The value a call returned, if it returned. *)
Definition result_of {A} (r : Result A) : option A :=
  match r with
  | Ok a => Some a
  | Throw _ => None
  end.

(** The error code of a result built by the registry. *)
Definition error_code (result : ToolResult) : option string :=
  te_code <$> tr_error result.

(** C5 as the specification words it: whatever the path, the
    invocation count of the tool goes up by one. *)
Definition metrics_updated_on_every_path : Prop :=
  ∀ (r : ToolRegistry) (w : World) (request : ToolInvocationRequest)
    (entry : ToolRegistryEntry),
    tools r !! toolId request = Some entry →
    ∃ entry',
      tools (invoke request r w).1.2 !! toolId request = Some entry'
      ∧ invocationCount entry' = invocationCount entry + 1.

End ToolRegistrySpec.

(** ** Decision loop *)

Module DecisionLoopSpec.
Import Lifecycle ContextManager ToolRegistry DecisionLoop.
Import ContextManagerSpec ToolRegistrySpec.





(** A planner that proposes one call of the echo tool, and a reflector
    that always asks to continue. *)
Definition echo_planner : Planner :=
  fun _ _ =>
    Ok {| ep_id := "plan-1"; ep_description := "Execute test.echo";
          actions := [ {| pa_id := "action-1"; pa_index := 0;
                          pa_toolId := "test.echo";
                          pa_description := "echo the message";
                          expectedParameters := [("message", JStr "hello")];
                          dependsOn := []; priority := NORMAL;
                          status := PENDING |} ];
          currentIndex := 0; ep_confidence := Q2Qc (8 # 10);
          ep_createdAt := 0; revision := 0 |}.

Definition eager_reflector : Reflector :=
  fun _ _ _ =>
    Ok {| shouldContinue := true; isSuccess := false;
          rr_reason := "Continuing to next iteration"; adjustments := [] |}.

(** The loop of the scenario: a step limit of 3 over the sample
    registry. *)
Definition sample_loop : DecisionLoop :=
  new_DecisionLoop
    {| maxSteps := 3; toolTimeoutMs := 30000; sessionTimeoutMs := 300000;
       verbose := false; cfg_dryRun := false;
       allowedToolCategories := ["filesystem"; "execution"; "analysis"];
       forbiddenPaths := ["/etc"; "/usr"];
       planner := echo_planner; reflector := eager_reflector |}
    sample_registry.1.



End DecisionLoopSpec.

(** ** Lifecycle controller: vocabulary *)

Module LifecycleTrail.
Import Lifecycle.

(** The entry [e] once its phase has been left at time [t]. *)
Definition closed (e : PhaseHistoryEntry) (t : Timestamp) : PhaseHistoryEntry :=
  {| phase := phase e; entryStepNumber := entryStepNumber e;
     enteredAt := enteredAt e; exitedAt := Some t; reason := reason e |}.

(** What [exitPhase] adds to the history at time [t]. *)
Definition exited (c : LifecycleController) (t : Timestamp)
  : list PhaseHistoryEntry :=
  match currentPhaseEntry c with
  | Some e => [closed e t]
  | None => []
  end.

(** What [exitPhase] emits. *)
Definition exit_events (c : LifecycleController) : list LifecycleEvent :=
  match currentPhaseEntry c with
  | Some e =>
      [phase_exit (currentPhase c)
         {| pm_enteredAt := enteredAt e; pm_stepNumber := entryStepNumber e;
            pm_reason := reason e; pm_data := [] |}]
  | None => []
  end.

(** The clock readings of a change of phase: [exitPhase] reads the clock
    when a phase is open, then [lastTransitionAt] is read, then
    [enterPhase] reads it. *)
Definition transition_tick (c : LifecycleController) (w : World) : nat :=
  match currentPhaseEntry c with
  | Some _ => S (ticks w)
  | None => ticks w
  end.

Definition entry_tick (c : LifecycleController) (w : World) : nat :=
  S (transition_tick c w).

(** [q] may follow [p] in the phase trail: by the table, or by a forced
    failure from a phase that is not terminal. *)
Definition legal_step (p q : AgentPhase) : bool :=
  match JsMap.get VALID_TRANSITIONS p with
  | Some targets => includes targets q
  | None => false
  end
  || (bool_decide (q = FAILED) && negb (includes TERMINAL_PHASES p)).

(** Every phase of the list is followed by one that may follow it. *)
Fixpoint chain (l : list AgentPhase) : Prop :=
  match l with
  | p :: rest =>
      match rest with
      | q :: _ => legal_step p q = true ∧ chain rest
      | [] => True
      end
  | [] => True
  end.

(** The phases the controller went through, the current one last. *)
Definition trail (c : LifecycleController) : list AgentPhase :=
  (phase <$> phaseHistory c) ++ [currentPhase c].

(** The controller built for session [sid] and then driven through the
    calls [ks]. *)
Definition driven (sid : option UniqueId) (ks : list Call) (w : World)
  : LifecycleController :=
  (perform_all ks (new_LifecycleController sid w).1
                  (new_LifecycleController sid w).2).1.

(** What the audit trail of a controller shows: it starts at IDLE and
    makes legal steps only, the previous phase is the last one left, the
    step counter is bounded by the number of phases left, and an entry
    for the current phase is open at the current step number. *)
Definition audited (c : LifecycleController) : Prop :=
  head (trail c) = Some IDLE
  ∧ chain (trail c)
  ∧ previousPhase c = last (phase <$> phaseHistory c)
  ∧ 0 ≤ stepNumber c ≤ Z.of_nat (length (phaseHistory c))
  ∧ ∃ e, currentPhaseEntry c = Some e
         ∧ phase e = currentPhase c
         ∧ entryStepNumber e = stepNumber c
         ∧ exitedAt e = None.

End LifecycleTrail.


(** ** Context manager: vocabulary *)

Module ContextStore.
Import ContextManager ContextManagerSpec.

(** The context that [create] builds. *)
Definition created_from (w : World) (o : CreateContextOptions) : MCPContext :=
  {| id := uuids w (draws w);
     ctx_sessionId := co_sessionId o;
     version := 1;
     intent := co_intent o;
     workspace := co_workspace o;
     memoryRefs := nullish (co_memoryRefs o) [];
     recentResults := [];
     activePlan := None;
     facts := [];
     constraints := nullish (co_constraints o) [];
     createdAt := clock w (ticks w);
     updatedAt := clock w (ticks w) |}.

(** Every reference of the history of session [sid] points to a context
    of the store. *)
Definition allocated (m : ContextManager) (w : World) (sid : UniqueId)
  : Prop :=
  ∀ k, k ∈ getHistory m sid → is_Some (heap w !! k).

(** The search of [getVersion] through a history. *)
Definition has_version (w : World) (v : Z) (ctx : ContextRef) : bool :=
  match heap w !! ctx with
  | Some c => bool_decide (version c = v)
  | None => false
  end.

(** The context [c] moved on one version at time [now] under the new id
    [i], with everything else as it was. *)
Definition next_version (c : MCPContext) (i : UniqueId) (now : Timestamp)
  : MCPContext :=
  {| id := i;
     ctx_sessionId := ctx_sessionId c;
     version := version c + 1;
     intent := intent c;
     workspace := workspace c;
     memoryRefs := memoryRefs c;
     recentResults := recentResults c;
     activePlan := activePlan c;
     facts := facts c;
     constraints := constraints c;
     createdAt := createdAt c;
     updatedAt := now |}.

(** The update that only adds the constraints [l]. *)
Definition adding_constraints (l : list ExecutionConstraint)
  : UpdateContextOptions :=
  {| u_memoryRefs := None; addResults := None; addFacts := None;
     addConstraints := Some l; plan := None; u_workspace := None |}.

(** The partial workspace [{}]. *)
Definition no_workspace_updates : PartialWorkspace :=
  {| p_rootPath := None; p_projectType := None; p_frameworks := None;
     p_activeFile := None; p_selection := None; p_gitBranch := None;
     p_hasUncommittedChanges := None; p_scannedAt := None |}.

(** A manager with a limit of 3 recent results that holds the sample
    context as the history of its session. *)
Definition sample_manager : ContextManager :=
  {| maxRecentResults := 3; history := {[ "session" := [0%nat] ]} |}.

Definition sample_constraint : ExecutionConstraint :=
  {| ec_id := "constraint-1"; ec_type := FILE_PROTECTION;
     ec_description := "Do not touch the lock file"; mandatory := false;
     ec_source := by_user |}.

End ContextStore.

(** ** Tool registry: vocabulary *)

Module ToolRegistryOutcomes.
Import ToolRegistry ContextManagerSpec ToolRegistrySpec.

(** The result that [createErrorResult] builds. *)
Definition error_result (executionId : UniqueId) (toolId code message : string)
    (recoverable : bool) (durationMs : Z) (completedAt : Timestamp)
  : ToolResult :=
  {| tr_id := executionId;
     tr_toolId := toolId;
     tr_success := false;
     tr_data := None;
     tr_error := Some {| te_code := code; te_message := message;
                         te_recoverable := recoverable;
                         te_suggestions := [] |};
     tr_durationMs := durationMs;
     tr_completedAt := completedAt |}.

(** The result of an invocation that was given up at its [n]-th reading
    of the clock, before anything of the tool ran. *)
Definition given_up (w : World) (request : ToolInvocationRequest)
    (code message : string) (recoverable : bool) : ToolResult :=
  error_result (uuids w (draws w)) (toolId request) code message recoverable
    (clock w (S (ticks w)) - clock w (ticks w)) (clock w (S (S (ticks w)))).

(** The entry that [register] stores at time [now]. *)
Definition fresh_entry (d : ToolDefinition) (now : Timestamp)
  : ToolRegistryEntry :=
  {| definition := d; registeredAt := now; enabled := true;
     invocationCount := 0; lastInvokedAt := None;
     averageDurationMs := 0%Qc |}.

(** The category of [d] passes the filter of the configuration: the
    list of allowed categories is empty or holds it. *)
Definition category_allowed (r : ToolRegistry) (d : ToolDefinition) : bool :=
  bool_decide (allowedCategories (config r) = [])
  || bool_decide (td_category d ∈ allowedCategories (config r)).

(** The registry after a registration at time [now]. *)
Definition registered (r : ToolRegistry) (d : ToolDefinition)
    (now : Timestamp) : ToolRegistry :=
  {| tools := <[td_id d := fresh_entry d now]> (tools r);
     config := config r;
     emitted := tool_registered (fresh_entry d now) :: emitted r |}.

(** The entry [e] with its [enabled] flag set to [b]. *)
Definition with_enabled (e : ToolRegistryEntry) (b : bool)
  : ToolRegistryEntry :=
  {| definition := definition e; registeredAt := registeredAt e;
     enabled := b; invocationCount := invocationCount e;
     lastInvokedAt := lastInvokedAt e;
     averageDurationMs := averageDurationMs e |}.

(** The world after one reading of the clock. *)
Definition after_tick (w : World) : World :=
  {| clock := clock w; ticks := S (ticks w); uuids := uuids w;
     draws := draws w; calls := calls w; heap := heap w |}.

(** The world in which the functions of a tool are called by [invoke]:
    the execution id has been drawn and the clock read once. *)
Definition at_call (w : World) (earlier : list ExternalCall) : World :=
  {| clock := clock w; ticks := S (ticks w); uuids := uuids w;
     draws := S (draws w); calls := earlier ++ calls w; heap := heap w |}.

(** The world after an invocation that made the calls [made] (latest
    first) and read the clock [n] times. *)
Definition after_calls (w : World) (n : nat) (made : list ExternalCall)
  : World :=
  {| clock := clock w; ticks := (n + ticks w)%nat; uuids := uuids w;
     draws := S (draws w); calls := made ++ calls w; heap := heap w |}.

(** A promise that settles [after] milliseconds from the call is ahead
    of the timer that [executeWithTimeout] arms for [timeoutMs]: it
    settles without waiting, or before the delay of that timer, which
    is [timeoutMs] when this lies between 1 and [2^31 - 1] and 1
    otherwise. *)
Definition in_time (after timeoutMs : Z) : bool :=
  (after <=? 0) || (after <? setTimeout timeoutMs).

(** The timer of [executeWithTimeout] fires before the promise of the
    tool settles. *)
Definition timed_out (s : Settlement) (timeoutMs : Z) : bool :=
  match s with
  | resolves after _ | rejects after _ => negb (in_time after timeoutMs)
  | throws _ => false
  | never_settles => true
  end.

(** The error with which the promise of the tool ends before the timer
    fires, if it ends with one. *)
Definition breaks_with (s : Settlement) (timeoutMs : Z) : option Thrown :=
  match s with
  | rejects after error =>
      if in_time after timeoutMs then Some error else None
  | throws error => Some error
  | _ => None
  end.

(** The result with which the promise of the tool is fulfilled before
    the timer fires, if it is. *)
Definition fulfils_with (s : Settlement) (timeoutMs : Z) : option ToolResult :=
  match s with
  | resolves after result =>
      if in_time after timeoutMs then Some result else None
  | _ => None
  end.

(** The request passes the checks that come before the validation: the
    tool is registered under its id with the entry [entry], enabled, and
    granted every permission it declares. *)
Definition admitted (r : ToolRegistry) (request : ToolInvocationRequest)
    (entry : ToolRegistryEntry) : Prop :=
  tools r !! toolId request = Some entry
  ∧ enabled entry = true
  ∧ ∀ p, p ∈ permissions (definition entry) → p ∈ grantedPermissions (config r).

(** The validator that [invoke] runs for the request, if any: none when
    the request skips the validation or the tool has no validator. *)
Definition validator_of (request : ToolInvocationRequest) (d : ToolDefinition)
  : option (World → Result ValidationResult) :=
  match skipValidation request, validate d with
  | Some true, _ | _, None => None
  | _, Some validator => Some (validator (input request) (context request))
  end.

Definition validation_calls (request : ToolInvocationRequest)
    (d : ToolDefinition) : list ExternalCall :=
  match validator_of request d with
  | Some _ => [call_validate (td_id d) (input request)]
  | None => []
  end.

(** What the validation of the request comes to when it is made in
    world [w]. *)
Definition validation_result (request : ToolInvocationRequest)
    (d : ToolDefinition) (w : World) : Result ValidationResult :=
  match validator_of request d with
  | Some validator => validator w
  | None => Ok validationSuccess
  end.

(** The execution context that [invoke] hands to the tool. *)
Definition execution_context (w : World) (request : ToolInvocationRequest)
    (c : MCPContext) : ToolExecutionContext :=
  {| mcpContext := context request;
     executionId := uuids w (draws w);
     workspaceRoot := rootPath (workspace c);
     allowedPaths := [rootPath (workspace c)];
     dryRun := false |}.

(** The effective timeout of a request. *)
Definition timeout_of (r : ToolRegistry) (request : ToolInvocationRequest) : Z :=
  nullish (timeoutMs request) (defaultTimeoutMs (config r)).

(** The request gets as far as the execution: it is admitted, its input
    is found valid, and its context [c] is in the store. *)
Definition ready (r : ToolRegistry) (request : ToolInvocationRequest)
    (entry : ToolRegistryEntry) (c : MCPContext) (w : World) : Prop :=
  admitted r request entry
  ∧ heap w !! context request = Some c
  ∧ ∃ v, validation_result request (definition entry) (at_call w []) = Ok v
         ∧ vr_valid v = true.

(** What becomes of the call of [execute] that [invoke] makes. *)
Definition the_execution (request : ToolInvocationRequest)
    (entry : ToolRegistryEntry) (c : MCPContext) (w : World) : Settlement :=
  execute (definition entry) (input request) (execution_context w request c)
    (at_call w (validation_calls request (definition entry))).

(** The calls of an invocation that got to the execution, latest
    first. *)
Definition made_calls (request : ToolInvocationRequest)
    (entry : ToolRegistryEntry) : list ExternalCall :=
  call_execute (td_id (definition entry)) (input request)
  :: validation_calls request (definition entry).

(** The registry after an execution that failed with [result]. *)
Definition after_failure (r : ToolRegistry) (request : ToolInvocationRequest)
    (executionId : UniqueId) (result : ToolResult) : ToolRegistry :=
  {| tools := tools r; config := config r;
     emitted := tool_failed (toolId request) executionId (tr_error result)
                :: tool_invoked (toolId request) executionId
                :: emitted r |}.

(** The registry after an execution that completed with [result], having
    taken [durationMs] and ended at [now]. *)
Definition after_completion (r : ToolRegistry)
    (request : ToolInvocationRequest) (entry : ToolRegistryEntry)
    (executionId : UniqueId) (result : ToolResult) (durationMs : Z)
    (now : Timestamp) : ToolRegistry :=
  {| tools := <[td_id (definition entry) :=
                  with_metrics entry durationMs now]> (tools r);
     config := config r;
     emitted := tool_completed (toolId request) executionId result
                :: tool_invoked (toolId request) executionId
                :: emitted r |}.

(** A tool without permissions whose execution comes to [outcome] and
    whose validator, if it has one, comes to [check]; and the default
    registry in which it alone has been registered. *)
Definition sample_tool (outcome : Settlement)
    (check : option (Result ValidationResult)) : ToolDefinition :=
  {| td_id := "test.tool"; name := "Sample Tool";
     td_description := "A tool for the examples";
     td_category := UTILITY;
     inputSchema := sample_schema "tool-input";
     outputSchema := sample_schema "tool-output";
     permissions := [];
     hasSideEffects := false; idempotent := true; estimatedDurationMs := 10;
     execute := fun _ _ _ => outcome;
     validate := (fun r => fun _ _ _ => r) <$> check;
     td_version := "1.0.0" |}.

Definition registry_with (d : ToolDefinition) : ToolRegistry * World :=
  match register d (new_ToolRegistry DEFAULT_REGISTRY_CONFIG) sample_store with
  | (_, r, w) => (r, w)
  end.

Definition sample_failure : ToolResult :=
  {| tr_id := "tool-result"; tr_toolId := "test.tool"; tr_success := false;
     tr_data := None; tr_error := None; tr_durationMs := 1;
     tr_completedAt := 0 |}.

Definition sample_rejection : ValidationResult :=
  {| vr_valid := false;
     errors := [ {| ve_field := "message";
                    ve_message := "message is required";
                    ve_code := "REQUIRED" |} ];
     warnings := [] |}.

End ToolRegistryOutcomes.

(** ** Decision loop: vocabulary *)

Module DecisionLoopPhases.
Import Lifecycle ContextManager ToolRegistry DecisionLoop.
Import LifecycleSpec ContextManagerSpec ToolRegistrySpec DecisionLoopSpec.

(** The worlds [w] and [w'] differ in the readings of the clock made
    and nothing else: no uuid was drawn, no outside function called and
    no context allocated. *)
Definition same_store (w w' : World) : Prop :=
  clock w' = clock w ∧ uuids w' = uuids w ∧ draws w' = draws w
  ∧ calls w' = calls w ∧ heap w' = heap w.

(** The loop is running with the controller [lc], which is in phase
    [p], and holds the context [l]. *)
Definition in_phase (d : DecisionLoop) (lc : LifecycleController)
    (p : AgentPhase) (l : ContextRef) : Prop :=
  isRunning d = true ∧ lifecycle d = Some lc ∧ currentPhase lc = p
  ∧ context d = Some l.

(** The phase that follows REFLECTING on the verdict [r]. *)
Definition verdict_phase (r : ReflectionResult) : AgentPhase :=
  if shouldContinue r then PLANNING
  else if isSuccess r then COMPLETE else FAILED.

(** The reason with which that phase is entered. *)
Definition verdict_reason (r : ReflectionResult) : string :=
  if shouldContinue r then "Continuing with next iteration" else rr_reason r.

(** The text of the step that the observing phase records for the
    recent results [l]. *)
Definition observation (l : list ToolResult) : string :=
  "Observed " +:+ pretty (length (filter (fun r => tr_success r = true) l))
  +:+ "/" +:+ pretty (length l) +:+ " successful results".

(** The world in which the reflector is called by the reflecting phase:
    the clock has been read once. *)
Definition at_reflection (w : World) : World :=
  {| clock := clock w; ticks := S (ticks w); uuids := uuids w;
     draws := draws w; calls := calls w; heap := heap w |}.

(** The reason of the phase the controller of the loop is in. *)
Definition phase_reason (d : DecisionLoop) : option string :=
  lc ← lifecycle d; reason <$> currentPhaseEntry lc.

(** The sample loop with another step limit. *)
Definition sample_loop_with (limit : Z) : DecisionLoop :=
  new_DecisionLoop
    {| maxSteps := limit; toolTimeoutMs := 30000; sessionTimeoutMs := 300000;
       verbose := false; cfg_dryRun := false;
       allowedToolCategories := []; forbiddenPaths := [];
       planner := echo_planner; reflector := eager_reflector |}
    sample_registry.1.

(** The sample loop in the middle of a run: running, holding the sample
    context, its controller driven through the calls [ks]. *)
Definition loop_at (ks : list Call) : DecisionLoop :=
  {| config := config sample_loop;
     toolRegistry := sample_registry.1;
     contextManager := new_ContextManager None;
     lifecycle := Some (LifecycleTrail.driven None ks sample_world);
     context := Some 0%nat;
     steps := [];
     isRunning := true;
     emitted := [] |}.

Definition to_observing : list Call :=
  [call_transition PLANNING "plan" []; call_transition ACTING "act" [];
   call_transition OBSERVING "observe" []].

Definition to_reflecting : list Call :=
  [call_transition PLANNING "plan" [];
   call_transition REFLECTING "reflect" []].

End DecisionLoopPhases.

(** * Properties *)

(** ** Lifecycle controller *)

Module LifecycleProofs.
Import Lifecycle.
Import LifecycleSpec.

Lemma isTerminal_spec (c : LifecycleController) :
  isTerminal c = true ↔ currentPhase c = COMPLETE ∨ currentPhase c = FAILED.
Proof.
  unfold isTerminal. destruct (currentPhase c); vm_compute;
    intuition congruence.
Qed.

(** The map of the code and the table of the specification agree, row
    by row. *)
Lemma VALID_TRANSITIONS_get (p : AgentPhase) :
  JsMap.get VALID_TRANSITIONS p = Some (spec_allowed p).
Proof. destruct p; vm_compute; reflexivity. Qed.

Lemma canTransition_table (c : LifecycleController) (t : AgentPhase) :
  canTransition c t = true ↔ t ∈ spec_allowed (currentPhase c).
Proof.
  unfold canTransition, includes.
  rewrite VALID_TRANSITIONS_get. apply bool_decide_eq_true.
Qed.

Lemma canTransition_not_terminal (c : LifecycleController) (t : AgentPhase) :
  canTransition c t = true → isTerminal c = false.
Proof.
  unfold canTransition, isTerminal.
  destruct (currentPhase c); vm_compute; congruence.
Qed.

(** A transition of the table succeeds and lands in the target phase. *)
Lemma transition_ok (c : LifecycleController) (w : World) (t : AgentPhase)
    (why : string) (data : JsRecord) :
  canTransition c t = true →
  ∃ c' w', transition t why data c w = (Ok tt, c', w') ∧ currentPhase c' = t.
Proof.
  destruct c as [sid p prev n hist st lt [e|] em];
    unfold canTransition; cbn [currentPhase];
    destruct p, t; vm_compute; try discriminate; intros _;
    eexists _, _; split; reflexivity.
Qed.

(** A transition outside the table, from a phase that is not terminal,
    reports [INVALID_TRANSITION], throws, and changes nothing else. *)
Lemma transition_invalid (c : LifecycleController) (w : World)
    (t : AgentPhase) (why : string) (data : JsRecord) :
  canTransition c t = false → isTerminal c = false →
  transition t why data c w =
    (Throw (ErrorObj (le_message (invalid_transition (currentPhase c) t))),
     with_emitted (error_ev (invalid_transition (currentPhase c) t)) c, w).
Proof.
  destruct c as [sid p prev n hist st lt e em];
    unfold canTransition, isTerminal; cbn [currentPhase];
    destruct p, t; vm_compute; try discriminate; reflexivity.
Qed.

(** From a terminal phase [transition] reports [TERMINAL_STATE], throws,
    and changes nothing else. *)
Lemma transition_terminal (c : LifecycleController) (w : World)
    (t : AgentPhase) (why : string) (data : JsRecord) :
  isTerminal c = true →
  transition t why data c w =
    (Throw (ErrorObj (le_message (terminal_state (currentPhase c) t))),
     with_emitted (error_ev (terminal_state (currentPhase c) t)) c, w).
Proof.
  destruct c as [sid p prev n hist st lt e em];
    unfold isTerminal; cbn [currentPhase];
    destruct p; vm_compute; try discriminate; reflexivity.
Qed.

Lemma fail_terminal (c : LifecycleController) (w : World) (why : string) :
  isTerminal c = true → fail why c w = (Ok tt, c, w).
Proof.
  destruct c as [sid p prev n hist st lt e em];
    unfold isTerminal; cbn [currentPhase];
    destruct p; vm_compute; try discriminate; reflexivity.
Qed.

(** C1. For every current phase and every target phase, [canTransition]
    answers [true] exactly when the target is in the row of the current
    phase in the table of section 4.1; when it does, [transition]
    succeeds and the controller is in the target phase; when it does not
    and the current phase is not terminal, [transition] emits an
    [INVALID_TRANSITION] error, throws, and leaves [currentPhase] (and
    every other field) as it was. *)
Theorem C1_transition_follows_table (c : LifecycleController) (w : World)
    (t : AgentPhase) (why : string) (data : JsRecord) :
  (canTransition c t = true ↔ t ∈ spec_allowed (currentPhase c)) ∧
  match canTransition c t, isTerminal c with
  | true, _ =>
      ∃ c' w', transition t why data c w = (Ok tt, c', w')
               ∧ currentPhase c' = t
  | false, false =>
      ∃ c', transition t why data c w =
              (Throw (ErrorObj (le_message
                                  (invalid_transition (currentPhase c) t))),
               c', w)
            ∧ c' = with_emitted
                     (error_ev (invalid_transition (currentPhase c) t)) c
            ∧ le_code (invalid_transition (currentPhase c) t)
              = "INVALID_TRANSITION"
            ∧ currentPhase c' = currentPhase c
  | false, true => True
  end.
Proof.
  split; [apply canTransition_table|].
  destruct (canTransition c t) eqn:Hcan.
  - now apply transition_ok.
  - destruct (isTerminal c) eqn:Hterm; [exact I|].
    eexists; split; [now apply transition_invalid|]. repeat split.
Qed.

Lemma perform_terminal (c : LifecycleController) (w : World) (k : Call) :
  isTerminal c = true →
  getState (perform k c w).1.2 = getState c
  ∧ currentPhaseEntry (perform k c w).1.2 = currentPhaseEntry c.
Proof.
  intros Hterm. destruct k as [t why data|why|why|why|why]; cbn [perform].
  - rewrite transition_terminal by done. done.
  - rewrite fail_terminal by done. done.
  - destruct c as [sid p prev n hist st lt e em].
    unfold isTerminal in Hterm; cbn [currentPhase] in Hterm.
    destruct p; vm_compute in Hterm; try discriminate; done.
  - destruct c as [sid p prev n hist st lt e em].
    unfold isTerminal in Hterm; cbn [currentPhase] in Hterm.
    destruct p; vm_compute in Hterm; try discriminate; done.
  - destruct c as [sid p prev n hist st lt e em].
    unfold isTerminal in Hterm; cbn [currentPhase] in Hterm.
    destruct p; vm_compute in Hterm; try discriminate; done.
Qed.

Lemma perform_all_terminal (ks : list Call) (c : LifecycleController)
    (w : World) :
  isTerminal c = true → getState (perform_all ks c w).1 = getState c.
Proof.
  revert c w. induction ks as [|k ks IH]; intros c w Hterm; [done|].
  cbn [perform_all].
  destruct (perform k c w) as [[r c'] w'] eqn:Hk.
  pose proof (perform_terminal c w k Hterm) as [Hst _].
  rewrite Hk in Hst; cbn in Hst.
  rewrite IH; [done|].
  apply (f_equal ls_isTerminal) in Hst. cbn in Hst. congruence.
Qed.

(** C2. Once the current phase is COMPLETE or FAILED the controller
    stays as it is: [transition], for any target, emits a
    [TERMINAL_STATE] error and throws without touching any field, [fail]
    returns without doing anything (no field changes, nothing is added
    to the history, nothing is emitted), and after any further sequence
    of calls the state reported by [getState] is the same. *)
Theorem C2_terminal_is_absorbing (c : LifecycleController) (w : World) :
  currentPhase c = COMPLETE ∨ currentPhase c = FAILED →
  (∀ t why data,
     transition t why data c w =
       (Throw (ErrorObj (le_message (terminal_state (currentPhase c) t))),
        with_emitted (error_ev (terminal_state (currentPhase c) t)) c, w)
     ∧ le_code (terminal_state (currentPhase c) t) = "TERMINAL_STATE"
     ∧ currentPhase
         (with_emitted (error_ev (terminal_state (currentPhase c) t)) c)
       = currentPhase c)
  ∧ (∀ why, fail why c w = (Ok tt, c, w))
  ∧ (∀ ks, getState (perform_all ks c w).1 = getState c).
Proof.
  intros Hterm%isTerminal_spec. split; [|split].
  - intros t why data. split; [now apply transition_terminal|done].
  - intros why. now apply fail_terminal.
  - intros ks. now apply perform_all_terminal.
Qed.

Lemma C2_terminal_is_absorbing_witness :
  currentPhase completed_controller.1 = COMPLETE
  ∧ ∀ why, fail why completed_controller.1 completed_controller.2
           = (Ok tt, completed_controller.1, completed_controller.2).
Proof.
  split; [reflexivity|].
  exact (proj1 (proj2 (C2_terminal_is_absorbing completed_controller.1
                         completed_controller.2 (or_introl eq_refl)))).
Defined.

(** C6 at the failing input.  The documentation of [suspend] calls it
    valid from any non-terminal phase, and SUSPENDED is not terminal;
    yet on a controller that has been constructed and suspended once, a
    second [suspend] finds no SUSPENDED among the targets that the table
    gives the phase SUSPENDED and throws
    ["Cannot suspend from phase 'SUSPENDED'"], leaving the controller as
    it was.  So [suspend] does not succeed from every phase that is not
    terminal. *)
Lemma C6_suspend_from_suspended_throws :
  currentPhase suspended_controller.1 = SUSPENDED
  ∧ isTerminal suspended_controller.1 = false
  ∧ suspend "again" suspended_controller.1 suspended_controller.2
    = (Throw (ErrorObj "Cannot suspend from phase 'SUSPENDED'"),
       suspended_controller.1, suspended_controller.2)
  ∧ ¬ suspend_from_every_non_terminal.
Proof.
  split; [reflexivity|]. split; [reflexivity|].
  assert (suspend "again" suspended_controller.1 suspended_controller.2
          = (Throw (ErrorObj "Cannot suspend from phase 'SUSPENDED'"),
             suspended_controller.1, suspended_controller.2)) as Hthrow
    by (vm_compute; reflexivity).
  split; [exact Hthrow|].
  intros Hclaim.
  destruct (Hclaim suspended_controller.1 suspended_controller.2 "again")
    as (c' & w' & Hok & _); [reflexivity|].
  rewrite Hthrow in Hok. discriminate.
Qed.

(** What [suspend] does in every phase: it succeeds exactly from IDLE,
    PLANNING, ACTING, OBSERVING and REFLECTING, and then moves the
    controller into SUSPENDED; from SUSPENDED, COMPLETE and FAILED it
    throws and leaves the controller as it was. *)
Lemma suspend_legal_phases (c : LifecycleController) (w : World)
    (why : string) :
  if bool_decide (currentPhase c ∈ suspendable)
  then ∃ c' w', suspend why c w = (Ok tt, c', w')
                ∧ currentPhase c' = SUSPENDED
                ∧ previousPhase c' = Some (currentPhase c)
  else suspend why c w =
         (Throw (ErrorObj ("Cannot suspend from phase '"
                           +:+ AgentPhase_value (currentPhase c) +:+ "'")),
          c, w)
       ∧ (currentPhase c = SUSPENDED ∨ currentPhase c = COMPLETE
          ∨ currentPhase c = FAILED).
Proof.
  destruct c as [sid p prev n hist st lt [e|] em]; cbn [currentPhase];
    destruct p; vm_compute; eauto 10.
Qed.





End LifecycleProofs.

(** ** Insertion-ordered maps *)

Module JsMapFacts.
Section JsMapFacts.
Context {K V : Type} `{EqDecision K} (key : V → K).
Implicit Types (m : JsMap.t K V) (k : K) (v : V) (l : list V).

#[local] Abbreviation set_all := (JsMap.set_all key).
#[local] Abbreviation latest := (JsMap.latest key).
#[local] Abbreviation keyed := (JsMap.keyed key).

Lemma get_set m k v k' :
  JsMap.get (JsMap.set m k v) k'
  = if decide (k = k') then Some v else JsMap.get m k'.
Proof.
  induction m as [|[k0 v0] m IH]; cbn.
  - done.
  - destruct (decide (k0 = k)) as [->|Hne]; cbn.
    + destruct (decide (k = k')); done.
    + rewrite IH. destruct (decide (k0 = k')) as [->|]; [|done].
      by destruct (decide (k = k')) as [->|].
Qed.

Lemma keys_set_present m k v :
  k ∈ JsMap.keys m → JsMap.keys (JsMap.set m k v) = JsMap.keys m.
Proof.
  unfold JsMap.keys. induction m as [|[k0 v0] m IH]; cbn.
  - by intros ?%elem_of_nil.
  - intros Hin. destruct (decide (k0 = k)) as [->|Hne]; cbn; [done|].
    f_equal. apply IH. apply elem_of_cons in Hin as [->|]; done.
Qed.

Lemma set_absent m k v :
  k ∉ JsMap.keys m → JsMap.set m k v = m ++ [(k, v)].
Proof.
  unfold JsMap.keys. induction m as [|[k0 v0] m IH]; cbn; [done|].
  intros Hnin. apply not_elem_of_cons in Hnin as [Hne Hnin].
  destruct (decide (k0 = k)); [congruence|]. by rewrite IH.
Qed.

Lemma get_None m k : JsMap.get m k = None ↔ k ∉ JsMap.keys m.
Proof.
  unfold JsMap.keys. induction m as [|[k0 v0] m IH]; cbn.
  - split; [intros _; apply not_elem_of_nil|done].
  - rewrite not_elem_of_cons. destruct (decide (k0 = k)) as [->|].
    + split; [done|]. by intros [? _].
    + rewrite IH. split; [by intros ? | by intros [_ ?]].
Qed.

Lemma keys_set_cases m k v :
  (JsMap.keys (JsMap.set m k v) = JsMap.keys m)
  ∨ ((k ∉ JsMap.keys m)
     ∧ JsMap.keys (JsMap.set m k v) = JsMap.keys m ++ [k]).
Proof.
  destruct (decide (k ∈ JsMap.keys m)) as [Hin|Hnin].
  - left. by apply keys_set_present.
  - right. split; [done|]. rewrite set_absent by done.
    unfold JsMap.keys. by rewrite fmap_app.
Qed.

Lemma NoDup_keys_set m k v :
  NoDup (JsMap.keys m) → NoDup (JsMap.keys (JsMap.set m k v)).
Proof.
  intros Hnd. destruct (keys_set_cases m k v) as [->|[Hnin ->]]; [done|].
  apply NoDup_app. repeat split; [done| |apply NoDup_singleton].
  intros x Hx ->%list_elem_of_singleton. done.
Qed.

Lemma keyed_set m v : keyed m → keyed (JsMap.set m (key v) v).
Proof.
  unfold JsMap.keyed. induction m as [|[k0 v0] m IH]; cbn; intros Hk.
  - by repeat constructor.
  - apply Forall_cons in Hk as [Hk0 Hk].
    destruct (decide (k0 = key v)) as [->|]; constructor; auto.
Qed.

Lemma set_all_cons m x l :
  set_all m (x :: l) = set_all (JsMap.set m (key x) x) l.
Proof. reflexivity. Qed.

Lemma set_all_app m l1 l2 :
  set_all m (l1 ++ l2) = set_all (set_all m l1) l2.
Proof. apply foldl_app. Qed.

Lemma NoDup_keys_set_all m l :
  NoDup (JsMap.keys m) → NoDup (JsMap.keys (set_all m l)).
Proof.
  revert m. induction l as [|x l IH]; intros m Hnd; [done|].
  rewrite set_all_cons. apply IH. by apply NoDup_keys_set.
Qed.

Lemma keyed_set_all m l : keyed m → keyed (set_all m l).
Proof.
  revert m. induction l as [|x l IH]; intros m Hk; [done|].
  rewrite set_all_cons. apply IH. by apply keyed_set.
Qed.

Lemma get_set_all m l k :
  JsMap.get (set_all m l) k
  = match latest l k with
    | Some y => Some y
    | None => JsMap.get m k
    end.
Proof.
  revert m. induction l as [|x l IH]; intros m; [done|].
  rewrite set_all_cons, IH. cbn. destruct (latest l k); [done|].
  rewrite get_set. by destruct (decide (key x = k)).
Qed.

Lemma keys_set_all_present m l :
  (∀ x, x ∈ l → key x ∈ JsMap.keys m) →
  JsMap.keys (set_all m l) = JsMap.keys m.
Proof.
  revert m. induction l as [|x l IH]; intros m Hin; [done|].
  rewrite set_all_cons, IH.
  - apply keys_set_present, Hin. by left.
  - intros y Hy. rewrite keys_set_present; apply Hin; by constructor.
Qed.

Lemma keys_set_subseteq m k v : JsMap.keys m ⊆ JsMap.keys (JsMap.set m k v).
Proof.
  destruct (keys_set_cases m k v) as [->|[_ ->]]; [done|].
  intros x Hx. apply elem_of_app. by left.
Qed.

Lemma key_in_set m k v : k ∈ JsMap.keys (JsMap.set m k v).
Proof.
  destruct (decide (k ∈ JsMap.keys m)) as [Hin|Hnin].
  - by rewrite keys_set_present.
  - rewrite set_absent by done. unfold JsMap.keys.
    rewrite fmap_app. apply elem_of_app. right. by constructor.
Qed.

Lemma keys_set_all_subseteq m l : JsMap.keys m ⊆ JsMap.keys (set_all m l).
Proof.
  revert m. induction l as [|x l IH]; intros m; [done|].
  rewrite set_all_cons. etrans; [apply keys_set_subseteq|apply IH].
Qed.

Lemma keys_set_all_added m l x :
  x ∈ l → key x ∈ JsMap.keys (set_all m l).
Proof.
  revert m. induction l as [|y l IH]; intros m Hin.
  - by apply elem_of_nil in Hin.
  - rewrite set_all_cons. apply elem_of_cons in Hin as [->|Hin]; [|by apply IH].
    apply keys_set_all_subseteq, key_in_set.
Qed.

(** Two maps with the same keys in the same order and the same
    lookups are the same map. *)
Lemma map_ext m1 m2 :
  NoDup (JsMap.keys m1) → JsMap.keys m1 = JsMap.keys m2 →
  (∀ k, JsMap.get m1 k = JsMap.get m2 k) → m1 = m2.
Proof.
  unfold JsMap.keys.
  revert m2. induction m1 as [|[k1 v1] m1 IH]; intros [|[k2 v2] m2];
    cbn; try done.
  intros Hnd [= <- Hkeys] Hget. apply NoDup_cons in Hnd as [Hnin Hnd].
  pose proof (Hget k1) as H1. rewrite !decide_True in H1 by done.
  injection H1 as <-. f_equal. apply IH; [done..|].
  intros k. specialize (Hget k).
  destruct (decide (k1 = k)) as [<-|]; [|done].
  transitivity (@None V); [|symmetry]; apply get_None; unfold JsMap.keys;
    congruence.
Qed.

(** Refilling a map from its own values gives the map back. *)
Lemma set_all_values m m' :
  keyed m' → NoDup (JsMap.keys (m ++ m')) →
  set_all m (JsMap.values m') = m ++ m'.
Proof.
  unfold JsMap.values, JsMap.keys.
  revert m. induction m' as [|[k v] m' IH]; intros m Hk Hnd.
  - cbn. by rewrite app_nil_r.
  - apply Forall_cons in Hk as [Hkv Hk]. cbn in Hkv. subst k.
    rewrite fmap_cons. cbn [snd]. rewrite set_all_cons.
    rewrite set_absent.
    + rewrite IH; [by rewrite <-app_assoc|done|by rewrite <-app_assoc].
    + rewrite fmap_app in Hnd. apply NoDup_app in Hnd as (_ & Hdisj & _).
      intros Hin. apply (Hdisj _ Hin). by left.
Qed.

(** In a map whose values are filed under their own keys, the values
    with key [k] are the one stored under [k], if there is one. *)
Lemma filter_values m k :
  keyed m → NoDup (JsMap.keys m) →
  filter (fun x => key x = k) (JsMap.values m)
  = match JsMap.get m k with
    | Some v => [v]
    | None => []
    end.
Proof.
  unfold JsMap.values, JsMap.keys.
  induction m as [|[k0 v0] m IH]; intros Hk Hnd; [done|].
  apply Forall_cons in Hk as [Hk0 Hk]. cbn in Hk0. subst k0.
  apply NoDup_cons in Hnd as [Hnin Hnd].
  rewrite fmap_cons, filter_cons. cbn [snd JsMap.get].
  destruct (decide (key v0 = k)) as [<-|Hne].
  - rewrite IH by done.
    replace (JsMap.get m (key v0)) with (@None V); [done|].
    symmetry. by apply get_None.
  - by rewrite IH.
Qed.
End JsMapFacts.

Lemma keyed_values_keys {K V} (key : V → K) (m : JsMap.t K V) :
  JsMap.keyed key m → key <$> JsMap.values m = JsMap.keys m.
Proof.
  unfold JsMap.values, JsMap.keys, JsMap.keyed.
  induction m as [|[k v] m IH]; [done|]. intros Hk.
  apply Forall_cons in Hk as [Hkv Hk]. cbn in *. by rewrite IH, Hkv.
Qed.

(** Filing a list without repeated keys into an empty map and reading
    the values back gives the list. *)
Lemma set_all_fresh {K V} `{EqDecision K} (key : V → K) (l : list V) :
  NoDup (key <$> l) → JsMap.values (JsMap.set_all key [] l) = l.
Proof.
  intros Hnd.
  set (m' := (λ v, (key v, v)) <$> l).
  assert (JsMap.values m' = l) as Hv.
  { unfold JsMap.values, m'. rewrite <-list_fmap_compose.
    rewrite <-(list_fmap_id l) at 2. by apply list_fmap_ext. }
  assert (JsMap.keys m' = key <$> l) as Hk.
  { unfold JsMap.keys, m'. rewrite <-list_fmap_compose.
    by apply list_fmap_ext. }
  rewrite <-Hv at 1. rewrite (set_all_values key [] m').
  - done.
  - unfold JsMap.keyed, m'. apply Forall_fmap, Forall_forall. done.
  - cbn [app]. by rewrite Hk.
Qed.

End JsMapFacts.

(** ** Context manager *)

Module ContextManagerProofs.
Import ContextManager JsMapFacts.
Import ContextManagerSpec.

Lemma update_spec (m : ContextManager) (w : World) (l : ContextRef)
    (c : MCPContext) (u : UpdateContextOptions) :
  heap w !! l = Some c →
  update l u m w =
    (Ok (length (heap w)),
     recorded m (ctx_sessionId c) (length (heap w)),
     after_update w (updated_from m w c u)).
Proof.
  intros Hl. unfold update, bind, deref. rewrite Hl.
  cbn. unfold recordHistory, bind, gets, recorded. cbn.
  destruct (history m !! ctx_sessionId c); reflexivity.
Qed.

(** C3. [update] does not destroy anything: for every context [c] (held
    at reference [l]) and every update [u], it returns a reference to a
    new context whose version is [c.version + 1] and whose id, being the
    next uuid of a source that does not repeat [c.id], differs from
    [c.id]; the object [c] is still at [l] with every field as before,
    and so is every other context allocated earlier. *)
Theorem C3_update_is_not_destructive (m : ContextManager) (w : World)
    (l : ContextRef) (c : MCPContext) (u : UpdateContextOptions) :
  heap w !! l = Some c →
  uuid_fresh w (id c) →
  ∃ l' c' m' w',
    update l u m w = (Ok l', m', w')
    ∧ heap w' !! l' = Some c'
    ∧ l' ≠ l
    ∧ id c' ≠ id c
    ∧ version c' = version c + 1
    ∧ heap w' !! l = Some c
    ∧ ∀ k c0, heap w !! k = Some c0 → heap w' !! k = Some c0.
Proof.
  intros Hl Hfresh.
  exists (length (heap w)), (updated_from m w c u),
    (recorded m (ctx_sessionId c) (length (heap w))),
    (after_update w (updated_from m w c u)).
  split; [by apply update_spec|].
  pose proof (lookup_lt_Some _ _ _ Hl) as Hlt.
  assert (∀ k c0, heap w !! k = Some c0 →
            (heap w ++ [updated_from m w c u]) !! k = Some c0) as Hkeep.
  { intros k c0 Hk. rewrite lookup_app_l; [done|].
    by eapply lookup_lt_Some. }
  repeat split.
  - cbn. by rewrite list_lookup_middle.
  - lia.
  - cbn. by apply Hfresh.
  - by apply Hkeep.
  - exact Hkeep.
Qed.

(** A uuid source without repetitions never returns again an id it
    returned before. *)
Lemma uuid_fresh_of_earlier_draw (w : World) (k : nat) :
  (∀ i j : nat, uuids w i = uuids w j → i = j) →
  (k < draws w)%nat → uuid_fresh w (uuids w k).
Proof. intros Hinj Hk j Hj Heq. apply Hinj in Heq. lia. Qed.

Lemma C3_update_is_not_destructive_witness :
  ∃ l' c' m' w',
    update 0%nat no_updates (new_ContextManager None) sample_store
      = (Ok l', m', w')
    ∧ heap w' !! l' = Some c'
    ∧ l' ≠ 0%nat
    ∧ id c' ≠ id sample_context
    ∧ version c' = version sample_context + 1
    ∧ heap w' !! 0%nat = Some sample_context
    ∧ ∀ k c0, heap sample_store !! k = Some c0 → heap w' !! k = Some c0.
Proof.
  apply (C3_update_is_not_destructive (new_ContextManager None) sample_store
           0%nat sample_context no_updates).
  - reflexivity.
  - intros k _ Heq. cbn in Heq. discriminate Heq.
Defined.

(** With a positive limit the recent results are a bounded queue: the
    merged list is the tail of [existing ++ additions] of at most
    [maxRecentResults] elements. *)
Lemma mergeResults_bounded_fifo (m : ContextManager)
    (existing additions : list ToolResult) :
  0 < maxRecentResults m →
  mergeResults m existing additions
  = drop (length (existing ++ additions) - Z.to_nat (maxRecentResults m))%nat
         (existing ++ additions)
  ∧ Z.of_nat (length (mergeResults m existing additions))
    ≤ maxRecentResults m.
Proof.
  intros Hpos. unfold mergeResults, Array_slice.
  set (combined := existing ++ additions).
  destruct (Z.gtb_spec (Z.of_nat (length combined)) (maxRecentResults m))
    as [Hgt|Hle].
  - rewrite (proj2 (Z.ltb_lt _ _)) by lia.
    replace (Z.to_nat (Z.max (Z.of_nat (length combined)
                              + - maxRecentResults m) 0))
      with (length combined - Z.to_nat (maxRecentResults m))%nat by lia.
    split; [done|]. rewrite length_drop. lia.
  - replace (length combined - Z.to_nat (maxRecentResults m))%nat
      with 0%nat by lia.
    split; [done|lia].
Qed.

(** C8 at the limit 0. A manager built with [maxRecentResults: 0] keeps
    every result: [combined.slice(-0)] is the whole array, so the list
    handed back by [mergeResults] is [existing ++ additions], and an
    update that adds one result to a context without results returns a
    context with one recent result, above the limit of 0. *)
Theorem C8_limit_zero_keeps_every_result :
  (∀ existing additions : list ToolResult,
     mergeResults (new_ContextManager (Some 0)) existing additions
     = existing ++ additions)
  ∧ ∃ m' w' c',
      update 0%nat
        {| u_memoryRefs := None; addResults := Some [sample_result 7];
           addFacts := None; addConstraints := None; plan := None;
           u_workspace := None |}
        (new_ContextManager (Some 0)) sample_store
      = (Ok 1%nat, m', w')
      ∧ heap w' !! 1%nat = Some c'
      ∧ recentResults c' = [sample_result 7]
      ∧ ¬ (Z.of_nat (length (recentResults c'))
           ≤ maxRecentResults (new_ContextManager (Some 0))).
Proof.
  split.
  - intros existing additions. unfold mergeResults, Array_slice. cbn.
    destruct (Z.of_nat (length (existing ++ additions)) >? 0); [|done].
    rewrite Z.min_l by lia. done.
  - eexists _, _, _. split; [|split; [|split]].
    + vm_compute. reflexivity.
    + reflexivity.
    + reflexivity.
    + cbn. lia.
Qed.

Lemma mergeFacts_set_all (existing additions : list ContextFact) :
  mergeFacts existing additions
  = JsMap.values (JsMap.set_all statement (JsMap.set_all statement [] existing) additions).
Proof. reflexivity. Qed.

Lemma merged_keyed (existing additions : list ContextFact) :
  JsMap.keyed statement (JsMap.set_all statement (JsMap.set_all statement [] existing) additions).
Proof. do 2 apply keyed_set_all. constructor. Qed.

Lemma merged_NoDup (existing additions : list ContextFact) :
  NoDup (JsMap.keys
           (JsMap.set_all statement (JsMap.set_all statement [] existing) additions)).
Proof. do 2 apply NoDup_keys_set_all. apply NoDup_nil_2. Qed.

Lemma mergeFacts_filter (existing additions : list ContextFact) (s : string) :
  filter (λ g, statement g = s) (mergeFacts existing additions)
  = match JsMap.latest statement additions s with
    | Some f => [f]
    | None => filter (λ g, statement g = s) (mergeFacts existing [])
    end.
Proof.
  rewrite !mergeFacts_set_all.
  rewrite !(filter_values statement)
    by first [apply merged_keyed | apply merged_NoDup].
  rewrite get_set_all. by destruct (JsMap.latest statement additions s).
Qed.

Lemma mergeFacts_NoDup (existing additions : list ContextFact) :
  NoDup (statement <$> mergeFacts existing additions).
Proof.
  rewrite mergeFacts_set_all.
  set (m := JsMap.set_all statement (JsMap.set_all statement [] existing) additions).
  assert (JsMap.keyed statement m) as Hk by apply merged_keyed.
  assert (NoDup (JsMap.keys m)) as Hnd by apply merged_NoDup.
  replace (statement <$> JsMap.values m) with (JsMap.keys m); [done|].
  unfold JsMap.values, JsMap.keys. clear Hnd.
  induction m as [|[k v] m IH]; [done|].
  apply Forall_cons in Hk as [Hkv Hk]. cbn in *. by rewrite IH, Hkv.
Qed.

Lemma mergeFacts_idempotent (existing additions : list ContextFact) :
  mergeFacts (mergeFacts existing additions) additions
  = mergeFacts existing additions.
Proof.
  rewrite (mergeFacts_set_all (mergeFacts existing additions)).
  rewrite mergeFacts_set_all.
  set (m0 := JsMap.set_all statement [] existing).
  set (m := JsMap.set_all statement m0 additions).
  assert (JsMap.keyed statement m) as Hk by apply merged_keyed.
  assert (NoDup (JsMap.keys m)) as Hnd by apply merged_NoDup.
  rewrite (set_all_values statement [] m) by done. cbn [app].
  f_equal. symmetry. apply (map_ext m).
  - done.
  - symmetry. apply keys_set_all_present.
    intros x Hx. by apply keys_set_all_added.
  - intros k. rewrite get_set_all. subst m. rewrite get_set_all.
    by destruct (JsMap.latest statement additions k).
Qed.

Lemma mergeFacts_replaces (existing : list ContextFact) (f : ContextFact) :
  statement f ∈ statement <$> existing →
  length (mergeFacts existing [f]) = length (mergeFacts existing []).
Proof.
  intros Hin. rewrite !mergeFacts_set_all. unfold JsMap.values.
  rewrite !length_fmap.
  change (JsMap.set_all statement (JsMap.set_all statement [] existing) [])
    with (JsMap.set_all statement [] existing).
  rewrite set_all_cons.
  change (JsMap.set_all statement ?m []) with m.
  set (m := JsMap.set_all statement [] existing).
  rewrite <-(length_fmap fst (JsMap.set m (statement f) f)).
  rewrite <-(length_fmap fst m).
  change (length (JsMap.keys (JsMap.set m (statement f) f))
          = length (JsMap.keys m)).
  rewrite keys_set_present; [done|].
  apply list_elem_of_fmap in Hin as (g & -> & Hg).
  by apply keys_set_all_added.
Qed.

(** A list of facts with pairwise distinct statements is left as it is
    by a merge that adds nothing. *)
Lemma mergeFacts_tidy (existing : list ContextFact) :
  NoDup (statement <$> existing) → mergeFacts existing [] = existing.
Proof.
  intros Hnd. rewrite mergeFacts_set_all. cbn [JsMap.set_all foldl].
  by apply set_all_fresh.
Qed.

(** C9. [update] merges the facts it is given into those of the context
    by statement, the last one written winning.  The new context never
    holds two facts with the same statement; for a statement that occurs
    among the added facts it holds exactly one fact with it, the last
    such addition, and for any other statement what the old context
    gave; an added fact whose statement is already present takes the
    place of the old one, so the list does not grow; the same statement
    added twice in one update leaves the fact added last.  A second
    update, of the context the first one returned, merges in the same
    way over the facts of that context: a fact added then replaces the
    fact with its statement that the first update wrote, and adding the
    same list a second time changes nothing. *)
Theorem C9_facts_merge_by_statement (m : ContextManager) (w : World)
    (l : ContextRef) (c : MCPContext) (additions : list ContextFact) :
  heap w !! l = Some c →
  ∃ l1 c1 m1 w1,
    update l (adding_facts additions) m w = (Ok l1, m1, w1)
    ∧ heap w1 !! l1 = Some c1
    ∧ NoDup (statement <$> facts c1)
    ∧ (∀ s, filter (λ g, statement g = s) (facts c1)
            = match JsMap.latest statement additions s with
              | Some f => [f]
              | None => filter (λ g, statement g = s)
                               (mergeFacts (facts c) [])
              end)
    ∧ (∀ f, additions = [f] → statement f ∈ statement <$> facts c →
            length (facts c1) = length (mergeFacts (facts c) []))
    ∧ (∀ f1 f2, additions = [f1; f2] → statement f1 = statement f2 →
            filter (λ g, statement g = statement f2) (facts c1) = [f2])
    ∧ ∀ more, ∃ l2 c2 m2 w2,
        update l1 (adding_facts more) m1 w1 = (Ok l2, m2, w2)
        ∧ heap w2 !! l2 = Some c2
        ∧ NoDup (statement <$> facts c2)
        ∧ (∀ s, filter (λ g, statement g = s) (facts c2)
                = match JsMap.latest statement more s with
                  | Some f => [f]
                  | None => filter (λ g, statement g = s) (facts c1)
                  end)
        ∧ (∀ f, more = [f] → statement f ∈ statement <$> facts c1 →
                length (facts c2) = length (facts c1))
        ∧ (∀ f2, more = [f2] →
                filter (λ g, statement g = statement f2) (facts c2) = [f2])
        ∧ (more = additions → facts c2 = facts c1).
Proof.
  intros Hl.
  pose proof (mergeFacts_NoDup (facts c) additions) as Hnd.
  eexists _, _, _, _. split; [by apply update_spec|].
  split; [cbn; by apply list_lookup_middle|].
  cbn [facts updated_from adding_facts addFacts nullish].
  split; [exact Hnd|]. split; [apply mergeFacts_filter|].
  split; [intros f -> Hin; by apply mergeFacts_replaces|].
  split.
  { intros f1 f2 -> Heq. rewrite mergeFacts_filter. cbn [JsMap.latest].
    by rewrite decide_True. }
  intros more. eexists _, _, _, _.
  split; [apply update_spec; cbn; by apply list_lookup_middle|].
  split; [cbn; by apply list_lookup_middle|].
  cbn [facts updated_from adding_facts addFacts nullish].
  split; [apply mergeFacts_NoDup|].
  split.
  { intros s. rewrite mergeFacts_filter, (mergeFacts_tidy _ Hnd). done. }
  split.
  { intros f -> Hin. rewrite mergeFacts_replaces by done.
    by rewrite (mergeFacts_tidy _ Hnd). }
  split.
  { intros f2 ->. rewrite mergeFacts_filter. cbn [JsMap.latest].
    by rewrite decide_True. }
  intros ->. apply mergeFacts_idempotent.
Qed.

Lemma C9_facts_merge_by_statement_witness :
  ∃ l1 c1 m1 w1,
    update 0%nat
      (adding_facts [sample_fact "scan" (Q2Qc (1 # 2));
                     sample_fact "user" (Q2Qc (9 # 10))])
      (new_ContextManager None) sample_store = (Ok l1, m1, w1)
    ∧ heap w1 !! l1 = Some c1
    ∧ filter (λ g, statement g = "The project uses TypeScript") (facts c1)
      = [sample_fact "user" (Q2Qc (9 # 10))].
Proof.
  destruct (C9_facts_merge_by_statement (new_ContextManager None)
              sample_store 0%nat sample_context
              [sample_fact "scan" (Q2Qc (1 # 2));
               sample_fact "user" (Q2Qc (9 # 10))] eq_refl)
    as (l1 & c1 & m1 & w1 & Hu & Hh & _ & _ & _ & Htwice & _).
  exists l1, c1, m1, w1. split; [exact Hu|]. split; [exact Hh|].
  exact (Htwice _ _ eq_refl eq_refl).
Defined.

End ContextManagerProofs.

(** ** Tool registry *)

Module ToolRegistryProofs.
Import ToolRegistry.
Import ContextManagerSpec ToolRegistrySpec ToolRegistryOutcomes.

Lemma collect_missing (r : ToolRegistry) (required acc : list ToolPermission) :
  foldl (fun missing permission =>
           if negb (bool_decide (permission ∈ grantedPermissions (config r)))
           then missing ++ [permission]
           else missing)
        acc required
  = acc ++ ungranted r required.
Proof.
  unfold ungranted. revert acc.
  induction required as [|p required IH]; intros acc; cbn [foldl].
  - by rewrite app_nil_r.
  - rewrite IH, filter_cons.
    destruct (decide (p ∉ grantedPermissions (config r))) as [Hp|Hp].
    + rewrite bool_decide_eq_false_2 by done. cbn. by rewrite <-app_assoc.
    + apply dec_stable in Hp. by rewrite bool_decide_eq_true_2.
Qed.

Lemma checkPermissions_missing (r : ToolRegistry)
    (required : list ToolPermission) :
  missing (checkPermissions r required) = ungranted r required.
Proof. unfold checkPermissions. cbn [missing]. by rewrite collect_missing. Qed.

Lemma checkPermissions_valid (r : ToolRegistry)
    (required : list ToolPermission) :
  pc_valid (checkPermissions r required) = true
  ↔ ∀ p, p ∈ required → p ∈ grantedPermissions (config r).
Proof.
  pose proof (checkPermissions_missing r required) as Hm.
  unfold checkPermissions in *. cbn [pc_valid missing] in *.
  rewrite Hm, bool_decide_eq_true. unfold ungranted. split.
  - intros Hlen%nil_length_inv p Hp.
    destruct (decide (p ∈ grantedPermissions (config r))) as [|Hn]; [done|].
    assert (p ∈ filter (fun p => p ∉ grantedPermissions (config r)) required)
      as Hin by by apply list_elem_of_filter.
    rewrite Hlen in Hin. by apply elem_of_nil in Hin.
  - intros Hall.
    replace (filter (fun p => p ∉ grantedPermissions (config r)) required)
      with (@nil ToolPermission); [done|].
    symmetry. apply elem_of_nil_inv. intros p [Hn Hp]%list_elem_of_filter.
    by apply Hn, Hall.
Qed.

#[local] Arguments checkPermissions : simpl never.

(** C4. When the tool is registered and enabled but one of the
    permissions it declares is not among the granted ones, [invoke]
    returns a failed result whose error has code [PERMISSION_DENIED], is
    not recoverable, and whose message lists the missing permissions;
    no function of the tool is called ([calls] is as before: neither
    [execute] nor [validate] ran) and the registry is unchanged. *)
Theorem C4_ungranted_permission_is_denied (r : ToolRegistry) (w : World)
    (request : ToolInvocationRequest) (entry : ToolRegistryEntry)
    (p : ToolPermission) :
  tools r !! toolId request = Some entry →
  enabled entry = true →
  p ∈ permissions (definition entry) →
  p ∉ grantedPermissions (config r) →
  ∃ result w',
    invoke request r w = (Ok result, r, w')
    ∧ tr_success result = false
    ∧ tr_error result
      = Some {| te_code := "PERMISSION_DENIED";
                te_message :=
                  "Missing permissions: "
                  +:+ join ", " (ToolPermission_value
                                   <$> ungranted r (permissions (definition entry)));
                te_recoverable := false;
                te_suggestions := [] |}
    ∧ p ∈ ungranted r (permissions (definition entry))
    ∧ calls w' = calls w
    ∧ (∀ input, call_execute (toolId request) input ∈ calls w'
                → call_execute (toolId request) input ∈ calls w).
Proof.
  intros Hentry Hen Hp Hng.
  assert (pc_valid (checkPermissions r (permissions (definition entry)))
          = false) as Hdenied.
  { apply not_true_is_false. rewrite checkPermissions_valid.
    intros Hall. by apply Hng, Hall. }
  exists {| tr_id := uuids w (draws w);
            tr_toolId := toolId request;
            tr_success := false;
            tr_data := None;
            tr_error := Some
              {| te_code := "PERMISSION_DENIED";
                 te_message :=
                   "Missing permissions: "
                   +:+ join ", " (ToolPermission_value
                                    <$> ungranted r (permissions (definition entry)));
                 te_recoverable := false;
                 te_suggestions := [] |};
            tr_durationMs := clock w (S (ticks w)) - clock w (ticks w);
            tr_completedAt := clock w (S (S (ticks w))) |},
         (after_invoke w 3).
  split.
  - unfold invoke, bind, gets, uuidv4, Date_now. cbn.
    rewrite Hentry, Hen. cbn. rewrite Hdenied. cbn.
    by rewrite checkPermissions_missing.
  - repeat split; try done. by apply list_elem_of_filter.
Qed.

Lemma C4_ungranted_permission_is_denied_witness :
  ∃ result w',
    invoke (sample_request "test.write_file") sample_registry.1
      sample_registry.2 = (Ok result, sample_registry.1, w')
    ∧ error_code result = Some "PERMISSION_DENIED"
    ∧ (te_message <$> tr_error result)
      = Some "Missing permissions: FILE_WRITE"
    ∧ calls w' = calls sample_registry.2.
Proof.
  assert (tools sample_registry.1 !! "test.write_file"
          = Some {| definition := writeFileTool; registeredAt := 1001;
                    enabled := true; invocationCount := 0;
                    lastInvokedAt := None; averageDurationMs := 0%Qc |})
    as Hentry by (vm_compute; reflexivity).
  destruct (C4_ungranted_permission_is_denied sample_registry.1
              sample_registry.2 (sample_request "test.write_file") _
              FILE_WRITE Hentry eq_refl)
    as (result & w' & Hinvoke & _ & Herror & _ & Hcalls & _).
  - by left.
  - by intros ?%elem_of_nil.
  - exists result, w'. unfold error_code. rewrite Herror.
    repeat split; [exact Hinvoke|exact Hcalls].
Defined.

(** The file writer of the sample registry, invoked without the
    permission it needs. *)
Lemma denied_invocation :
  (invoke (sample_request "test.write_file") sample_registry.1
     sample_registry.2).1.2 = sample_registry.1
  ∧ (error_code <$> result_of
       (invoke (sample_request "test.write_file") sample_registry.1
          sample_registry.2).1.1) = Some (Some "PERMISSION_DENIED")
  ∧ tools sample_registry.1 !! "test.write_file"
    = Some {| definition := writeFileTool; registeredAt := 1001;
              enabled := true; invocationCount := 0;
              lastInvokedAt := None; averageDurationMs := 0%Qc |}.
Proof. vm_compute. done. Qed.

(** Counterexample to C5 as stated: invoking the file writer without the
    permission it needs ends with [PERMISSION_DENIED] and leaves its
    entry as it was, with an invocation count of 0 and no last-invoked
    time. *)
Lemma C5_denied_invocation_is_not_counted :
  (error_code <$> result_of
     (invoke (sample_request "test.write_file") sample_registry.1
        sample_registry.2).1.1) = Some (Some "PERMISSION_DENIED")
  ∧ (invocationCount <$> getMetrics sample_registry.1 "test.write_file")
    = Some 0
  ∧ (invocationCount <$>
       getMetrics (invoke (sample_request "test.write_file")
                     sample_registry.1 sample_registry.2).1.2
                  "test.write_file")
    = Some 0
  ∧ (lastInvokedAt <$>
       getMetrics (invoke (sample_request "test.write_file")
                     sample_registry.1 sample_registry.2).1.2
                  "test.write_file")
    = Some None
  ∧ ¬ metrics_updated_on_every_path.
Proof.
  destruct denied_invocation as (Hsame & Hcode & Hentry).
  split; [exact Hcode|].
  unfold getMetrics. rewrite Hsame, Hentry. repeat (split; [done|]).
  intros Hclaim.
  destruct (Hclaim _ sample_registry.2 (sample_request "test.write_file") _
              Hentry) as (entry' & Hafter & Hcount).
  rewrite Hsame in Hafter.
  change (toolId (sample_request "test.write_file"))
    with "test.write_file" in Hafter.
  rewrite Hentry in Hafter. injection Hafter as <-. done.
Qed.

(** ** The paths of [invoke] for a registered tool *)

Lemma invoke_disabled (r : ToolRegistry) (w : World)
    (request : ToolInvocationRequest) (entry : ToolRegistryEntry) :
  tools r !! toolId request = Some entry →
  enabled entry = false →
  invoke request r w
  = (Ok (given_up w request "TOOL_DISABLED"
           ("Tool '" +:+ toolId request +:+ "' is currently disabled") true),
     r, after_invoke w 3).
Proof.
  intros Hentry Hoff. destruct r as [ts cfg em]. cbn in Hentry.
  unfold invoke, createErrorResult, bind, gets, ret, createTimestamp,
    uuidv4, Date_now, lift, tick, draw.
  cbn. rewrite Hentry. cbn. rewrite Hoff. reflexivity.
Qed.

Lemma invoke_denied (r : ToolRegistry) (w : World)
    (request : ToolInvocationRequest) (entry : ToolRegistryEntry) :
  tools r !! toolId request = Some entry →
  enabled entry = true →
  ungranted r (permissions (definition entry)) ≠ [] →
  invoke request r w
  = (Ok (given_up w request "PERMISSION_DENIED"
           ("Missing permissions: "
            +:+ join ", " (ToolPermission_value
                             <$> ungranted r (permissions (definition entry))))
           false),
     r, after_invoke w 3).
Proof.
  intros Hentry Hen Hmissing.
  assert (pc_valid (checkPermissions r (permissions (definition entry)))
          = false) as Hdenied.
  { pose proof (checkPermissions_missing r (permissions (definition entry)))
      as Hm.
    unfold checkPermissions in *. cbn [pc_valid missing] in *. rewrite Hm.
    apply bool_decide_eq_false_2. by intros ?%nil_length_inv. }
  unfold invoke, bind, gets, uuidv4, Date_now. cbn.
  rewrite Hentry, Hen. cbn. rewrite Hdenied. cbn.
  by rewrite checkPermissions_missing.
Qed.

Lemma admitted_granted (r : ToolRegistry) (request : ToolInvocationRequest)
    (entry : ToolRegistryEntry) :
  admitted r request entry →
  pc_valid (checkPermissions r (permissions (definition entry))) = true.
Proof. intros (_ & _ & Hall). by apply checkPermissions_valid. Qed.

(** The steps of [invoke] up to the validation, for an admitted
    request. *)
#[local] Ltac enter_invoke Hadm :=
  let Hgranted := fresh "Hgranted" in
  pose proof (admitted_granted _ _ _ Hadm) as Hgranted;
  destruct Hadm as (Hentry & Hen & _); cbn in Hentry;
  unfold invoke, bind, gets, uuidv4, Date_now; cbn;
  rewrite Hentry, Hen; cbn; rewrite Hgranted; cbn.

(** The validation step of [invoke], by what [validation_result] says. *)
#[local] Ltac enter_validation request entry Hval :=
  unfold validation_result, validation_calls, validator_of in *;
  unfold validateInput, external, bind, await, ret, throw in *;
  destruct (skipValidation request) as [[|]|];
    [rewrite bool_decide_eq_false_2 by (intros Hne; by apply Hne)
    |rewrite bool_decide_eq_true_2 by done
    |rewrite bool_decide_eq_true_2 by done];
  destruct (validate (definition entry)) as [validator|];
  unfold at_call in *; cbn in Hval |- *;
  try (injection Hval as <-); try discriminate;
  try (rewrite Hval; cbn).

Lemma invoke_invalid (r : ToolRegistry) (w : World)
    (request : ToolInvocationRequest) (entry : ToolRegistryEntry)
    (v : ValidationResult) :
  admitted r request entry →
  validation_result request (definition entry) (at_call w []) = Ok v →
  vr_valid v = false →
  invoke request r w
  = (Ok (given_up w request "VALIDATION_FAILED"
           ("Input validation failed: "
            +:+ join ", " (ve_message <$> errors v)) true),
     r,
     after_calls w 3
       [call_validate (td_id (definition entry)) (input request)]).
Proof.
  intros Hadm Hval Hinvalid. destruct r as [ts cfg em].
  enter_invoke Hadm. enter_validation request entry Hval.
  all: rewrite Hinvalid; reflexivity.
Qed.

Lemma invoke_validator_throws (r : ToolRegistry) (w : World)
    (request : ToolInvocationRequest) (entry : ToolRegistryEntry)
    (error : Thrown) :
  admitted r request entry →
  validation_result request (definition entry) (at_call w []) = Throw error →
  invoke request r w
  = (Throw error, r,
     after_calls w 1
       [call_validate (td_id (definition entry)) (input request)]).
Proof.
  intros Hadm Hval. destruct r as [ts cfg em].
  enter_invoke Hadm. enter_validation request entry Hval.
  all: reflexivity.
Qed.

(** The steps of [invoke] up to the call of [execute], for a request
    that is ready. *)
#[local] Ltac enter_execution request entry Hready :=
  let Hadm := fresh "Hadm" in
  let Hctx := fresh "Hctx" in
  let v := fresh "v" in
  let Hval := fresh "Hval" in
  let Hvalid := fresh "Hvalid" in
  destruct Hready as (Hadm & Hctx & v & Hval & Hvalid);
  unfold the_execution, made_calls, after_failure, after_completion,
    execution_context, timeout_of, given_up, error_result, after_calls,
    in_time in *;
  enter_invoke Hadm; enter_validation request entry Hval;
  try (rewrite Hvalid; cbn);
  unfold createExecutionContext, deref, bind, ret, emit, modify, gets,
    try_catch, executeWithTimeout, external, createErrorResult,
    createTimestamp, Date_now, lift, updateMetrics, throw in *;
  cbn in *; rewrite Hctx; cbn.

Lemma invoke_timed_out (r : ToolRegistry) (w : World)
    (request : ToolInvocationRequest) (entry : ToolRegistryEntry)
    (c : MCPContext) :
  ready r request entry c w →
  timed_out (the_execution request entry c w) (timeout_of r request) = true →
  let result :=
    given_up w request "EXECUTION_ERROR"
      ("Tool execution timed out after "
       +:+ pretty (timeout_of r request) +:+ "ms") true in
  invoke request r w
  = (Ok result,
     after_failure r request (uuids w (draws w)) result,
     after_calls w 3 (made_calls request entry)).
Proof.
  intros Hready Hlate. destruct r as [ts cfg em].
  enter_execution request entry Hready.
  all: match goal with
       | H : timed_out ?s _ = true |- _ =>
           destruct s as [after result|after error|error|];
           unfold timed_out, in_time in H; cbn in H |- *;
           try discriminate;
           try (apply negb_true_iff in H; rewrite H; cbn)
       end.
  all: reflexivity.
Qed.

Lemma invoke_breaks (r : ToolRegistry) (w : World)
    (request : ToolInvocationRequest) (entry : ToolRegistryEntry)
    (c : MCPContext) (error : Thrown) :
  ready r request entry c w →
  breaks_with (the_execution request entry c w) (timeout_of r request)
  = Some error →
  let result :=
    given_up w request "EXECUTION_ERROR" (error_message error) true in
  invoke request r w
  = (Ok result,
     after_failure r request (uuids w (draws w)) result,
     after_calls w 3 (made_calls request entry)).
Proof.
  intros Hready Hbreaks. destruct r as [ts cfg em].
  enter_execution request entry Hready.
  all: match goal with
       | H : breaks_with ?s _ = Some _ |- _ =>
           destruct s as [after result|after err|err|];
           unfold breaks_with, in_time in H; cbn in H |- *;
           try discriminate;
           try (destruct ((after <=? 0) || (after <? _)); cbn in H |- *;
                try discriminate);
           injection H as ->
       end.
  all: reflexivity.
Qed.

Lemma invoke_fulfilled (r : ToolRegistry) (w : World)
    (request : ToolInvocationRequest) (entry : ToolRegistryEntry)
    (c : MCPContext) (result : ToolResult) :
  ready r request entry c w →
  fulfils_with (the_execution request entry c w) (timeout_of r request)
  = Some result →
  invoke request r w
  = (Ok result,
     after_completion r request entry (uuids w (draws w)) result
       (clock w (S (ticks w)) - clock w (ticks w))
       (clock w (S (S (ticks w)))),
     after_calls w 3 (made_calls request entry)).
Proof.
  intros Hready Hfulfils. destruct r as [ts cfg em].
  enter_execution request entry Hready.
  all: match goal with
       | H : fulfils_with ?s _ = Some _ |- _ =>
           destruct s as [after res|after err|err|];
           unfold fulfils_with, in_time in H; cbn in H |- *;
           try discriminate;
           try (destruct ((after <=? 0) || (after <? _)); cbn in H |- *;
                try discriminate);
           injection H as ->
       end.
  all: unfold with_metrics; rewrite Hen; reflexivity.
Qed.

(** A call of [execute] ends in exactly one of three ways: the timer
    fires first, the call breaks off with an error, or it is fulfilled
    with a result. *)
Lemma settlement_cases (s : Settlement) (timeoutMs : Z) :
  (timed_out s timeoutMs = true
   ∧ breaks_with s timeoutMs = None ∧ fulfils_with s timeoutMs = None)
  ∨ (∃ error, breaks_with s timeoutMs = Some error
              ∧ timed_out s timeoutMs = false
              ∧ fulfils_with s timeoutMs = None)
  ∨ (∃ result, fulfils_with s timeoutMs = Some result
               ∧ timed_out s timeoutMs = false
               ∧ breaks_with s timeoutMs = None).
Proof.
  destruct s as [after result|after error|error|]; cbn;
    try destruct (in_time after timeoutMs); cbn; eauto 10.
Qed.

(** C5, amended. Every path of [invoke] for a registered tool, with the
    result it returns and the registry it leaves.  The metrics of the
    tool are updated on one path only, the one on which the promise of
    [execute] is fulfilled before the timer fires: the result of the
    tool is returned, [tool:completed] is emitted, and the entry stored
    under the tool's id has one more invocation, the current time as
    last-invoked time and the average
    [(oldAvg * oldCount + thisDuration) / newCount], where the duration
    runs from the start of [invoke] to the end of the execution.  On
    every other path the table of tools is left as it was: the tool is
    disabled ([TOOL_DISABLED]); a declared permission is not granted
    ([PERMISSION_DENIED]); the validator finds the input invalid
    ([VALIDATION_FAILED]) or throws, in which case [invoke] throws the
    same error; the timer fires first, the promise is rejected or the
    call throws ([EXECUTION_ERROR], with [tool:failed] emitted).  The
    three ways an execution ends exclude each other and leave no
    other. *)
Theorem C5_metrics_updated_on_completion (r : ToolRegistry) (w : World)
    (request : ToolInvocationRequest) (entry : ToolRegistryEntry) :
  tools r !! toolId request = Some entry →
  let executionId := uuids w (draws w) in
  let thisDuration := clock w (S (ticks w)) - clock w (ticks w) in
  let now := clock w (S (S (ticks w))) in
  (enabled entry = false →
     invoke request r w
     = (Ok (given_up w request "TOOL_DISABLED"
              ("Tool '" +:+ toolId request +:+ "' is currently disabled")
              true),
        r, after_invoke w 3))
  ∧ (enabled entry = true →
     ungranted r (permissions (definition entry)) ≠ [] →
     invoke request r w
     = (Ok (given_up w request "PERMISSION_DENIED"
              ("Missing permissions: "
               +:+ join ", "
                     (ToolPermission_value
                        <$> ungranted r (permissions (definition entry))))
              false),
        r, after_invoke w 3))
  ∧ (admitted r request entry →
     (∀ v,
        validation_result request (definition entry) (at_call w []) = Ok v →
        vr_valid v = false →
        invoke request r w
        = (Ok (given_up w request "VALIDATION_FAILED"
                 ("Input validation failed: "
                  +:+ join ", " (ve_message <$> errors v)) true),
           r,
           after_calls w 3
             [call_validate (td_id (definition entry)) (input request)]))
     ∧ (∀ error,
          validation_result request (definition entry) (at_call w [])
          = Throw error →
          invoke request r w
          = (Throw error, r,
             after_calls w 1
               [call_validate (td_id (definition entry)) (input request)])))
  ∧ (∀ c, ready r request entry c w →
     let execution := the_execution request entry c w in
     let timeoutMs := timeout_of r request in
     (timed_out execution timeoutMs = true →
        let result :=
          given_up w request "EXECUTION_ERROR"
            ("Tool execution timed out after " +:+ pretty timeoutMs +:+ "ms")
            true in
        invoke request r w
        = (Ok result, after_failure r request executionId result,
           after_calls w 3 (made_calls request entry)))
     ∧ (∀ error, breaks_with execution timeoutMs = Some error →
          let result :=
            given_up w request "EXECUTION_ERROR" (error_message error) true in
          invoke request r w
          = (Ok result, after_failure r request executionId result,
             after_calls w 3 (made_calls request entry)))
     ∧ (∀ result, fulfils_with execution timeoutMs = Some result →
          invoke request r w
          = (Ok result,
             after_completion r request entry executionId result
               thisDuration now,
             after_calls w 3 (made_calls request entry))
          ∧ getMetrics
              (after_completion r request entry executionId result
                 thisDuration now)
              (td_id (definition entry))
            = Some
                {| definition := definition entry;
                   registeredAt := registeredAt entry;
                   enabled := enabled entry;
                   invocationCount := invocationCount entry + 1;
                   lastInvokedAt := Some now;
                   averageDurationMs :=
                     ((averageDurationMs entry
                       * Q2Qc (inject_Z (invocationCount entry))
                       + Q2Qc (inject_Z thisDuration))
                      / Q2Qc (inject_Z (invocationCount entry + 1)))%Qc |})
     ∧ ((timed_out execution timeoutMs = true
         ∧ breaks_with execution timeoutMs = None
         ∧ fulfils_with execution timeoutMs = None)
        ∨ (∃ error, breaks_with execution timeoutMs = Some error
                    ∧ timed_out execution timeoutMs = false
                    ∧ fulfils_with execution timeoutMs = None)
        ∨ (∃ result, fulfils_with execution timeoutMs = Some result
                     ∧ timed_out execution timeoutMs = false
                     ∧ breaks_with execution timeoutMs = None))).
Proof.
  intros Hentry executionId thisDuration now.
  split; [by apply invoke_disabled|].
  split; [by apply invoke_denied|].
  split.
  { intros Hadm. split.
    - intros v. by apply invoke_invalid.
    - intros error. by apply invoke_validator_throws. }
  intros c Hready execution timeoutMs.
  split; [exact (invoke_timed_out r w request entry c Hready)|].
  split.
  { intros error. exact (invoke_breaks r w request entry c error Hready). }
  split; [|apply settlement_cases].
  intros result Hfulfils.
  split.
  { exact (invoke_fulfilled r w request entry c result Hready Hfulfils). }
  unfold getMetrics, after_completion. cbn [tools].
  by rewrite lookup_insert_eq.
Qed.

Lemma sample_echo_ready :
  ready sample_registry.1 (sample_request "test.echo")
    {| definition := echoTool; registeredAt := 1000; enabled := true;
       invocationCount := 0; lastInvokedAt := None;
       averageDurationMs := 0%Qc |}
    sample_context sample_registry.2.
Proof.
  split; [|split; [reflexivity|]].
  - split; [vm_compute; reflexivity|]. split; [reflexivity|].
    intros p Hp. by apply elem_of_nil in Hp.
  - exists validationSuccess. split; reflexivity.
Qed.

Lemma C5_metrics_updated_on_completion_witness :
  let entry :=
    {| definition := echoTool; registeredAt := 1000; enabled := true;
       invocationCount := 0; lastInvokedAt := None;
       averageDurationMs := 0%Qc |} in
  ∃ result,
    invoke (sample_request "test.echo") sample_registry.1 sample_registry.2
    = (Ok result,
       after_completion sample_registry.1 (sample_request "test.echo") entry
         "uuid-0" result 1 1004,
       after_calls sample_registry.2 3
         (made_calls (sample_request "test.echo") entry))
    ∧ tr_success result = true.
Proof.
  intros entry.
  destruct (C5_metrics_updated_on_completion sample_registry.1
              sample_registry.2 (sample_request "test.echo") entry)
    as (_ & _ & _ & Hrun); [vm_compute; reflexivity|].
  destruct (Hrun sample_context sample_echo_ready) as (_ & _ & Hdone & _).
  eexists. split; [apply Hdone; reflexivity|reflexivity].
Defined.

(** The echo tool, invoked once, has been counted once, and its average
    duration is the duration of that invocation (1 ms on the sample
    clock). *)
Lemma echo_invoked_once :
  let after := (invoke (sample_request "test.echo") sample_registry.1
                  sample_registry.2).1.2 in
  (invocationCount <$> getMetrics after "test.echo") = Some 1
  ∧ (lastInvokedAt <$> getMetrics after "test.echo") = Some (Some 1004)
  ∧ ((fun e => this (averageDurationMs e)) <$> getMetrics after "test.echo")
    = Some (1 # 1)%Q.
Proof. vm_compute. done. Qed.

End ToolRegistryProofs.

(** ** Decision loop *)

Module DecisionLoopProofs.
Import Lifecycle ContextManager ToolRegistry DecisionLoop.
Import LifecycleSpec ContextManagerSpec ToolRegistrySpec DecisionLoopSpec.
Import LifecycleProofs ContextManagerProofs ToolRegistryProofs.




#[local] Arguments update : simpl never.
#[local] Arguments invoke : simpl never.
#[local] Arguments transition : simpl never.
#[local] Arguments Lifecycle.fail : simpl never.
#[local] Arguments String.append : simpl never.



#[local] Arguments executeActingPhase : simpl never.




#[local] Arguments main_loop : simpl never.




End DecisionLoopProofs.

(** * The rest of the core *)

Module LifecycleExtras.
Import Lifecycle LifecycleSpec LifecycleTrail.

#[local] Ltac by_cases_on c :=
  destruct c as [? [] ? ? ? ? ? [?|] ?];
  vm_compute; try discriminate; intros;
  first [reflexivity
        | eexists _, _; repeat split;
          first [reflexivity | symmetry; apply app_nil_r]].

(** X1. [resume] is accepted only in phase SUSPENDED, where it moves the
    controller to PLANNING and counts one step; in every other phase it
    throws ["Can only resume from SUSPENDED state"] and leaves the
    controller and the world as they were. *)
Theorem X1_resume_only_from_suspended (c : LifecycleController) (w : World)
    (why : string) :
  if decide (currentPhase c = SUSPENDED)
  then ∃ c' w',
         resume why c w = (Ok tt, c', w')
         ∧ currentPhase c' = PLANNING
         ∧ previousPhase c' = Some SUSPENDED
         ∧ stepNumber c' = stepNumber c + 1
         ∧ phaseHistory c' = phaseHistory c ++ exited c (clock w (ticks w))
  else resume why c w
       = (Throw (ErrorObj "Can only resume from SUSPENDED state"), c, w).
Proof. by_cases_on c. Qed.

(** X2. [complete] is accepted only in phase REFLECTING, where it moves
    the controller to COMPLETE, which is terminal; in every other phase
    it throws ["Cannot complete from phase ..."] and leaves the
    controller and the world as they were. *)
Theorem X2_complete_only_from_reflecting (c : LifecycleController)
    (w : World) (why : string) :
  if decide (currentPhase c = REFLECTING)
  then ∃ c' w',
         complete why c w = (Ok tt, c', w')
         ∧ currentPhase c' = COMPLETE
         ∧ isTerminal c' = true
         ∧ previousPhase c' = Some REFLECTING
         ∧ stepNumber c' = stepNumber c + 1
  else complete why c w
       = (Throw (ErrorObj ("Cannot complete from phase '"
                           +:+ AgentPhase_value (currentPhase c) +:+ "'")),
          c, w).
Proof. by_cases_on c. Qed.

(** X3. [fail] goes round the table: from every phase that is not
    terminal, also from IDLE which has no FAILED edge, it puts the
    controller in FAILED, remembers the phase it left, closes the open
    history entry, opens an entry with the given reason and emits the
    transition; the step counter is not advanced. *)
Theorem X3_fail_is_forced (c : LifecycleController) (w : World)
    (why : string) :
  if isTerminal c then fail why c w = (Ok tt, c, w)
  else ∃ c' w',
      fail why c w = (Ok tt, c', w')
      ∧ currentPhase c' = FAILED
      ∧ previousPhase c' = Some (currentPhase c)
      ∧ stepNumber c' = stepNumber c
      ∧ phaseHistory c' = phaseHistory c ++ exited c (clock w (ticks w))
      ∧ lastTransitionAt c' = clock w (transition_tick c w)
      ∧ currentPhaseEntry c'
        = Some {| phase := FAILED; entryStepNumber := stepNumber c;
                  enteredAt := clock w (entry_tick c w);
                  exitedAt := None; reason := why |}
      ∧ emitted c'
        = phase_enter FAILED
            {| pm_enteredAt := clock w (entry_tick c w);
               pm_stepNumber := stepNumber c; pm_reason := why;
               pm_data := [("forced", JBool true)] |}
          :: transition_ev (currentPhase c) FAILED why
          :: exit_events c ++ emitted c.
Proof. by_cases_on c. Qed.

(** X4. What a transition of the table does besides changing the phase:
    it remembers the phase it left, advances the step counter by one
    unless the target is SUSPENDED, appends the entry of the phase it
    left to the history with its exit time, opens the entry of the new
    phase at the new step number, and emits [phase:exit], [transition]
    and [phase:enter] in this order. *)
Theorem X4_transition_effects (c : LifecycleController) (w : World)
    (t : AgentPhase) (why : string) (data : JsRecord) :
  canTransition c t = true →
  ∃ c' w',
    transition t why data c w = (Ok tt, c', w')
    ∧ previousPhase c' = Some (currentPhase c)
    ∧ stepNumber c'
      = (if decide (t = SUSPENDED) then stepNumber c else stepNumber c + 1)
    ∧ phaseHistory c' = phaseHistory c ++ exited c (clock w (ticks w))
    ∧ currentPhaseEntry c'
      = Some {| phase := t; entryStepNumber := stepNumber c';
                enteredAt := clock w (entry_tick c w);
                exitedAt := None; reason := why |}
    ∧ lastTransitionAt c' = clock w (transition_tick c w)
    ∧ emitted c'
      = phase_enter t
          {| pm_enteredAt := clock w (entry_tick c w);
             pm_stepNumber := stepNumber c'; pm_reason := why;
             pm_data := data |}
        :: transition_ev (currentPhase c) t why
        :: exit_events c ++ emitted c.
Proof. destruct t; by_cases_on c. Qed.

Lemma X4_transition_effects_witness :
  ∃ c' w',
    transition PLANNING "Beginning task execution" []
      (new_LifecycleController None sample_world).1
      (new_LifecycleController None sample_world).2 = (Ok tt, c', w')
    ∧ previousPhase c' = Some IDLE
    ∧ stepNumber c' = 1.
Proof.
  destruct (X4_transition_effects
              (new_LifecycleController None sample_world).1
              (new_LifecycleController None sample_world).2
              PLANNING "Beginning task execution" [] eq_refl)
    as (c' & w' & Ht & Hprev & Hstep & _).
  exists c', w'. repeat split; assumption.
Defined.

Lemma chain_snoc (l : list AgentPhase) (p q : AgentPhase) :
  chain (l ++ [p]) → legal_step p q = true → chain ((l ++ [p]) ++ [q]).
Proof.
  induction l as [|a [|b l] IH]; cbn; intros H Hpq.
  - done.
  - destruct H. done.
  - destruct H as [Hab H]. split; [done|]. apply IH; done.
Qed.

Lemma head_snoc {A} (l : list A) (x y : A) :
  head (l ++ [x]) = head ((l ++ [x]) ++ [y]).
Proof. destruct l; reflexivity. Qed.

(** A call either leaves the phase, the history and the counter alone,
    or makes one legal step. *)
Lemma perform_step (k : Call) (c : LifecycleController) (w : World)
    (e : PhaseHistoryEntry) :
  currentPhaseEntry c = Some e →
  let c' := (perform k c w).1.2 in
  (currentPhase c' = currentPhase c ∧ previousPhase c' = previousPhase c
   ∧ stepNumber c' = stepNumber c ∧ phaseHistory c' = phaseHistory c
   ∧ currentPhaseEntry c' = Some e)
  ∨ (∃ t e',
      legal_step (currentPhase c) (currentPhase c') = true
      ∧ previousPhase c' = Some (currentPhase c)
      ∧ (stepNumber c' = stepNumber c ∨ stepNumber c' = stepNumber c + 1)
      ∧ phaseHistory c' = phaseHistory c ++ [closed e t]
      ∧ currentPhaseEntry c' = Some e'
      ∧ phase e' = currentPhase c'
      ∧ entryStepNumber e' = stepNumber c'
      ∧ exitedAt e' = None).
Proof.
  destruct c as [sid p prev n hist st lt oe em]. cbn [currentPhaseEntry].
  intros ->.
  destruct k as [t ? ?| | | |]; try destruct t; destruct p; vm_compute;
    first [left; repeat split; reflexivity
          | right; eexists _, _; repeat split; (reflexivity || (left; reflexivity) || (right; reflexivity))].
Qed.

Lemma audited_new (sid : option UniqueId) (w : World) :
  audited (new_LifecycleController sid w).1.
Proof.
  destruct sid; vm_compute; repeat split; try discriminate;
    eexists; repeat split.
Qed.

Lemma audited_perform (k : Call) (c : LifecycleController) (w : World) :
  audited c → audited (perform k c w).1.2.
Proof.
  intros (Hhead & Hchain & Hprev & Hn & e & He & Hphase & Hstep & Hopen).
  destruct (perform_step k c w e He) as
    [(Hp & Hq & Hs & Hh & Hc)
    |(t & e' & Hlegal & Hq & Hs & Hh & Hc & Hp' & Hs' & Ho')];
    unfold audited, trail in *.
  - rewrite Hp, Hq, Hs, Hh, Hc. eauto 10.
  - rewrite Hq, Hh, Hc, fmap_app, length_app.
    cbn [fmap list_fmap closed phase length]. rewrite last_snoc.
    rewrite Hphase.
    split; [rewrite <- head_snoc; exact Hhead|].
    split; [apply chain_snoc; assumption|].
    split; [reflexivity|].
    split; [destruct Hs as [-> | ->]; lia|].
    eauto.
Qed.

Lemma audited_perform_all (ks : list Call) (c : LifecycleController)
    (w : World) :
  audited c → audited (perform_all ks c w).1.
Proof.
  revert c w. induction ks as [|k ks IH]; intros c w H; [exact H|].
  cbn. pose proof (audited_perform k c w H) as H'.
  destruct (perform k c w) as [[r c'] w']. apply IH, H'.
Qed.

(** X5. The audit trail of a controller, however it is driven after its
    construction (thrown errors included): the phases of its history
    followed by its current phase start at IDLE, and each one is followed
    by a phase that the table allows after it or by FAILED; the previous
    phase is the one of the last history entry; an entry for the current
    phase is open at the current step number; and the step counter never
    exceeds the number of phases left. *)
Theorem X5_history_is_a_legal_trail (sid : option UniqueId) (ks : list Call)
    (w : World) :
  audited (driven sid ks w).
Proof. apply audited_perform_all, audited_new. Qed.

End LifecycleExtras.

Module ContextManagerExtras.
Import ContextManager JsMapFacts.
Import ContextManagerSpec ContextManagerProofs ContextStore.

Lemma create_spec (m : ContextManager) (w : World)
    (o : CreateContextOptions) :
  create o m w =
    (Ok (length (heap w)),
     set_history (<[co_sessionId o := [length (heap w)]]> (history m)) m,
     after_update w (created_from w o)).
Proof. reflexivity. Qed.

Lemma heap_extended (w : World) (c' : MCPContext) (k : nat) (c0 : MCPContext) :
  heap w !! k = Some c0 → heap (after_update w c') !! k = Some c0.
Proof. intros H. cbn. by apply lookup_app_l_Some. Qed.

Lemma heap_new (w : World) (c' : MCPContext) :
  heap (after_update w c') !! length (heap w) = Some c'.
Proof. cbn. apply list_lookup_middle. done. Qed.

(** X6. [create] opens a session: it returns a new context at version 1
    with no results, no facts and no plan, with equal creation and
    update times, and makes it the whole history of its session; a
    history the session had before is dropped.  The histories of other
    sessions and the contexts allocated earlier are untouched. *)
Theorem X6_create_opens_a_session (m : ContextManager) (w : World)
    (o : CreateContextOptions) :
  ∃ l c m' w',
    create o m w = (Ok l, m', w')
    ∧ heap w' !! l = Some c
    ∧ heap w !! l = None
    ∧ ctx_sessionId c = co_sessionId o
    ∧ version c = 1
    ∧ recentResults c = [] ∧ facts c = [] ∧ activePlan c = None
    ∧ createdAt c = updatedAt c
    ∧ getHistory m' (co_sessionId o) = [l]
    ∧ getVersion m' w' (co_sessionId o) 1 = Some l
    ∧ (∀ sid, sid ≠ co_sessionId o → getHistory m' sid = getHistory m sid)
    ∧ (∀ k c0, heap w !! k = Some c0 → heap w' !! k = Some c0).
Proof.
  eexists _, _, _, _. split; [apply create_spec|].
  split; [apply heap_new|].
  split; [apply lookup_ge_None_2; lia|].
  do 6 (split; [reflexivity|]).
  split; [unfold getHistory; cbn; by rewrite lookup_insert_eq|].
  split.
  { unfold getVersion. cbn [history set_history].
    rewrite lookup_insert_eq. cbn [List.find]. rewrite heap_new. done. }
  split.
  - intros sid Hne. unfold getHistory. cbn. by rewrite lookup_insert_ne.
  - intros k c0. apply heap_extended.
Qed.

(** X7. [update] records the new context at the end of the history of
    the session that the updated context names, whether or not the
    context passed in is the latest of that history, or in it at all; the
    histories of other sessions and the limit of the manager stay as they
    are. *)
Theorem X7_update_appends_to_history (m : ContextManager) (w : World)
    (l : ContextRef) (c : MCPContext) (u : UpdateContextOptions) :
  heap w !! l = Some c →
  ∃ l' c' m' w',
    update l u m w = (Ok l', m', w')
    ∧ heap w' !! l' = Some c'
    ∧ ctx_sessionId c' = ctx_sessionId c
    ∧ getHistory m' (ctx_sessionId c) = getHistory m (ctx_sessionId c) ++ [l']
    ∧ (∀ sid, sid ≠ ctx_sessionId c → getHistory m' sid = getHistory m sid)
    ∧ maxRecentResults m' = maxRecentResults m.
Proof.
  intros Hl. eexists _, _, _, _. split; [by apply update_spec|].
  split; [apply heap_new|].
  split; [reflexivity|].
  split; [unfold getHistory, recorded; cbn; by rewrite lookup_insert_eq|].
  split; [|reflexivity].
  intros sid Hne. unfold getHistory, recorded. cbn.
  by rewrite lookup_insert_ne.
Qed.

Lemma X7_update_appends_to_history_witness :
  ∃ l' c' m' w',
    update 0%nat no_updates sample_manager sample_store = (Ok l', m', w')
    ∧ heap w' !! l' = Some c'
    ∧ ctx_sessionId c' = "session"
    ∧ getHistory m' "session" = getHistory sample_manager "session" ++ [l']
    ∧ (∀ sid, sid ≠ "session" → getHistory m' sid = getHistory sample_manager sid)
    ∧ maxRecentResults m' = maxRecentResults sample_manager.
Proof.
  exact (X7_update_appends_to_history sample_manager sample_store 0%nat
           sample_context no_updates eq_refl).
Defined.

Lemma find_allocated (w : World) (c' : MCPContext) (v : Z)
    (h : list ContextRef) :
  (∀ k, k ∈ h → is_Some (heap w !! k)) →
  List.find (has_version (after_update w c') v) h
  = List.find (has_version w v) h.
Proof.
  induction h as [|k h IH]; intros Hall; [done|]. cbn [List.find].
  destruct (Hall k) as [c0 Hk]; [by left|].
  unfold has_version at 1 3. rewrite Hk, (heap_extended _ _ _ _ Hk).
  rewrite IH; [done|]. intros k' Hk'. apply Hall. by right.
Qed.

Lemma find_snoc {A} (f : A → bool) (h : list A) (x : A) :
  List.find f (h ++ [x])
  = match List.find f h with
    | Some y => Some y
    | None => if f x then Some x else None
    end.
Proof.
  induction h as [|a h IH]; cbn; [done|]. destruct (f a); done.
Qed.

(** X8. [getVersion] after an update: a version that the history of the
    session already held is still answered by the context that held it
    first, the version of the new context is answered by the new context
    when the history did not hold that version yet, and any other
    version is not found.  So of two contexts derived from the same
    context, which carry the same version, only the first can be
    retrieved. *)
Theorem X8_getVersion_after_update (m : ContextManager) (w : World)
    (l : ContextRef) (c : MCPContext) (u : UpdateContextOptions) :
  heap w !! l = Some c →
  allocated m w (ctx_sessionId c) →
  ∃ l' m' w',
    update l u m w = (Ok l', m', w')
    ∧ ∀ v, getVersion m' w' (ctx_sessionId c) v
           = match getVersion m w (ctx_sessionId c) v with
             | Some k => Some k
             | None => if decide (v = version c + 1) then Some l' else None
             end.
Proof.
  intros Hl Hall. eexists _, _, _. split; [by apply update_spec|].
  intros v. unfold getVersion, recorded. cbn [history set_history].
  rewrite lookup_insert_eq.
  change (λ ctx, match heap ?W !! ctx with
                 | Some c0 => bool_decide (version c0 = v)
                 | None => false
                 end) with (has_version W v).
  rewrite find_snoc.
  unfold allocated, getHistory in Hall.
  destruct (history m !! ctx_sessionId c) as [h|] eqn:Hh; cbn [nullish] in *.
  - rewrite find_allocated by done.
    destruct (List.find (has_version w v) h); [done|].
    unfold has_version. rewrite heap_new. cbn [version updated_from].
    by destruct (decide (v = version c + 1));
      [rewrite bool_decide_eq_true_2|rewrite bool_decide_eq_false_2].
  - cbn [List.find].
    unfold has_version. rewrite heap_new. cbn [version updated_from].
    by destruct (decide (v = version c + 1));
      [rewrite bool_decide_eq_true_2|rewrite bool_decide_eq_false_2].
Qed.

Lemma sample_manager_allocated :
  allocated sample_manager sample_store "session".
Proof.
  intros k Hk. change (k ∈ [0%nat]) in Hk.
  apply list_elem_of_singleton in Hk as ->. by eexists.
Qed.

Lemma X8_getVersion_after_update_witness :
  ∃ l' m' w',
    update 0%nat no_updates sample_manager sample_store = (Ok l', m', w')
    ∧ ∀ v, getVersion m' w' "session" v
           = match getVersion sample_manager sample_store "session" v with
             | Some k => Some k
             | None => if decide (v = 1 + 1) then Some l' else None
             end.
Proof.
  exact (X8_getVersion_after_update sample_manager sample_store 0%nat
           sample_context no_updates eq_refl sample_manager_allocated).
Defined.

(** X9. [clearHistory] forgets a session and nothing else: afterwards
    the history of the session is empty and no version of it is found,
    as for a session the manager never saw; the other sessions keep
    their histories and the contexts themselves stay in the store, so a
    context of the cleared session can still be updated, which starts
    the history of the session again with the new context alone. *)
Theorem X9_clearHistory_forgets_a_session (m : ContextManager) (w : World)
    (sid : UniqueId) :
  (∀ o s v, getHistory (new_ContextManager o) s = []
            ∧ getVersion (new_ContextManager o) w s v = None)
  ∧ ∃ m',
      clearHistory sid m w = (Ok tt, m', w)
      ∧ getHistory m' sid = []
      ∧ (∀ v, getVersion m' w sid v = None)
      ∧ (∀ s, s ≠ sid → getHistory m' s = getHistory m s)
      ∧ (∀ l c u, heap w !! l = Some c → ctx_sessionId c = sid →
           ∃ l' m'' w',
             update l u m' w = (Ok l', m'', w')
             ∧ getHistory m'' sid = [l']).
Proof.
  split; [done|].
  eexists. split; [reflexivity|].
  split; [unfold getHistory; cbn; by rewrite lookup_delete_eq|].
  split; [intros v; unfold getVersion; cbn; by rewrite lookup_delete_eq|].
  split.
  - intros s Hne. unfold getHistory. cbn. by rewrite lookup_delete_ne.
  - intros l c u Hl <-. eexists _, _, _.
    split; [by apply update_spec|].
    unfold getHistory, recorded. cbn.
    by rewrite lookup_insert_eq, lookup_delete_eq.
Qed.

Lemma mergeConstraints_set_all (existing additions : list ExecutionConstraint) :
  mergeConstraints existing additions
  = JsMap.values (JsMap.set_all ec_id (JsMap.set_all ec_id [] existing)
                                additions).
Proof. reflexivity. Qed.

Lemma merged_constraints_keyed (existing additions : list ExecutionConstraint) :
  JsMap.keyed ec_id
    (JsMap.set_all ec_id (JsMap.set_all ec_id [] existing) additions).
Proof. do 2 apply keyed_set_all. constructor. Qed.

Lemma merged_constraints_NoDup (existing additions : list ExecutionConstraint) :
  NoDup (JsMap.keys
           (JsMap.set_all ec_id (JsMap.set_all ec_id [] existing) additions)).
Proof. do 2 apply NoDup_keys_set_all. apply NoDup_nil_2. Qed.

Lemma mergeConstraints_filter (existing additions : list ExecutionConstraint)
    (i : UniqueId) :
  filter (λ c, ec_id c = i) (mergeConstraints existing additions)
  = match JsMap.latest ec_id additions i with
    | Some c => [c]
    | None => filter (λ c, ec_id c = i) (mergeConstraints existing [])
    end.
Proof.
  rewrite !mergeConstraints_set_all.
  rewrite !(filter_values ec_id)
    by first [apply merged_constraints_keyed | apply merged_constraints_NoDup].
  rewrite get_set_all. by destruct (JsMap.latest ec_id additions i).
Qed.

(** The values of a map built by [set_all] come from the map or from
    the list. *)
Lemma set_all_elem_of {K V} `{EqDecision K} (key : V → K)
    (m : JsMap.t K V) (l : list V) (x : V) :
  x ∈ JsMap.values (JsMap.set_all key m l) → x ∈ JsMap.values m ∨ x ∈ l.
Proof.
  revert m. induction l as [|y l IH]; intros m Hx; [by left|].
  rewrite set_all_cons in Hx. apply IH in Hx as [Hx|Hx]; [|right; by right].
  assert (∀ m0 : JsMap.t K V,
            x ∈ JsMap.values (JsMap.set m0 (key y) y) →
            x ∈ JsMap.values m0 ∨ x = y) as Hset.
  { clear. unfold JsMap.values.
    induction m0 as [|[k v] m0 IH]; cbn.
    - intros ->%list_elem_of_singleton. by right.
    - destruct (decide (k = key y)); cbn; intros [->|H]%elem_of_cons.
      + by right.
      + left. by right.
      + left. by left.
      + apply IH in H as [H| ->]; [left; by right|by right]. }
  apply Hset in Hx as [Hx| ->]; [by left|right; by left].
Qed.

Lemma mergeConstraints_elem_of (existing additions : list ExecutionConstraint)
    (c : ExecutionConstraint) :
  c ∈ mergeConstraints existing additions → c ∈ existing ∨ c ∈ additions.
Proof.
  intros Hc. rewrite mergeConstraints_set_all in Hc.
  apply set_all_elem_of in Hc as [Hc|Hc]; [|by right].
  apply set_all_elem_of in Hc as [Hc|Hc]; [|by left].
  by apply elem_of_nil in Hc.
Qed.

(** X10. Constraints are merged by id, the last one written winning: the
    merged list never holds two constraints with the same id and holds
    nothing but existing and added constraints; for an id that occurs
    among the additions it holds exactly the last addition with that id,
    and for any other id what the existing constraints gave. *)
Theorem X10_constraints_merge_by_id
    (existing additions : list ExecutionConstraint) :
  NoDup (ec_id <$> mergeConstraints existing additions)
  ∧ (∀ c, c ∈ mergeConstraints existing additions →
          c ∈ existing ∨ c ∈ additions)
  ∧ (∀ i, filter (λ c, ec_id c = i) (mergeConstraints existing additions)
          = match JsMap.latest ec_id additions i with
            | Some c => [c]
            | None => filter (λ c, ec_id c = i) (mergeConstraints existing [])
            end).
Proof.
  split; [|split].
  - rewrite mergeConstraints_set_all, keyed_values_keys
      by apply merged_constraints_keyed.
    apply merged_constraints_NoDup.
  - apply mergeConstraints_elem_of.
  - apply mergeConstraints_filter.
Qed.

(** X11. An update without changes moves a tidy context on by one
    version and nothing else: when its fact statements are pairwise
    distinct, its constraint ids are pairwise distinct and its recent
    results are within the limit, the new context differs from the old
    one in its id, its version and its update time only. *)
Theorem X11_empty_update_of_a_tidy_context (m : ContextManager) (w : World)
    (l : ContextRef) (c : MCPContext) :
  heap w !! l = Some c →
  NoDup (statement <$> facts c) →
  NoDup (ec_id <$> constraints c) →
  Z.of_nat (length (recentResults c)) ≤ maxRecentResults m →
  ∃ l' m' w',
    update l no_updates m w = (Ok l', m', w')
    ∧ heap w' !! l'
      = Some (next_version c (uuids w (draws w)) (clock w (ticks w))).
Proof.
  intros Hl Hfacts Hcons Hlen. eexists _, _, _.
  split; [by apply update_spec|].
  rewrite heap_new. f_equal. unfold updated_from, next_version.
  cbn [no_updates u_workspace u_memoryRefs addResults addFacts
       addConstraints plan nullish].
  f_equal.
  - unfold mergeResults. rewrite app_nil_r.
    destruct (Z.gtb_spec (Z.of_nat (length (recentResults c)))
                (maxRecentResults m)); [lia|done].
  - rewrite mergeFacts_set_all. cbn [JsMap.set_all foldl].
    by apply set_all_fresh.
  - rewrite mergeConstraints_set_all. cbn [JsMap.set_all foldl].
    by apply set_all_fresh.
Qed.

Lemma X11_empty_update_of_a_tidy_context_witness :
  ∃ l' m' w',
    update 0%nat no_updates sample_manager sample_store = (Ok l', m', w')
    ∧ heap w' !! l'
      = Some (next_version sample_context
                (uuids sample_store (draws sample_store))
                (clock sample_store (ticks sample_store))).
Proof.
  apply (X11_empty_update_of_a_tidy_context sample_manager sample_store
           0%nat sample_context eq_refl).
  - apply NoDup_nil_2.
  - apply NoDup_nil_2.
  - vm_compute. discriminate.
Defined.

(** X12. [findApplicableConstraints] returns the mandatory constraints
    of a context, whatever the operation type; and since constraints are
    merged by id, adding a constraint that is not mandatory under the id
    of a mandatory one takes that one out of the answer, while an added
    mandatory constraint is in it. *)
Theorem X12_applicable_constraints_follow_the_last_write
    (m : ContextManager) (w : World) (l : ContextRef) (c : MCPContext)
    (new : ExecutionConstraint) (op : string) :
  heap w !! l = Some c →
  (∀ x, x ∈ findApplicableConstraints c op
        ↔ x ∈ constraints c ∧ mandatory x = true)
  ∧ ∃ l' c' m' w',
      update l (adding_constraints [new]) m w = (Ok l', m', w')
      ∧ heap w' !! l' = Some c'
      ∧ (∀ x, x ∈ findApplicableConstraints c' op →
              x = new ∨ (x ∈ constraints c ∧ ec_id x ≠ ec_id new))
      ∧ (new ∈ findApplicableConstraints c' op ↔ mandatory new = true).
Proof.
  intros Hl. split.
  { intros x. unfold findApplicableConstraints.
    by rewrite list_elem_of_filter, (comm and). }
  eexists _, _, _, _. split; [by apply update_spec|].
  split; [apply heap_new|].
  unfold findApplicableConstraints, updated_from.
  cbn [constraints adding_constraints addConstraints nullish].
  pose proof (mergeConstraints_filter (constraints c) [new] (ec_id new)) as Hf.
  cbn [JsMap.latest] in Hf. rewrite decide_True in Hf by done.
  assert (∀ x, x ∈ mergeConstraints (constraints c) [new] →
               ec_id x = ec_id new → x = new) as Honly.
  { intros x Hx Hid.
    assert (x ∈ filter (λ c0, ec_id c0 = ec_id new)
                  (mergeConstraints (constraints c) [new])) as Hin
      by by apply list_elem_of_filter.
    rewrite Hf in Hin. by apply list_elem_of_singleton in Hin. }
  assert (new ∈ mergeConstraints (constraints c) [new]) as Hnew.
  { assert (new ∈ filter (λ c0, ec_id c0 = ec_id new)
                    (mergeConstraints (constraints c) [new])) as Hin
      by (rewrite Hf; by left).
    by apply list_elem_of_filter in Hin as [_ ?]. }
  split.
  - intros x [Hm Hx]%list_elem_of_filter.
    destruct (decide (ec_id x = ec_id new)) as [Hid|Hid]; [left; auto|].
    right. split; [|done].
    destruct (mergeConstraints_elem_of (constraints c) [new] x Hx) as [?|Hin]; [done|].
    apply list_elem_of_singleton in Hin. by subst.
  - rewrite list_elem_of_filter. split; [by intros [? _]|by intros].
Qed.

Lemma X12_applicable_constraints_follow_the_last_write_witness :
  ∃ l' c' m' w',
    update 0%nat (adding_constraints [sample_constraint]) sample_manager
      sample_store = (Ok l', m', w')
    ∧ heap w' !! l' = Some c'
    ∧ (sample_constraint ∈ findApplicableConstraints c' "write"
       ↔ mandatory sample_constraint = true).
Proof.
  destruct (X12_applicable_constraints_follow_the_last_write sample_manager
              sample_store 0%nat sample_context sample_constraint "write"
              eq_refl)
    as (_ & l' & c' & m' & w' & Hu & Hh & _ & Hiff).
  exists l', c', m', w'. repeat split; try assumption; apply Hiff.
Defined.

(** X13. [queryFacts] without a category returns every fact; with the
    name of a category it returns the facts of that category, in their
    order; and with any other string, such as a category name in lower
    case, it returns nothing. *)
Theorem X13_queryFacts_by_category (c : MCPContext) :
  queryFacts c None = facts c
  ∧ (∀ cat, queryFacts c (Some (FactCategory_value cat))
            = filter (λ f, category f = cat) (facts c))
  ∧ (∀ s, (∀ cat, FactCategory_value cat ≠ s) → queryFacts c (Some s) = [])
  ∧ queryFacts c (Some "discovery") = [].
Proof.
  assert (∀ s, (∀ cat, FactCategory_value cat ≠ s) →
               queryFacts c (Some s) = []) as Hnone.
  { intros s Hs. unfold queryFacts.
    induction (facts c) as [|f l IH]; [done|].
    rewrite filter_cons, decide_False by apply Hs. done. }
  split; [done|]. split; [|split; [exact Hnone|]].
  - intros cat. unfold queryFacts. apply list_filter_iff. intros f.
    split; [|by intros ->].
    by destruct (category f), cat.
  - apply Hnone. by intros [].
Qed.

(** X14. [mergeWorkspace] takes each field from the update when it is
    given there and is not [null]: the update [{}] changes nothing,
    merging the same update twice is merging it once, and a project
    type, active file, selection or git branch that is set cannot be
    cleared, since a [null] in the update falls through to the old
    value. *)
Theorem X14_workspace_fields_cannot_be_cleared (e : WorkspaceMetadata)
    (u : PartialWorkspace) :
  mergeWorkspace e no_workspace_updates = e
  ∧ mergeWorkspace (mergeWorkspace e u) u = mergeWorkspace e u
  ∧ (is_Some (projectType e) → is_Some (projectType (mergeWorkspace e u)))
  ∧ (is_Some (activeFile e) → is_Some (activeFile (mergeWorkspace e u)))
  ∧ (is_Some (selection e) → is_Some (selection (mergeWorkspace e u)))
  ∧ (is_Some (gitBranch e) → is_Some (gitBranch (mergeWorkspace e u))).
Proof.
  destruct e as [rp pt fw af sel gb hu sa].
  destruct u as [[?|] [[?|]|] [?|] [[?|]|] [[?|]|] [[?|]|] [?|] [?|]];
    cbn; repeat split; auto.
Qed.

(** X15. The recent results by the limit of the manager: with a
    positive limit [n] they are the last [n] of the existing results
    followed by the added ones (all of them when there are no more than
    [n]); with the limit 0 they are all kept; and with a negative limit
    [-k] the [k] oldest are dropped on every merge. *)
Theorem X15_recent_results_by_limit (m : ContextManager)
    (existing additions : list ToolResult) :
  mergeResults m existing additions
  = if decide (0 < maxRecentResults m)
    then drop (length (existing ++ additions)
               - Z.to_nat (maxRecentResults m))%nat (existing ++ additions)
    else if decide (maxRecentResults m = 0) then existing ++ additions
    else drop (Z.to_nat (- maxRecentResults m)) (existing ++ additions).
Proof.
  destruct (decide (0 < maxRecentResults m)) as [Hpos|Hneg].
  { by apply mergeResults_bounded_fifo. }
  unfold mergeResults, Array_slice.
  set (combined := existing ++ additions).
  destruct (decide (maxRecentResults m = 0)) as [H0|H0].
  - rewrite H0.
    destruct (Z.of_nat (length combined) >? 0); [|done].
    destruct (Z.ltb_spec (- 0) 0); [lia|].
    rewrite Z.min_l by lia. done.
  - destruct (Z.gtb_spec (Z.of_nat (length combined)) (maxRecentResults m));
      [|lia].
    destruct (Z.ltb_spec (- maxRecentResults m) 0); [lia|].
    destruct (Z.le_gt_cases (- maxRecentResults m)
                (Z.of_nat (length combined))) as [Hle|Hgt].
    + by rewrite Z.min_l.
    + rewrite Z.min_r, Nat2Z.id by lia.
      rewrite !drop_ge; [done|lia|lia].
Qed.

(** X16. What [update] replaces and what it keeps: the session, the
    intent and the creation time are those of the old context; memory
    references given in the update replace the old ones; a plan given in
    the update becomes the active plan, [null] clears the active plan,
    and without the field the active plan is kept. *)
Theorem X16_update_replaces_plan_and_memory (m : ContextManager) (w : World)
    (l : ContextRef) (c : MCPContext) (u : UpdateContextOptions) :
  heap w !! l = Some c →
  ∃ l' c' m' w',
    update l u m w = (Ok l', m', w')
    ∧ heap w' !! l' = Some c'
    ∧ ctx_sessionId c' = ctx_sessionId c
    ∧ intent c' = intent c
    ∧ createdAt c' = createdAt c
    ∧ updatedAt c' = clock w (ticks w)
    ∧ memoryRefs c' = nullish (u_memoryRefs u) (memoryRefs c)
    ∧ activePlan c' = match plan u with
                      | Some (Some p) => Some p
                      | Some None => None
                      | None => activePlan c
                      end.
Proof.
  intros Hl. eexists _, _, _, _. split; [by apply update_spec|].
  split; [apply heap_new|].
  repeat split. cbn. by destruct (plan u) as [[?|]|].
Qed.

Lemma X16_update_replaces_plan_and_memory_witness :
  ∃ l' c' m' w',
    update 0%nat
      {| u_memoryRefs := Some []; addResults := None; addFacts := None;
         addConstraints := None; plan := Some None; u_workspace := None |}
      sample_manager sample_store = (Ok l', m', w')
    ∧ heap w' !! l' = Some c'
    ∧ memoryRefs c' = []
    ∧ activePlan c' = None.
Proof.
  destruct (X16_update_replaces_plan_and_memory sample_manager sample_store
              0%nat sample_context
              {| u_memoryRefs := Some []; addResults := None;
                 addFacts := None; addConstraints := None;
                 plan := Some None; u_workspace := None |} eq_refl)
    as (l' & c' & m' & w' & Hu & Hh & _ & _ & _ & _ & Hm & Hp).
  exists l', c', m', w'. repeat split; assumption.
Defined.

End ContextManagerExtras.

Module ToolRegistryExtras.
Import ToolRegistry.
Import ContextManagerSpec ToolRegistrySpec ToolRegistryProofs.
Import ToolRegistryOutcomes.

#[local] Ltac run_invoke :=
  unfold invoke, validateInput, createExecutionContext, executeWithTimeout,
    createErrorResult, updateMetrics, emit, try_catch, bind, gets, modify,
    ret, throw, external, await, deref, createTimestamp, uuidv4, Date_now,
    lift, tick, draw;
  cbn.

Lemma invoke_unregistered (r : ToolRegistry) (w : World)
    (request : ToolInvocationRequest) :
  tools r !! toolId request = None →
  invoke request r w
  = (Ok (given_up w request "TOOL_NOT_FOUND"
           ("Tool '" +:+ toolId request +:+ "' is not registered") false),
     r, after_invoke w 3).
Proof.
  intros Hnone. destruct r as [ts cfg em]. cbn in Hnone.
  run_invoke. rewrite Hnone. reflexivity.
Qed.

(** X17. Invoking an id that is not registered does not throw: the
    result is a failure with code [TOOL_NOT_FOUND], not recoverable,
    carrying the fresh execution id and the requested id; the registry
    is unchanged, nothing is emitted and no function is called. *)
Theorem X17_unregistered_tool_is_not_found (r : ToolRegistry) (w : World)
    (request : ToolInvocationRequest) :
  tools r !! toolId request = None →
  invoke request r w
  = (Ok (given_up w request "TOOL_NOT_FOUND"
           ("Tool '" +:+ toolId request +:+ "' is not registered") false),
     r, after_invoke w 3).
Proof. apply invoke_unregistered. Qed.

(** X18. Invoking a registered tool that is disabled gives a failure
    with code [TOOL_DISABLED], which is recoverable; the permissions are
    not looked at, no function of the tool is called and the registry is
    unchanged. *)
Theorem X18_disabled_tool_is_not_run (r : ToolRegistry) (w : World)
    (request : ToolInvocationRequest) (entry : ToolRegistryEntry) :
  tools r !! toolId request = Some entry →
  enabled entry = false →
  invoke request r w
  = (Ok (given_up w request "TOOL_DISABLED"
           ("Tool '" +:+ toolId request +:+ "' is currently disabled") true),
     r, after_invoke w 3).
Proof. apply invoke_disabled. Qed.

(** X19. When the validator of an admitted tool finds the input
    invalid, [invoke] returns a failure with code [VALIDATION_FAILED],
    recoverable, whose message joins the messages of the validation
    errors; the validator is the only function called, [execute] is not,
    no event is emitted and the registry is unchanged. *)
Theorem X19_invalid_input_is_not_executed (r : ToolRegistry) (w : World)
    (request : ToolInvocationRequest) (entry : ToolRegistryEntry)
    (v : ValidationResult) :
  admitted r request entry →
  validation_result request (definition entry) (at_call w []) = Ok v →
  vr_valid v = false →
  invoke request r w
  = (Ok (given_up w request "VALIDATION_FAILED"
           ("Input validation failed: "
            +:+ join ", " (ve_message <$> errors v)) true),
     r,
     after_calls w 3
       [call_validate (td_id (definition entry)) (input request)]).
Proof. apply invoke_invalid. Qed.

(** X20. An error thrown by the validator is not turned into a result:
    [invoke] throws it on, the registry unchanged and [execute] not
    called. *)
Theorem X20_validator_error_escapes_invoke (r : ToolRegistry) (w : World)
    (request : ToolInvocationRequest) (entry : ToolRegistryEntry)
    (error : Thrown) :
  admitted r request entry →
  validation_result request (definition entry) (at_call w []) = Throw error →
  invoke request r w
  = (Throw error, r,
     after_calls w 1
       [call_validate (td_id (definition entry)) (input request)]).
Proof. apply invoke_validator_throws. Qed.

(** X21. When the timer of an execution fires before the promise of the
    tool settles, [invoke] returns a failure with code
    [EXECUTION_ERROR], recoverable, whose message names the timeout in
    force (that of the request, else the default of the registry);
    [tool:invoked] and then [tool:failed] are emitted and the metrics of
    the tool are left as they were. *)
Theorem X21_timeout_is_an_execution_error (r : ToolRegistry) (w : World)
    (request : ToolInvocationRequest) (entry : ToolRegistryEntry)
    (c : MCPContext) :
  ready r request entry c w →
  timed_out (the_execution request entry c w) (timeout_of r request) = true →
  let result :=
    given_up w request "EXECUTION_ERROR"
      ("Tool execution timed out after "
       +:+ pretty (timeout_of r request) +:+ "ms") true in
  invoke request r w
  = (Ok result,
     after_failure r request (uuids w (draws w)) result,
     after_calls w 3 (made_calls request entry)).
Proof. apply invoke_timed_out. Qed.

(** X22. When the call of [execute] throws, or its promise is rejected
    before the timer fires, [invoke] does not throw: it returns a
    failure with code [EXECUTION_ERROR], recoverable, with the message
    of the error (["Unknown error"] for a thrown value that is not an
    [Error]); [tool:failed] is emitted and the metrics of the tool are
    left as they were. *)
Theorem X22_tool_error_becomes_a_result (r : ToolRegistry) (w : World)
    (request : ToolInvocationRequest) (entry : ToolRegistryEntry)
    (c : MCPContext) (error : Thrown) :
  ready r request entry c w →
  breaks_with (the_execution request entry c w) (timeout_of r request)
  = Some error →
  let result :=
    given_up w request "EXECUTION_ERROR" (error_message error) true in
  invoke request r w
  = (Ok result,
     after_failure r request (uuids w (draws w)) result,
     after_calls w 3 (made_calls request entry)).
Proof. apply invoke_breaks. Qed.

(** X23. When the promise of the tool is fulfilled before the timer
    fires, [invoke] returns the result of the tool as it is, whether or
    not it reports success, and counts the invocation: the entry of the
    tool gets one more invocation, the time of the update and the new
    average, with the time from the start of [invoke] to the end of the
    execution as the duration; [tool:invoked] and then [tool:completed]
    are emitted. *)
Theorem X23_fulfilled_execution_is_counted (r : ToolRegistry) (w : World)
    (request : ToolInvocationRequest) (entry : ToolRegistryEntry)
    (c : MCPContext) (result : ToolResult) :
  ready r request entry c w →
  fulfils_with (the_execution request entry c w) (timeout_of r request)
  = Some result →
  invoke request r w
  = (Ok result,
     after_completion r request entry (uuids w (draws w)) result
       (clock w (S (ticks w)) - clock w (ticks w))
       (clock w (S (S (ticks w)))),
     after_calls w 3 (made_calls request entry)).
Proof. apply invoke_fulfilled. Qed.

(** X24. [register] on an id that is free: when the category passes the
    filter of the configuration (an empty list of allowed categories
    lets every category pass) the tool is stored enabled, with no
    invocation counted, [tool:registered] is emitted and the other
    tools are untouched; a second registration under the same id throws
    and leaves the first in place.  When the category does not pass,
    [register] throws, naming the category and the allowed ones, and
    the registry is unchanged. *)
Theorem X24_register_stores_or_refuses (r : ToolRegistry) (w : World)
    (d : ToolDefinition) :
  tools r !! td_id d = None →
  if category_allowed r d then
    let r' := registered r d (clock w (ticks w)) in
    register d r w = (Ok tt, r', after_tick w)
    ∧ get r' (td_id d) = Some d
    ∧ has r' (td_id d) = true
    ∧ getMetrics r' (td_id d) = Some (fresh_entry d (clock w (ticks w)))
    ∧ (∀ i, i ≠ td_id d → getMetrics r' i = getMetrics r i)
    ∧ (∀ d' w', td_id d' = td_id d →
         register d' r' w'
         = (Throw (ErrorObj ("Tool with ID '" +:+ td_id d
                             +:+ "' is already registered")), r', w'))
  else
    register d r w
    = (Throw (ErrorObj ("Tool category '"
                        +:+ ToolCategory_value (td_category d)
                        +:+ "' is not allowed. Allowed categories: "
                        +:+ join ", " (ToolCategory_value
                                         <$> allowedCategories (config r)))),
       r, w).
Proof.
  intros Hfree.
  assert (∀ now,
    let r' := registered r d now in
    get r' (td_id d) = Some d
    ∧ has r' (td_id d) = true
    ∧ getMetrics r' (td_id d) = Some (fresh_entry d now)
    ∧ (∀ i, i ≠ td_id d → getMetrics r' i = getMetrics r i)
    ∧ (∀ d' w', td_id d' = td_id d →
         register d' r' w'
         = (Throw (ErrorObj ("Tool with ID '" +:+ td_id d
                             +:+ "' is already registered")), r', w')))
    as Hstored.
  { intros now r'. unfold get, has, getMetrics, r', registered.
    cbn [tools]. rewrite lookup_insert_eq. repeat split.
    - intros i Hi. by rewrite lookup_insert_ne.
    - intros d' w' Hid. unfold register, bind, gets. cbn [tools].
      rewrite Hid, lookup_insert_eq.
      by rewrite bool_decide_eq_true_2 by by eexists. }
  unfold category_allowed, register, bind, gets, throw.
  rewrite Hfree.
  rewrite (bool_decide_eq_false_2 (is_Some None))
    by (intros [? ?]; discriminate).
  destruct (allowedCategories (config r)) as [|a allowed] eqn:Hallowed.
  { split; [reflexivity|apply Hstored]. }
  rewrite (bool_decide_eq_false_2 (a :: allowed = [])) by done.
  cbn [orb length].
  replace (0 <? Z.of_nat (S (length allowed))) with true
    by (symmetry; apply Z.ltb_lt; lia).
  cbn [andb].
  destruct (bool_decide (td_category d ∈ a :: allowed)) eqn:Hin; cbn [negb].
  - split; [reflexivity|apply Hstored].
  - reflexivity.
Qed.

(** X25. [unregister] removes the entry under the id and tells whether
    there was one, also when the tool was disabled and [has] said
    [false]; [tool:unregistered] is emitted only when there was one.
    Afterwards the id is unknown to [get], [has] and [getMetrics], an
    invocation of it ends in [TOOL_NOT_FOUND], and the other tools are
    untouched. *)
Theorem X25_unregister_forgets_the_tool (r : ToolRegistry) (w : World)
    (toolId : string) :
  ∃ r',
    unregister toolId r w
    = (Ok (bool_decide (is_Some (getMetrics r toolId))), r', w)
    ∧ get r' toolId = None
    ∧ has r' toolId = false
    ∧ getMetrics r' toolId = None
    ∧ (∀ i, i ≠ toolId → getMetrics r' i = getMetrics r i)
    ∧ emitted r'
      = (if bool_decide (is_Some (getMetrics r toolId))
         then tool_unregistered toolId :: emitted r else emitted r)
    ∧ ∀ request w',
        ToolRegistry.toolId request = toolId →
        (error_code <$> result_of (invoke request r' w').1.1)
        = Some (Some "TOOL_NOT_FOUND").
Proof.
  unfold unregister, bind, gets, modify, emit, ret, getMetrics.
  cbn [tools set_tools].
  destruct (bool_decide (is_Some (tools r !! toolId))).
  all: eexists; split; [reflexivity|].
  all: unfold get, has.
  all: cbn [tools set_tools emitted]; rewrite lookup_delete_eq.
  all: repeat split; try done.
  all: try (intros i Hi; by rewrite lookup_delete_ne).
  all: intros request w' Hid.
  all: match goal with
       | |- context [invoke ?Q ?R ?W] =>
           rewrite (invoke_unregistered R W Q)
             by (cbn [tools]; rewrite Hid; apply lookup_delete_eq)
       end; reflexivity.
Qed.

(** X26. [setEnabled] on an unknown id does nothing, and creates no
    entry.  On a registered id it sets the flag and leaves the
    definition, the metrics, the other tools and the event log as they
    are: [has] then answers with the flag, and an invocation of a tool
    that was disabled ends in [TOOL_DISABLED]. *)
Theorem X26_setEnabled_changes_the_flag_only (r : ToolRegistry) (w : World)
    (toolId : string) (value : bool) :
  match getMetrics r toolId with
  | None => setEnabled toolId value r w = (Ok tt, r, w)
  | Some entry =>
      ∃ r',
        setEnabled toolId value r w = (Ok tt, r', w)
        ∧ getMetrics r' toolId = Some (with_enabled entry value)
        ∧ has r' toolId = value
        ∧ get r' toolId = get r toolId
        ∧ (∀ i, i ≠ toolId → getMetrics r' i = getMetrics r i)
        ∧ emitted r' = emitted r
        ∧ ∀ request w',
            ToolRegistry.toolId request = toolId →
            value = false →
            (error_code <$> result_of (invoke request r' w').1.1)
            = Some (Some "TOOL_DISABLED")
  end.
Proof.
  unfold getMetrics, setEnabled, bind, gets, modify, ret.
  destruct (tools r !! toolId) as [entry|] eqn:Hentry; [|reflexivity].
  eexists. split; [reflexivity|].
  unfold get, has. cbn [tools set_tools emitted].
  rewrite lookup_insert_eq, Hentry. repeat split.
  - intros i Hi. by rewrite lookup_insert_ne.
  - intros request w' Hid ->.
    match goal with
    | |- context [invoke ?Q ?R ?W] =>
        rewrite (invoke_disabled R W Q (with_enabled entry false))
          by (try done; cbn [tools]; rewrite Hid; apply lookup_insert_eq)
    end.
    reflexivity.
Qed.

Lemma sample_tool_admitted (outcome : Settlement)
    (check : option (Result ValidationResult)) :
  admitted (registry_with (sample_tool outcome check)).1
    (sample_request "test.tool")
    (fresh_entry (sample_tool outcome check) 1000).
Proof.
  split; [vm_compute; reflexivity|]. split; [reflexivity|].
  intros p Hp. by apply elem_of_nil in Hp.
Qed.

Lemma sample_tool_ready (outcome : Settlement) :
  ready (registry_with (sample_tool outcome None)).1
    (sample_request "test.tool")
    (fresh_entry (sample_tool outcome None) 1000)
    sample_context (registry_with (sample_tool outcome None)).2.
Proof.
  split; [apply sample_tool_admitted|]. split; [reflexivity|].
  exists validationSuccess. split; reflexivity.
Qed.

Lemma X17_unregistered_tool_is_not_found_witness :
  invoke (sample_request "test.unknown") sample_registry.1 sample_registry.2
  = (Ok (given_up sample_registry.2 (sample_request "test.unknown")
           "TOOL_NOT_FOUND" "Tool 'test.unknown' is not registered" false),
     sample_registry.1, after_invoke sample_registry.2 3).
Proof.
  apply (X17_unregistered_tool_is_not_found sample_registry.1
           sample_registry.2 (sample_request "test.unknown")).
  vm_compute. reflexivity.
Defined.

Lemma X18_disabled_tool_is_not_run_witness :
  let r := (setEnabled "test.echo" false sample_registry.1
              sample_registry.2).1.2 in
  invoke (sample_request "test.echo") r sample_registry.2
  = (Ok (given_up sample_registry.2 (sample_request "test.echo")
           "TOOL_DISABLED" "Tool 'test.echo' is currently disabled" true),
     r, after_invoke sample_registry.2 3).
Proof.
  apply (X18_disabled_tool_is_not_run _ sample_registry.2
           (sample_request "test.echo")
           (with_enabled (fresh_entry echoTool 1000) false)).
  - vm_compute. reflexivity.
  - reflexivity.
Defined.

Lemma X24_register_stores_or_refuses_witness :
  register echoTool (new_ToolRegistry DEFAULT_REGISTRY_CONFIG) sample_store
  = (Ok tt,
     registered (new_ToolRegistry DEFAULT_REGISTRY_CONFIG) echoTool 1000,
     after_tick sample_store).
Proof.
  exact (proj1 (X24_register_stores_or_refuses
                  (new_ToolRegistry DEFAULT_REGISTRY_CONFIG) sample_store
                  echoTool eq_refl)).
Defined.

Lemma X21_timeout_is_an_execution_error_witness :
  let tool := sample_tool (resolves 60000 sample_failure) None in
  (error_code <$> result_of
     (invoke (sample_request "test.tool") (registry_with tool).1
        (registry_with tool).2).1.1)
  = Some (Some "EXECUTION_ERROR").
Proof.
  intros tool.
  rewrite (X21_timeout_is_an_execution_error (registry_with tool).1
             (registry_with tool).2 (sample_request "test.tool")
             (fresh_entry tool 1000) sample_context
             (sample_tool_ready _) eq_refl).
  reflexivity.
Defined.

Lemma X19_invalid_input_is_not_executed_witness :
  let tool := sample_tool (resolves 0 sample_failure)
                (Some (Ok sample_rejection)) in
  (error_code <$> result_of
     (invoke (sample_request "test.tool") (registry_with tool).1
        (registry_with tool).2).1.1)
  = Some (Some "VALIDATION_FAILED").
Proof.
  intros tool.
  rewrite (X19_invalid_input_is_not_executed (registry_with tool).1
             (registry_with tool).2 (sample_request "test.tool")
             (fresh_entry tool 1000) sample_rejection
             (sample_tool_admitted _ _) eq_refl eq_refl).
  reflexivity.
Defined.

Lemma X22_tool_error_becomes_a_result_witness :
  let tool := sample_tool (throws (ErrorObj "disk full")) None in
  (tr_error <$> result_of
     (invoke (sample_request "test.tool") (registry_with tool).1
        (registry_with tool).2).1.1)
  = Some (Some {| te_code := "EXECUTION_ERROR"; te_message := "disk full";
                  te_recoverable := true; te_suggestions := [] |}).
Proof.
  intros tool.
  rewrite (X22_tool_error_becomes_a_result (registry_with tool).1
             (registry_with tool).2 (sample_request "test.tool")
             (fresh_entry tool 1000) sample_context (ErrorObj "disk full")
             (sample_tool_ready _) eq_refl).
  reflexivity.
Defined.

Lemma X23_fulfilled_execution_is_counted_witness :
  let tool := sample_tool (resolves 0 sample_failure) None in
  (invoke (sample_request "test.tool") (registry_with tool).1
     (registry_with tool).2).1.1
  = Ok sample_failure.
Proof.
  intros tool.
  rewrite (X23_fulfilled_execution_is_counted (registry_with tool).1
             (registry_with tool).2 (sample_request "test.tool")
             (fresh_entry tool 1000) sample_context sample_failure
             (sample_tool_ready _) eq_refl).
  reflexivity.
Defined.

Lemma X20_validator_error_escapes_invoke_witness :
  let tool := sample_tool (resolves 0 sample_failure)
                (Some (Throw (ErrorObj "bad schema"))) in
  (invoke (sample_request "test.tool") (registry_with tool).1
     (registry_with tool).2).1.1
  = Throw (ErrorObj "bad schema").
Proof.
  intros tool.
  rewrite (X20_validator_error_escapes_invoke (registry_with tool).1
             (registry_with tool).2 (sample_request "test.tool")
             (fresh_entry tool 1000) (ErrorObj "bad schema")
             (sample_tool_admitted _ _) eq_refl).
  reflexivity.
Defined.

(** A timeout above the largest delay of a timer is a timeout of one
    millisecond: with [timeoutMs = 2^31] a tool that answers after 20
    milliseconds is timed out, and its invocation is not counted. *)
Lemma timeout_above_the_largest_delay :
  let tool := sample_tool (resolves 20 sample_failure) None in
  let request :=
    {| toolId := "test.tool"; input := JStr "hello"; context := 0%nat;
       timeoutMs := Some 2147483648; skipValidation := None |} in
  let out := invoke request (registry_with tool).1 (registry_with tool).2 in
  (tr_error <$> result_of out.1.1)
  = Some (Some {| te_code := "EXECUTION_ERROR";
                  te_message := "Tool execution timed out after 2147483648ms";
                  te_recoverable := true; te_suggestions := [] |})
  ∧ (invocationCount <$> getMetrics out.1.2 "test.tool") = Some 0.
Proof. vm_compute. done. Qed.

End ToolRegistryExtras.

Module DecisionLoopExtras.
Import Lifecycle ContextManager ToolRegistry DecisionLoop.
Import LifecycleSpec ContextManagerSpec ToolRegistrySpec DecisionLoopSpec.
Import DecisionLoopPhases.

(** The methods of the controller read the clock and nothing else. *)
Lemma transition_moves (c : LifecycleController) (w : World) (t : AgentPhase)
    (why : string) (data : JsRecord) :
  canTransition c t = true →
  ∃ c' w',
    transition t why data c w = (Ok tt, c', w')
    ∧ currentPhase c' = t
    ∧ stepNumber c'
      = (if decide (t = SUSPENDED) then stepNumber c else stepNumber c + 1)
    ∧ (reason <$> currentPhaseEntry c') = Some why
    ∧ same_store w w'.
Proof.
  destruct c as [sid p prev n hist st lt [e|] em];
    unfold canTransition; cbn [currentPhase];
    destruct p, t; vm_compute; try discriminate; intros _;
    eexists _, _; repeat split.
Qed.

Lemma fail_moves (c : LifecycleController) (w : World) (why : string) :
  isTerminal c = false →
  ∃ c' w',
    fail why c w = (Ok tt, c', w')
    ∧ currentPhase c' = FAILED
    ∧ stepNumber c' = stepNumber c
    ∧ (reason <$> currentPhaseEntry c') = Some why
    ∧ same_store w w'.
Proof.
  destruct c as [sid p prev n hist st lt [e|] em];
    unfold isTerminal; cbn [currentPhase];
    destruct p; vm_compute; try discriminate; intros _;
    eexists _, _; repeat split.
Qed.

Lemma fail_terminal_noop (c : LifecycleController) (w : World) (why : string) :
  isTerminal c = true → fail why c w = (Ok tt, c, w).
Proof.
  destruct c as [sid p prev n hist st lt [e|] em];
    unfold isTerminal; cbn [currentPhase];
    destruct p; vm_compute; try discriminate; reflexivity.
Qed.

Lemma complete_moves (c : LifecycleController) (w : World) (why : string) :
  currentPhase c = REFLECTING →
  ∃ c' w',
    complete why c w = (Ok tt, c', w')
    ∧ currentPhase c' = COMPLETE
    ∧ (reason <$> currentPhaseEntry c') = Some why
    ∧ same_store w w'.
Proof.
  destruct c as [sid p prev n hist st lt [e|] em]; cbn [currentPhase];
    intros ->; vm_compute; eexists _, _; repeat split.
Qed.

Lemma suspend_refused (c : LifecycleController) (w : World) (why : string) :
  canTransition c SUSPENDED = false →
  Lifecycle.suspend why c w
  = (Throw (ErrorObj ("Cannot suspend from phase '"
                      +:+ AgentPhase_value (currentPhase c) +:+ "'")), c, w).
Proof.
  destruct c as [sid p prev n hist st lt [e|] em];
    unfold canTransition; cbn [currentPhase];
    destruct p; vm_compute; try discriminate; reflexivity.
Qed.

Lemma suspend_moves (c : LifecycleController) (w : World) (why : string) :
  canTransition c SUSPENDED = true →
  ∃ c' w',
    Lifecycle.suspend why c w = (Ok tt, c', w')
    ∧ currentPhase c' = SUSPENDED
    ∧ stepNumber c' = stepNumber c
    ∧ same_store w w'.
Proof.
  destruct c as [sid p prev n hist st lt [e|] em];
    unfold canTransition; cbn [currentPhase];
    destruct p; vm_compute; try discriminate; intros _;
    eexists _, _; repeat split.
Qed.

#[local] Arguments update : simpl never.
#[local] Arguments invoke : simpl never.
#[local] Arguments transition : simpl never.
#[local] Arguments Lifecycle.fail : simpl never.
#[local] Arguments Lifecycle.suspend : simpl never.
#[local] Arguments complete : simpl never.
#[local] Arguments isTerminal : simpl never.
#[local] Arguments canTransition : simpl never.
#[local] Arguments String.append : simpl never.

(** X27. [stop] and [suspend] act on a running loop only: on a loop
    that is not running, or has no controller yet, they do nothing.  On
    a running loop [stop] clears the running flag and fails the
    controller with the reason given, unless its phase is terminal
    already, and leaves the steps and the context alone; [suspend]
    moves the controller to SUSPENDED where the table allows it and
    otherwise throws the error of the controller, the loop unchanged. *)
Theorem X27_stop_and_suspend_need_a_running_loop (d : DecisionLoop)
    (w : World) (why : string) :
  (isRunning d = false ∨ lifecycle d = None →
     stop why d w = (Ok tt, d, w) ∧ suspend why d w = (Ok tt, d, w))
  ∧ (∀ lc, isRunning d = true → lifecycle d = Some lc →
       (∃ d' lc' w',
          stop why d w = (Ok tt, d', w')
          ∧ isRunning d' = false
          ∧ lifecycle d' = Some lc'
          ∧ (if isTerminal lc then lc' = lc
             else currentPhase lc' = FAILED ∧ phase_reason d' = Some why)
          ∧ steps d' = steps d ∧ context d' = context d
          ∧ same_store w w')
       ∧ (if canTransition lc SUSPENDED
          then ∃ d' lc' w',
                 suspend why d w = (Ok tt, d', w')
                 ∧ isRunning d' = true
                 ∧ lifecycle d' = Some lc'
                 ∧ currentPhase lc' = SUSPENDED
                 ∧ steps d' = steps d ∧ context d' = context d
          else suspend why d w
               = (Throw (ErrorObj ("Cannot suspend from phase '"
                                   +:+ AgentPhase_value (currentPhase lc)
                                   +:+ "'")), d, w))).
Proof.
  destruct d as [cfg reg cm olc octx stps running em]. cbn.
  split.
  - unfold stop, suspend, bind, gets. cbn.
    intros [-> | ->]; [done|]. by destruct running.
  - intros lc -> ->. unfold stop, suspend, bind, gets, modify, on_lifecycle.
    cbn. split.
    + destruct (isTerminal lc) eqn:Hterm.
      * rewrite (fail_terminal_noop lc w why Hterm).
        eexists _, _, _. split; [reflexivity|]. cbn. by repeat split.
      * destruct (fail_moves lc w why Hterm)
          as (lc' & w' & Hfail & Hp & Hs & Hwhy & Hstore).
        rewrite Hfail. eexists _, _, _. split; [reflexivity|].
        unfold phase_reason. cbn.
        destruct Hstore as (? & ? & ? & ? & ?). by repeat split.
    + destruct (canTransition lc SUSPENDED) eqn:Hcan.
      * destruct (suspend_moves lc w why Hcan)
          as (lc' & w' & Hsusp & Hp & Hs & Hstore).
        rewrite Hsusp. eexists _, _, _. split; [reflexivity|]. cbn.
        by repeat split.
      * by rewrite (suspend_refused lc w why Hcan).
Qed.

#[local] Ltac open_loop d H :=
  destruct d as [cfg reg cm olc octx stps running em];
  destruct H as (Hrun & Hlc & Hphase & Hctx); cbn in Hrun, Hlc, Hctx;
  subst running olc octx.

(** X28. The observing phase only takes stock: with the loop in
    OBSERVING it records one step, which counts the successful among
    the recent results of the context and has the outcome SUCCESS
    whatever the count, and moves the controller on to REFLECTING; it
    calls no outside function and leaves the context as it is. *)
Theorem X28_observing_records_a_count (d : DecisionLoop) (w : World)
    (lc : LifecycleController) (l : ContextRef) (c : MCPContext) :
  in_phase d lc OBSERVING l →
  heap w !! l = Some c →
  ∃ d' lc' w' step,
    executeObservingPhase d w = (Ok tt, d', w')
    ∧ steps d' = steps d ++ [step]
    ∧ as_phase step = OBSERVING
    ∧ as_stepNumber step = stepNumber lc
    ∧ as_description step = observation (recentResults c)
    ∧ as_outcome step = SUCCESS
    ∧ lifecycle d' = Some lc'
    ∧ currentPhase lc' = REFLECTING
    ∧ stepNumber lc' = stepNumber lc + 1
    ∧ context d' = Some l
    ∧ calls w' = calls w
    ∧ heap w' = heap w.
Proof.
  intros Hin Hl. open_loop d Hin.
  unfold executeObservingPhase, bind, gets, on_lifecycle, deref, createStep,
    push_step, emit, modify, createTimestamp, Date_now, uuidv4, lift, ret.
  cbn. rewrite Hl. cbn.
  match goal with
  | |- context [transition REFLECTING ?why ?data lc ?W] =>
      destruct (transition_moves lc W REFLECTING why data)
        as (lc' & w' & Ht & Hp' & Hs' & _ & Hstore)
  end.
  { unfold canTransition. rewrite Hphase. reflexivity. }
  rewrite Ht. destruct Hstore as (_ & _ & _ & Hcalls & Hheap).
  eexists _, lc', _, _. split; [reflexivity|]. cbn.
  repeat split; try done.
Qed.

Lemma X28_observing_records_a_count_witness :
  ∃ d' lc' w' step,
    executeObservingPhase (loop_at to_observing) sample_store = (Ok tt, d', w')
    ∧ steps d' = [step]
    ∧ as_description step = "Observed 0/0 successful results"
    ∧ currentPhase lc' = REFLECTING.
Proof.
  destruct (X28_observing_records_a_count (loop_at to_observing) sample_store
              (LifecycleTrail.driven None to_observing sample_world)
              0%nat sample_context)
    as (d' & lc' & w' & step & Hrun & Hsteps & _ & _ & Hdesc & _ & _ & Hp & _).
  { repeat split; reflexivity. }
  { reflexivity. }
  exists d', lc', w', step. repeat split; assumption.
Defined.

(** X29. The reflecting phase follows the verdict of the reflector: it
    records one step with the reason of the verdict; a verdict to
    continue sends the controller back to PLANNING, whatever it says of
    success; a verdict to stop completes the run when it reports
    success, with the reason of the verdict, and fails it with that
    reason when it does not.  The reflector is the only outside function
    called. *)
Theorem X29_reflecting_follows_the_verdict (d : DecisionLoop) (w : World)
    (lc : LifecycleController) (l : ContextRef) (r : ReflectionResult) :
  in_phase d lc REFLECTING l →
  reflector (config d) l (steps d) (at_reflection w) = Ok r →
  ∃ d' lc' w' step,
    executeReflectingPhase d w = (Ok tt, d', w')
    ∧ steps d' = steps d ++ [step]
    ∧ as_phase step = REFLECTING
    ∧ as_stepNumber step = stepNumber lc
    ∧ as_description step = rr_reason r
    ∧ lifecycle d' = Some lc'
    ∧ currentPhase lc' = verdict_phase r
    ∧ phase_reason d' = Some (verdict_reason r)
    ∧ context d' = Some l
    ∧ calls w' = call_reflector l (steps d) :: calls w.
Proof.
  intros Hin Hr. open_loop d Hin. cbn in Hr.
  unfold executeReflectingPhase, bind, gets, on_lifecycle, createStep,
    push_step, emit, modify, createTimestamp, Date_now, uuidv4, lift, ret,
    external, await, at_reflection in *.
  cbn in Hr |- *. rewrite Hr. cbn.
  unfold verdict_phase, verdict_reason, phase_reason.
  destruct (shouldContinue r); cbn; [|destruct (isSuccess r); cbn].
  - match goal with
    | |- context [transition PLANNING ?why ?data lc ?W] =>
        destruct (transition_moves lc W PLANNING why data)
          as (lc' & w' & Ht & Hp' & Hs' & Hwhy & Hstore)
    end.
    { unfold canTransition. rewrite Hphase. reflexivity. }
    rewrite Ht. destruct Hstore as (_ & _ & _ & Hcalls & Hheap).
    eexists _, lc', _, _. split; [reflexivity|]. cbn.
    repeat split; try done.
  - match goal with
    | |- context [complete ?why lc ?W] =>
        destruct (complete_moves lc W why Hphase)
          as (lc' & w' & Ht & Hp' & Hwhy & Hstore)
    end.
    rewrite Ht. destruct Hstore as (_ & _ & _ & Hcalls & Hheap).
    eexists _, lc', _, _. split; [reflexivity|]. cbn.
    repeat split; try done.
  - match goal with
    | |- context [Lifecycle.fail ?why lc ?W] =>
        destruct (fail_moves lc W why)
          as (lc' & w' & Ht & Hp' & _ & Hwhy & Hstore)
    end.
    { unfold isTerminal. rewrite Hphase. reflexivity. }
    rewrite Ht. destruct Hstore as (_ & _ & _ & Hcalls & Hheap).
    eexists _, lc', _, _. split; [reflexivity|]. cbn.
    repeat split; try done.
Qed.

Lemma X29_reflecting_follows_the_verdict_witness :
  ∃ d' lc' w' step,
    executeReflectingPhase (loop_at to_reflecting) sample_store
    = (Ok tt, d', w')
    ∧ steps d' = [step]
    ∧ currentPhase lc' = PLANNING
    ∧ phase_reason d' = Some "Continuing with next iteration".
Proof.
  destruct (X29_reflecting_follows_the_verdict (loop_at to_reflecting)
              sample_store
              (LifecycleTrail.driven None to_reflecting sample_world)
              0%nat
              {| shouldContinue := true; isSuccess := false;
                 rr_reason := "Continuing to next iteration";
                 adjustments := [] |})
    as (d' & lc' & w' & step & Hrun & Hsteps & _ & _ & _ & _ & Hp & Hwhy & _).
  { repeat split; reflexivity. }
  { reflexivity. }
  exists d', lc', w', step. repeat split; assumption.
Defined.

#[local] Arguments executePlanningPhase : simpl never.
#[local] Arguments executeActingPhase : simpl never.
#[local] Arguments executeObservingPhase : simpl never.
#[local] Arguments executeReflectingPhase : simpl never.

(** X30. With a step limit of 1 or less the run is over before it
    starts: entering PLANNING counts as step 1, so the first test of the
    limit fails the controller with ["Exceeded maximum steps (n)"].
    [run] returns a failure with the reason ["Task failed"] and no
    steps; the planner, the reflector and the tools are never called,
    and the loop is left not running. *)
Theorem X30_step_limit_of_one_runs_nothing (d : DecisionLoop) (w : World)
    (intent : UserIntent) (workspace : WorkspaceMetadata) (fuel : nat) :
  maxSteps (config d) ≤ 1 →
  ∃ result d' w',
    run (S fuel) intent workspace d w = (Ok (Some result), d', w')
    ∧ success result = false
    ∧ lr_reason result = "Task failed"
    ∧ lr_steps result = []
    ∧ finalContext result = Some (length (heap w))
    ∧ calls w' = calls w
    ∧ getState d'
      = {| st_isRunning := false; st_phase := Some FAILED;
           st_stepNumber := 1; st_steps := [] |}
    ∧ phase_reason d'
      = Some ("Exceeded maximum steps ("
              +:+ pretty (maxSteps (config d)) +:+ ")")
    ∧ toolRegistry d' = toolRegistry d.
Proof.
  intros Hmax.
  destruct d as [cfg reg cm olc octx stps running em]. cbn in Hmax.
  unfold run. cbn.
  match goal with
  | |- context [try_finally _ _ ?d0 ?W] =>
      match d0 with
      | Build_DecisionLoop _ _ _ (Some ?lc0) _ _ _ _ =>
          destruct (transition_moves lc0 W PLANNING
                      "Beginning task execution" [] eq_refl)
            as (lc1 & w1 & Ht & Hp1 & Hs1 & _ & Hstore1)
      end
  end.
  assert (isTerminal lc1 = false) as Hterm
    by (unfold isTerminal; by rewrite Hp1).
  assert (stepNumber lc1 = 1) as Hstep by (rewrite Hs1; reflexivity).
  unfold try_finally, try_catch, bind, on_lifecycle, gets. cbn.
  rewrite Ht. cbn. rewrite Hterm. cbn.
  unfold getStepNumber. rewrite Hstep.
  replace (1 >=? maxSteps cfg) with true by (symmetry; apply Z.geb_le; lia).
  cbn.
  match goal with
  | |- context [Lifecycle.fail ?msg lc1 ?W] =>
      destruct (fail_moves lc1 W msg Hterm)
        as (lc2 & w2 & Hfail & Hp2 & Hs2 & Hwhy & Hstore2)
  end.
  rewrite Hfail. cbn. unfold getCurrentPhase. rewrite Hp2. cbn.
  destruct Hstore1 as (_ & _ & _ & Hcalls1 & _).
  destruct Hstore2 as (_ & _ & _ & Hcalls2 & _).
  eexists _, _, _. split; [reflexivity|]. cbn.
  unfold phase_reason, getState, getCurrentPhase, getStepNumber. cbn.
  rewrite Hp2, Hs2, Hstep, Hwhy, Hcalls2, Hcalls1.
  by repeat split.
Qed.

Lemma X30_step_limit_of_one_runs_nothing_witness :
  ∃ result d' w',
    run 1 sample_intent sample_workspace (sample_loop_with 1)
      sample_registry.2 = (Ok (Some result), d', w')
    ∧ success result = false
    ∧ lr_reason result = "Task failed"
    ∧ lr_steps result = []
    ∧ phase_reason d' = Some "Exceeded maximum steps (1)".
Proof.
  destruct (X30_step_limit_of_one_runs_nothing (sample_loop_with 1)
              sample_registry.2 sample_intent sample_workspace 0)
    as (result & d' & w' & Hrun & Hs & Hr & Hst & _ & _ & _ & Hwhy & _).
  { vm_compute. discriminate. }
  exists result, d', w'. repeat split; assumption.
Defined.

End DecisionLoopExtras.
